(** * Docmaster: the document structuring pipeline

    A shallow embedding of [mainfolder/document_handler.py] (class
    [DocumentHandler]), [mainfolder/section_predictor.py], the DOCX export
    of [mainfolder/export_service.py] and the attaching step of
    [import_pdf] in [mainfolder/main.py], and the properties of heading
    detection, caption detection, the section classifier, the two parsers
    and the export.

    Text is modelled as [string]: a character is a code point below 256,
    so a text is a Python [str] over Latin-1.  The character classes
    ([str.isspace], [\s], [\d], [.], line boundaries, [str.lower], cased
    characters) are Python's on all of these code points; among the white
    space are NEL (U+0085) and the no-break space (U+00A0), and NEL is a
    line boundary.  The upper case of a character is Python's wherever it
    is again a code point below 256, which leaves out the micro sign, the
    sharp s and the y with diaeresis: they are kept as they are.

    The handler object is a record threaded through a state-and-error
    monad; a Python [dict] is an association list in insertion order. *)

From Stdlib Require Import String Ascii List Bool Arith Lia Permutation.

Import ListNotations.

Local Open Scope string_scope.

Local Open Scope list_scope.

Local Open Scope nat_scope.

(* ================================================================== *)
(** ** Characters *)

Module Char.

Definition code (c : ascii) : nat := nat_of_ascii c.

Definition between (lo hi : nat) (c : ascii) : bool :=
  (lo <=? code c) && (code c <=? hi).

(** [str.isspace] on one character, which is also what [\s] matches in a
    [str] pattern and what [str.strip] and [str.split] take away: TAB, LF,
    VT, FF, CR, FS, GS, RS, US, SPACE, NEL (U+0085) and the no-break space
    (U+00A0). *)
Definition isspace (c : ascii) : bool :=
  between 9 13 c || between 28 31 c || (code c =? 32)
  || (code c =? 133) || (code c =? 160).

(** [\d]. *)
Definition isdigit (c : ascii) : bool := between 48 57 c.

(** The characters that [str.lower] changes: A to Z, and the Latin-1
    capitals U+00C0 to U+00DE without the multiplication sign. *)
Definition isupper (c : ascii) : bool :=
  between 65 90 c || between 192 214 c || between 216 222 c.

(** The characters whose upper case is a code point below 256: a to z,
    and U+00E0 to U+00FE without the division sign. *)
Definition islower (c : ascii) : bool :=
  between 97 122 c || between 224 246 c || between 248 254 c.

(** A cased character, as [str.title] understands it: the letters above,
    the ordinal indicators U+00AA and U+00BA, the micro sign U+00B5, the
    sharp s U+00DF and the y with diaeresis U+00FF. *)
Definition iscased (c : ascii) : bool :=
  isupper c || islower c
  || (code c =? 170) || (code c =? 181) || (code c =? 186)
  || (code c =? 223) || (code c =? 255).

(** [str.lower] on one character. *)
Definition lower (c : ascii) : ascii :=
  if isupper c then ascii_of_nat (code c + 32) else c.

(** The title case of one character, which [str.title] gives to the first
    cased character of a word.  It is Python's except at U+00B5, U+00DF
    and U+00FF, whose title case is not a code point below 256; they are
    kept. *)
Definition upper (c : ascii) : ascii :=
  if islower c then ascii_of_nat (code c - 32) else c.

(** The boundaries [str.splitlines] breaks at: LF, VT, FF, CR, FS, GS, RS
    and NEL (U+0085). *)
Definition islinebreak (c : ascii) : bool :=
  between 10 13 c || between 28 30 c || (code c =? 133).

Definition LF : ascii := ascii_of_nat 10.
Definition CR : ascii := ascii_of_nat 13.

(** NEL (U+0085) and the no-break space (U+00A0). *)
Definition NEL : ascii := ascii_of_nat 133.
Definition NBSP : ascii := ascii_of_nat 160.

(** [.] in a pattern compiled without DOTALL. *)
Definition isdot (c : ascii) : bool := negb (c =? LF)%char.

End Char.

(* ================================================================== *)
(** ** String methods *)

Module Str.

Fixpoint all (p : ascii -> bool) (s : string) : bool :=
  match s with
  | EmptyString => true
  | String c s' => p c && all p s'
  end.

Fixpoint map (f : ascii -> ascii) (s : string) : string :=
  match s with
  | EmptyString => EmptyString
  | String c s' => String (f c) (map f s')
  end.

Definition is_empty (s : string) : bool :=
  match s with EmptyString => true | _ => false end.

(** [s.lower()] *)
Definition lower (s : string) : string := map Char.lower s.

(** [s.lstrip()] *)
Fixpoint lstrip (s : string) : string :=
  match s with
  | EmptyString => EmptyString
  | String c s' => if Char.isspace c then lstrip s' else s
  end.

(** [s.rstrip()] *)
Fixpoint rstrip (s : string) : string :=
  match s with
  | EmptyString => EmptyString
  | String c s' =>
      let r := rstrip s' in
      if is_empty r && Char.isspace c then EmptyString else String c r
  end.

(** [s.strip()] *)
Definition strip (s : string) : string := rstrip (lstrip s).

(** [s.title()]: a cased character is upper-cased when the character
    before it is not cased, and lower-cased otherwise. *)
Fixpoint title_from (previous_is_cased : bool) (s : string) : string :=
  match s with
  | EmptyString => EmptyString
  | String c s' =>
      String (if previous_is_cased then Char.lower c else Char.upper c)
             (title_from (Char.iscased c) s')
  end.

Definition title (s : string) : string := title_from false s.

(** [s.splitlines()]: a line ends at a boundary character, CR LF counts
    as one boundary, and no empty line follows a final boundary. *)
Fixpoint splitlines (s : string) : list string :=
  match s with
  | EmptyString => []
  | String c s' =>
      if Char.islinebreak c then
        match s' with
        | String c2 s'' =>
            if (c =? Char.CR)%char && (c2 =? Char.LF)%char
            then EmptyString :: splitlines s''
            else EmptyString :: splitlines s'
        | EmptyString => [EmptyString]
        end
      else
        match splitlines s' with
        | l :: ls => String c l :: ls
        | [] => [String c EmptyString]
        end
  end.

(** [sep.join(parts)] *)
Definition join (sep : string) (parts : list string) : string :=
  String.concat sep parts.

(** [needle in s] *)
Fixpoint contains (needle s : string) : bool :=
  String.prefix needle s ||
  match s with
  | EmptyString => false
  | String _ s' => contains needle s'
  end.

(** [s[n:]] *)
Fixpoint drop (n : nat) (s : string) : string :=
  match n, s with
  | S n', String _ s' => drop n' s'
  | _, _ => s
  end.

(** [s[:n]] *)
Fixpoint take (n : nat) (s : string) : string :=
  match n, s with
  | S n', String c s' => String c (take n' s')
  | _, _ => EmptyString
  end.

End Str.

(* ================================================================== *)
(** ** Regular expressions

    The patterns of the program use literals, character classes, greedy
    repetition of a single character class, alternation, an optional
    group, capture groups and [$].  [re.match] anchors at the start of the
    text, so a leading [^] is not represented.  The matcher is a
    backtracking matcher with an explicit continuation: alternatives are
    tried left to right and a repetition gives characters back one at a
    time, which is the order in which Python's engine explores matches. *)

Module Re.

Inductive regex : Type :=
| Eps
| Cls (p : ascii -> bool)        (* one character of a class *)
| Cat (r1 r2 : regex)
| Alt (r1 r2 : regex)            (* r1|r2 *)
| Star (p : ascii -> bool)       (* c*, greedy *)
| Grp (n : nat) (r : regex)      (* capture group number n *)
| Eol.                           (* $ *)

Definition Plus (p : ascii -> bool) : regex := Cat (Cls p) (Star p).
Definition Opt (r : regex) : regex := Alt r Eps.

Fixpoint seq (rs : list regex) : regex :=
  match rs with
  | [] => Eps
  | [r] => r
  | r :: rs' => Cat r (seq rs')
  end.

Fixpoint alt (rs : list regex) : regex :=
  match rs with
  | [] => Eps
  | [r] => r
  | r :: rs' => Alt r (alt rs')
  end.

(** A literal character, and the same under [re.IGNORECASE]. *)
Definition chr (c : ascii) : regex := Cls (Ascii.eqb c).
Definition chri (c : ascii) : regex :=
  Cls (fun x => Ascii.eqb (Char.lower x) (Char.lower c)).

Fixpoint lit (s : string) : regex :=
  match s with
  | EmptyString => Eps
  | String c EmptyString => chr c
  | String c s' => Cat (chr c) (lit s')
  end.

Fixpoint liti (s : string) : regex :=
  match s with
  | EmptyString => Eps
  | String c EmptyString => chri c
  | String c s' => Cat (chri c) (liti s')
  end.

(** A character set [[...]]. *)
Definition oneof (set : string) : regex :=
  Cls (fun x => existsb (Ascii.eqb x) (list_ascii_of_string set)).

(** Captured groups, by number. *)
Definition groups := list (nat * string).

Fixpoint group (n : nat) (g : groups) : option string :=
  match g with
  | [] => None
  | (m, s) :: g' => if n =? m then Some s else group n g'
  end.

(** [$]: at the end of the text, or just before a final line feed. *)
Definition at_eol (s : string) : bool :=
  match s with
  | EmptyString => true
  | String c EmptyString => (c =? Char.LF)%char
  | _ => false
  end.

Section Matcher.
Context {A : Type}.

Fixpoint star (p : ascii -> bool) (k : string -> option A) (s : string)
  : option A :=
  match s with
  | String c s' =>
      if p c then
        match star p k s' with
        | Some x => Some x
        | None => k s
        end
      else k s
  | EmptyString => k s
  end.

Fixpoint run (r : regex) (g : groups) (s : string)
             (k : groups -> string -> option A) : option A :=
  match r with
  | Eps => k g s
  | Cls p =>
      match s with
      | String c s' => if p c then k g s' else None
      | EmptyString => None
      end
  | Cat r1 r2 => run r1 g s (fun g' s' => run r2 g' s' k)
  | Alt r1 r2 =>
      match run r1 g s k with
      | Some x => Some x
      | None => run r2 g s k
      end
  | Star p => star p (k g) s
  | Grp n r' =>
      run r' g s
          (fun g' s' =>
             k ((n, Str.take (String.length s - String.length s') s) :: g') s')
  | Eol => if at_eol s then k g s else None
  end.
End Matcher.

(** [re.match(r, s)]: the groups of the first match and the text left
    after it, or [None]. *)
Definition rmatch (r : regex) (s : string) : option (groups * string) :=
  run r [] s (fun g rest => Some (g, rest)).

Definition matches (r : regex) (s : string) : bool :=
  match rmatch r s with Some _ => true | None => false end.

(** [re.sub(r, repl, s)] for a pattern anchored with [^] that cannot
    match the empty text: the only possible match is at the start. *)
Definition sub_anchored (r : regex) (repl s : string) : string :=
  match rmatch r s with
  | Some (_, rest) => repl ++ rest
  | None => s
  end.

Definition space := Char.isspace.
Definition digit := Char.isdigit.
Definition dot := Char.isdot.

(** [denotes r g s1 s2 g']: the pattern matches the text [s1] when [s2]
    follows it, and the groups go from [g] to [g']. *)
Fixpoint denotes (r : regex) (g : groups) (s1 s2 : string) (g' : groups)
  : Prop :=
  match r with
  | Eps => s1 = EmptyString /\ g' = g
  | Cls p => exists c, s1 = String c EmptyString /\ p c = true /\ g' = g
  | Cat r1 r2 =>
      exists a b gm,
        s1 = (a ++ b)%string
        /\ denotes r1 g a (b ++ s2)%string gm
        /\ denotes r2 gm b s2 g'
  | Alt r1 r2 => denotes r1 g s1 s2 g' \/ denotes r2 g s1 s2 g'
  | Star p => Str.all p s1 = true /\ g' = g
  | Grp n r' => exists gm, denotes r' g s1 s2 gm /\ g' = (n, s1) :: gm
  | Eol => s1 = EmptyString /\ at_eol s2 = true /\ g' = g
  end.

End Re.

(* ================================================================== *)
(** ** The content model *)

(** One element of a section: the dictionaries with ["type"] equal to
    ["text"], ["table"] and ["image"]. *)
Inductive element : Type :=
| Text (content : string)
| Table (data : list (list string))
| Image (path : option string) (caption : option string)
        (alt_text : string) (virtual : bool).

(** [self.sections]: a dict from section name to its elements, in
    insertion order. *)
Definition sections_t := list (string * list element).

Module Dict.

Fixpoint get (k : string) (d : sections_t) : option (list element) :=
  match d with
  | [] => None
  | (k', v) :: d' => if String.eqb k k' then Some v else get k d'
  end.

(** [k in d] *)
Definition mem (k : string) (d : sections_t) : bool :=
  match get k d with Some _ => true | None => false end.

Definition keys (d : sections_t) : list string := List.map fst d.

(** [d[k] = v]: replaces the value of a key that is present, and adds a
    new key at the end. *)
Fixpoint set (k : string) (v : list element) (d : sections_t) : sections_t :=
  match d with
  | [] => [(k, v)]
  | (k', v') :: d' =>
      if String.eqb k k' then (k', v) :: d' else (k', v') :: set k v d'
  end.

End Dict.

(* ================================================================== *)
(** ** Patterns of [DocumentHandler] *)

Module Patterns.
Import Re.

(** [w1\s+w2\s+...] *)
Fixpoint phrase (ws : list string) : regex :=
  match ws with
  | [] => Eps
  | [w] => lit w
  | w :: ws' => Cat (lit w) (Cat (Plus space) (phrase ws'))
  end.

(** [^\s*(p1|p2|...)\s*$] *)
Definition heading (alts : list (list string)) : regex :=
  seq [Star space; Grp 1 (alt (List.map phrase alts)); Star space; Eol].

(** The words of the recognized headings, pattern by pattern. *)
Definition SECTION_WORDS : list (list (list string)) :=
  [ [["abstract"]];
    [["introduction"]];
    [["literature"; "review"]];
    [["background"]];
    [["methodology"]; ["materials"; "and"; "methods"]; ["methods"]];
    [["experiment"]; ["experimental"; "setup"]];
    [["results"]; ["findings"]; ["analysis"]];
    [["discussion"]; ["observations"]];
    [["conclusion"]; ["summary"]; ["closing"; "remarks"]];
    [["future"; "work"]; ["recommendations"]];
    [["references"]; ["bibliography"]; ["works"; "cited"]] ].

Definition SECTION_PATTERNS : list regex := List.map heading SECTION_WORDS.

(** [^\s*\d+[\.\)]\s*(.+)$] *)
Definition NUMBERED : regex :=
  seq [Star space; Plus digit; oneof ".)"; Star space;
       Grp 1 (Plus dot); Eol].

(** [^\s*\d+[\.\)]\s*] *)
Definition NUMBER_PREFIX : regex :=
  seq [Star space; Plus digit; oneof ".)"; Star space].

(** [^(fig(ure)?\s*\d+[:.\-)]\s+).*] with [re.IGNORECASE] *)
Definition FIGURE_CAPTION_PATTERN : regex :=
  seq [Grp 1 (seq [liti "fig"; Opt (Grp 2 (liti "ure")); Star space;
                   Plus digit; oneof ":.-)"; Plus space]);
       Star dot].

(** [^\[\d+\]] of [section_predictor._rule_based_label] *)
Definition BRACKET_REF : regex :=
  seq [chr "["%char; Plus digit; chr "]"%char].

End Patterns.

(* ================================================================== *)
(** ** Heading and caption detection *)

(** An optional text used as a condition: [None] and the empty text are
    false, any other text is true. *)
Definition if_truthy (o : option string) : option string :=
  match o with
  | Some s => if Str.is_empty s then None else Some s
  | None => None
  end.

(** The text the heading patterns are tried on. *)
Definition heading_candidate (text : string) : string :=
  let l := Str.strip (Str.lower text) in
  match Re.rmatch Patterns.NUMBERED l with
  | Some (g, _) =>
      match Re.group 1 g with
      | Some g1 => Str.strip g1
      | None => l
      end
  | None => l
  end.

(** The loop [for patt in self.SECTION_PATTERNS]: the first pattern that
    matches ends it with the cleaned text. *)
Fixpoint first_match (patterns : list Re.regex) (candidate : string)
                     (result : string) : option string :=
  match patterns with
  | [] => None
  | patt :: rest =>
      if Re.matches patt candidate then Some result
      else first_match rest candidate result
  end.

(** [DocumentHandler._detect_heading] *)
Definition _detect_heading (text : string) : option string :=
  if Str.is_empty text then None
  else
    first_match Patterns.SECTION_PATTERNS (heading_candidate text)
      (Str.title (Str.strip
         (Re.sub_anchored Patterns.NUMBER_PREFIX EmptyString text))).

(** [FIGURE_CAPTION_PATTERN.match(line)] guarded by the truth value of
    [line]. *)
Definition is_caption (line : option string) : bool :=
  match if_truthy line with
  | Some l => Re.matches Patterns.FIGURE_CAPTION_PATTERN l
  | None => false
  end.

(** [DocumentHandler._detect_caption] *)
Definition _detect_caption (previous current : option string) : option string :=
  if is_caption previous then previous
  else if is_caption current then current
  else None.

(* ================================================================== *)
(** ** The handler object and its monad *)

Record DocumentHandler : Type := mkHandler {
  sections : sections_t;
  detected_order : list string;
  _last_text : option string
}.

(** [DocumentHandler.__init__] *)
Definition new_handler : DocumentHandler := mkHandler [] [] None.

Inductive error : Type :=
| KeyError (key : string)       (* a missing dict key *)
| DocumentReadError.            (* [Document(path)] raised *)

(** A method body: it reads and updates [self], and returns or raises. *)
Definition M (A : Type) : Type := DocumentHandler -> (error + A) * DocumentHandler.

Definition ret {A} (a : A) : M A := fun h => (inr a, h).

Definition raise {A} (e : error) : M A := fun h => (inl e, h).

Definition bind {A B} (m : M A) (f : A -> M B) : M B :=
  fun h =>
    match m h with
    | (inr a, h') => f a h'
    | (inl e, h') => (inl e, h')
    end.

Notation "x <- m ;; k" := (bind m (fun x => k))
  (at level 61, m at next level, right associativity).

Notation "m ;;; k" := (bind m (fun _ => k))
  (at level 61, right associativity).

Definition get_sections : M sections_t := fun h => (inr (sections h), h).

Definition set_sections (d : sections_t) : M unit :=
  fun h => (inr tt, mkHandler d (detected_order h) (_last_text h)).

Definition get_order : M (list string) := fun h => (inr (detected_order h), h).

Definition set_order (o : list string) : M unit :=
  fun h => (inr tt, mkHandler (sections h) o (_last_text h)).

Definition get_last_text : M (option string) := fun h => (inr (_last_text h), h).

Definition set_last_text (t : option string) : M unit :=
  fun h => (inr tt, mkHandler (sections h) (detected_order h) t).

(** [self.sections[name].append(e)] *)
Definition sections_append (name : string) (e : element) : M unit :=
  d <- get_sections ;;
  match Dict.get name d with
  | Some v => set_sections (Dict.set name (v ++ [e]) d)
  | None => raise (KeyError name)
  end.

(** [if heading not in self.sections:
       self.sections[heading] = []; self.detected_order.append(heading)] *)
Definition open_section (heading : string) : M unit :=
  d <- get_sections ;;
  if Dict.mem heading d then ret tt
  else
    set_sections (Dict.set heading [] d) ;;;
    o <- get_order ;;
    set_order (o ++ [heading]).

(** [DocumentHandler._cleanup] *)
Definition nonempty (v : list element) : bool :=
  match v with [] => false | _ => true end.

Definition _cleanup : M unit :=
  d <- get_sections ;;
  set_sections (filter (fun kv => nonempty (snd kv)) d) ;;;
  d' <- get_sections ;;
  o <- get_order ;;
  set_order (filter (fun s => Dict.mem s d') o).

(* ================================================================== *)
(** ** [DocumentHandler.parse_text] *)

(** The closure [flush]: it reads [current_section] and [buffer] of the
    enclosing call, and the value returned is the new [buffer]. *)
Definition flush (current_section : string) (buffer : list string)
  : M (list string) :=
  match buffer with
  | [] => ret buffer
  | _ =>
      let para := Str.strip (Str.join " " buffer) in
      (if Str.is_empty para then ret tt
       else sections_append current_section (Text para)) ;;;
      ret []
  end.

(** The loop [for line in text.splitlines()], followed by the last
    [flush()]. *)
Fixpoint parse_lines (lines : list string) (current_section : string)
                     (buffer : list string) : M unit :=
  match lines with
  | [] => flush current_section buffer ;;; ret tt
  | line :: rest =>
      let stripped := Str.strip line in
      if Str.is_empty stripped then
        buffer' <- flush current_section buffer ;;
        parse_lines rest current_section buffer'
      else
        match if_truthy (_detect_heading stripped) with
        | Some heading =>
            buffer' <- flush current_section buffer ;;
            open_section heading ;;;
            parse_lines rest heading buffer'
        | None => parse_lines rest current_section (buffer ++ [stripped])
        end
  end.

Definition parse_text (text : string) : M sections_t :=
  set_sections [] ;;;
  set_order [] ;;;
  let current_section := "Uncategorized" in
  d <- get_sections ;;
  set_sections (Dict.set current_section [] d) ;;;
  o <- get_order ;;
  set_order (o ++ [current_section]) ;;;
  parse_lines (Str.splitlines text) current_section [] ;;;
  _cleanup ;;;
  get_sections.

(* ================================================================== *)
(** ** [DocumentHandler.parse_docx] *)

(** What the parser reads of a document opened by [docx.Document]. *)

(** An XML node below a run: its attributes, by name. *)
Record node : Type := mkNode { attrib : list (string * string) }.

(** A paragraph: [para.text], and for each run the nodes that
    [run._r.xpath(".//*")] returns. *)
Record paragraph : Type := mkPara {
  para_text : string;
  runs : list (list node)
}.

(** An element of [doc.element.body]. *)
Inductive block : Type :=
| CT_P (para : paragraph)
| CT_Tbl (rows : list (list string))     (* the text of each cell, by row *)
| CT_SectPr.                             (* any other element *)

(** A package part, and a relationship of the document part.  Reading
    [rel.target_part] raises when the part cannot be reached: that is
    [None]. *)
Record part : Type := mkPart { partname : string; blob : string }.

Record rel : Type := mkRel {
  rId : string;
  reltype : string;
  target_part : option part
}.

Record document : Type := mkDoc {
  rels : list rel;                       (* [doc.part.rels.values()] *)
  body : list block                      (* [doc.element.body] *)
}.

Fixpoint assoc_get (k : string) (d : list (string * string)) : option string :=
  match d with
  | [] => None
  | (k', v) :: d' => if String.eqb k k' then Some v else assoc_get k d'
  end.

Fixpoint assoc_set (k v : string) (d : list (string * string))
  : list (string * string) :=
  match d with
  | [] => [(k, v)]
  | (k', v') :: d' =>
      if String.eqb k k' then (k', v) :: d' else (k', v') :: assoc_set k v d'
  end.

(** [os.path.basename]: the text after the last slash. *)
Fixpoint basename (p : string) : string :=
  match p with
  | EmptyString => EmptyString
  | String c p' =>
      if Str.contains "/" p then basename p' else p
  end.

(** [os.path.join(dir, name)] for a relative [name]. *)
Definition path_join (dir name : string) : string := dir ++ "/" ++ name.

Section Docx.

(** [Document(path)]: the document, or [None] when it raises because the
    file is missing, unreadable or not a valid package. *)
Variable Document : string -> option document.

(** [tempfile.gettempdir()] *)
Variable tempdir : string.

(** Whether [open(out_path, "wb")] and the write succeed. *)
Variable writable : string -> bool.

(** The body of the [try] in [_extract_all_images] for one relationship:
    the new map, or [None] when it raises. *)
Definition extract_one (image_dir : string) (r : rel)
           (image_map : list (string * string))
  : option (list (string * string)) :=
  if Str.contains "image" (reltype r) then
    match target_part r with
    | Some part =>
        let filename := basename (partname part) in
        let out_path := path_join image_dir filename in
        if writable out_path then Some (assoc_set (rId r) out_path image_map)
        else None
    | None => None
    end
  else Some image_map.

(** [DocumentHandler._extract_all_images]: a relationship whose
    extraction raises is skipped. *)
Fixpoint extract_rels (image_dir : string) (rs : list rel)
         (image_map : list (string * string)) : list (string * string) :=
  match rs with
  | [] => image_map
  | r :: rs' =>
      match extract_one image_dir r image_map with
      | Some image_map' => extract_rels image_dir rs' image_map'
      | None => extract_rels image_dir rs' image_map
      end
  end.

Definition _extract_all_images (doc : document) (image_dir : string)
  : list (string * string) :=
  extract_rels image_dir (rels doc) [].

(** [node.get("descr") or ""] *)
Definition descr_of (n : node) : string :=
  match if_truthy (assoc_get "descr" (attrib n)) with
  | Some d => d
  | None => EmptyString
  end.

Definition images_of_node (image_map : list (string * string)) (n : node)
  : list element :=
  flat_map
    (fun kv : string * string =>
       let (attr, value) := kv in
       if Str.contains "embed" attr
       then [Image (assoc_get value image_map) None (descr_of n) false]
       else [])
    (attrib n).

(** [DocumentHandler._extract_images_from_paragraph] *)
Definition _extract_images_from_paragraph (para : paragraph)
           (image_map : list (string * string)) : list element :=
  flat_map (fun run => flat_map (images_of_node image_map) run) (runs para).

(** [img["caption"] = ...] *)
Definition set_caption (caption : option string) (img : element) : element :=
  match img with
  | Image path _ alt_text virtual => Image path caption alt_text virtual
  | other => other
  end.

(** [for img in imgs: ...] *)
Fixpoint append_images (imgs : list element) (current_section txt : string)
  : M unit :=
  match imgs with
  | [] => ret tt
  | img :: imgs' =>
      previous <- get_last_text ;;
      sections_append current_section
        (set_caption (_detect_caption previous (Some txt)) img) ;;;
      append_images imgs' current_section txt
  end.

(** The loop [for block in doc.element.body]. *)
Fixpoint parse_blocks (image_map : list (string * string))
         (blocks : list block) (current_section : string) : M unit :=
  match blocks with
  | [] => ret tt
  | CT_P para :: rest =>
      let txt := Str.strip (para_text para) in
      let heading := if Str.is_empty txt then None else _detect_heading txt in
      match if_truthy heading with
      | Some heading =>
          open_section heading ;;;
          set_last_text (Some txt) ;;;
          parse_blocks image_map rest heading
      | None =>
          let imgs := _extract_images_from_paragraph para image_map in
          match imgs with
          | _ :: _ =>
              append_images imgs current_section txt ;;;
              set_last_text (Some txt) ;;;
              parse_blocks image_map rest current_section
          | [] =>
              (if Str.is_empty txt then ret tt
               else sections_append current_section (Text txt)) ;;;
              set_last_text (Some txt) ;;;
              parse_blocks image_map rest current_section
          end
      end
  | CT_Tbl rows :: rest =>
      sections_append current_section
        (Table (List.map (List.map Str.strip) rows)) ;;;
      parse_blocks image_map rest current_section
  | CT_SectPr :: rest => parse_blocks image_map rest current_section
  end.

Definition parse_docx (path : string) : M sections_t :=
  match Document path with
  | None => raise DocumentReadError
  | Some doc =>
      set_sections [("Uncategorized", [])] ;;;
      set_order ["Uncategorized"] ;;;
      let current_section := "Uncategorized" in
      set_last_text None ;;;
      let img_dir := path_join tempdir "docmaster_images" in
      let image_map := _extract_all_images doc img_dir in
      parse_blocks image_map (body doc) current_section ;;;
      _cleanup ;;;
      get_sections
  end.

End Docx.

(* ================================================================== *)
(** ** [section_predictor] *)

Section Predictor.

(** The pretrained model: [CLASSIFIER.predict(VECTORIZER.transform([text]))[0]]. *)
Variable CLASSIFIER : string -> string.

Definition CUSTOM_WORDS : list string :=
  ["acknowledg"; "acknowledgement"; "acknowledgment";
   "declaration"; "certificate";
   "plagiarism"; "bona fide"; "supervisor certificate"].

(** [_rule_based_label] *)
Definition _rule_based_label (text : string) : option string :=
  let low := Str.strip (Str.lower text) in
  if Re.matches Patterns.BRACKET_REF (Str.strip text) then Some "REFERENCES"
  else if Str.contains "doi.org" low || Str.contains "http://" low
          || Str.contains "https://" low then Some "REFERENCES"
  else if existsb (fun word => Str.contains word low) CUSTOM_WORDS
  then Some "CUSTOM"
  else None.

(** [predict_section] *)
Definition predict_section (text : string) : string :=
  let text := Str.strip text in
  if String.length text <? 20 then "CUSTOM"
  else
    match if_truthy (_rule_based_label text) with
    | Some rule => rule
    | None => CLASSIFIER text
    end.

End Predictor.

(* ================================================================== *)
(** ** Concrete scenarios *)

Module Scenario.

Definition nl : string := String Char.LF EmptyString.

(** ["Abstract\nThis paper studies X.\n\nIntroduction\nWe begin with Y.\n\n"] *)
Definition two_sections : string :=
  "Abstract" ++ nl ++ "This paper studies X." ++ nl ++ nl ++
  "Introduction" ++ nl ++ "We begin with Y." ++ nl ++ nl.

(** A handler that has already parsed something else. *)
Definition used_handler : DocumentHandler :=
  mkHandler [("Results", [Text "old"])] ["Results"] (Some "old").

End Scenario.

(* ================================================================== *)
(** ** The outcome of [parse_text], in closed form *)

Module Spec.

(** A name joins the order the first time it is seen. *)
Definition add_name (o : list string) (n : string) : list string :=
  if existsb (String.eqb n) o then o else o ++ [n].

(** The elements a parse places, each with the section it goes to, in
    the order of the input. *)
Definition log := list (string * element).

Definition placed_in (n : string) (l : log) : list element :=
  List.map snd (filter (fun p => String.eqb n (fst p)) l).

(** The model built from the sections opened and the elements placed:
    every opened section with what was placed in it, in order of
    opening, without the sections that received nothing. *)
Definition model_of (order : list string) (l : log) : sections_t :=
  filter (fun kv => nonempty (snd kv))
         (List.map (fun n => (n, placed_in n l)) order).

(** What a line of text is to the parser. *)
Inductive line_kind : Type :=
| Blank
| Heading (name : string)
| Body (stripped : string).

Definition classify (line : string) : line_kind :=
  let stripped := Str.strip line in
  if Str.is_empty stripped then Blank
  else match if_truthy (_detect_heading stripped) with
       | Some name => Heading name
       | None => Body stripped
       end.

Definition close (cur : string) (run : list string)
  : list (string * list string) :=
  match run with
  | [] => []
  | _ => [(cur, run)]
  end.

(** The runs of body lines of a text, each with the section that is
    current when the run ends; [run] is the run that is open at the
    start. *)
Fixpoint text_runs (cur : string) (run : list string) (lines : list string)
  : list (string * list string) :=
  match lines with
  | [] => close cur run
  | line :: rest =>
      match classify line with
      | Blank => close cur run ++ text_runs cur [] rest
      | Heading name => close cur run ++ text_runs name [] rest
      | Body stripped => text_runs cur (run ++ [stripped]) rest
      end
  end.

Definition text_headings (lines : list string) : list string :=
  flat_map (fun line => match classify line with
                        | Heading name => [name]
                        | _ => []
                        end) lines.

(** Each run becomes one Text element: its lines joined by single
    spaces. *)
Definition run_log (rs : list (string * list string)) : log :=
  List.map (fun sr : string * list string =>
              (fst sr, Text (Str.join " " (snd sr)))) rs.

Definition text_log (cur : string) (run : list string) (lines : list string)
  : log :=
  run_log (text_runs cur run lines).

(** The order before pruning: "Uncategorized", then each heading where
    it first occurs. *)
Definition text_order (lines : list string) : list string :=
  fold_left add_name (text_headings lines) ["Uncategorized"].

(** [r] is a run of the text: a non-empty block of consecutive body
    lines that is not part of a longer one. *)
Definition not_body (k : option line_kind) : Prop :=
  match k with
  | Some (Body _) => False
  | _ => True
  end.

Definition is_run (kinds : list line_kind) (r : list string) : Prop :=
  r <> [] /\
  exists before after,
    kinds = before ++ List.map Body r ++ after
    /\ not_body (last (List.map Some before) None)
    /\ not_body (hd_error after).

End Spec.

Definition wf (h : DocumentHandler) : Prop :=
  Dict.keys (sections h) = detected_order h /\ NoDup (detected_order h).

Definition content (n : string) (d : sections_t) : list element :=
  match Dict.get n d with
  | Some v => v
  | None => []
  end.

(** From [h] to [h']: the order became [o'] and the elements of [l] were
    placed. *)
Definition effect (h h' : DocumentHandler) (o' : list string) (l : Spec.log)
  : Prop :=
  wf h'
  /\ detected_order h' = o'
  /\ forall n, content n (sections h')
               = content n (sections h) ++ Spec.placed_in n l.

(* ================================================================== *)
(** ** Texts without space at their ends *)

(** A text that is not empty and has no space at either end. *)
Definition first_ok (s : string) : bool :=
  match s with
  | String c _ => negb (Char.isspace c)
  | EmptyString => false
  end.

Fixpoint last_ok (s : string) : bool :=
  match s with
  | EmptyString => false
  | String c EmptyString => negb (Char.isspace c)
  | String _ s' => last_ok s'
  end.

Definition tight (s : string) : bool := first_ok s && last_ok s.

(* ================================================================== *)
(** ** The outcome of [parse_docx], in closed form *)

Module DocxSpec.
Import Spec.

(** What a paragraph is to the parser. *)
Definition paragraph_heading (para : paragraph) : option string :=
  let txt := Str.strip (para_text para) in
  if_truthy (if Str.is_empty txt then None else _detect_heading txt).

Definition docx_headings (blocks : list block) : list string :=
  flat_map (fun b => match b with
                     | CT_P para =>
                         match paragraph_heading para with
                         | Some name => [name]
                         | None => []
                         end
                     | _ => []
                     end) blocks.

(** The elements the body places, with their sections; [last] is the
    text of the paragraph before. *)
Fixpoint docx_log (image_map : list (string * string)) (blocks : list block)
         (cur : string) (last : option string) : log :=
  match blocks with
  | [] => []
  | CT_P para :: rest =>
      let txt := Str.strip (para_text para) in
      match paragraph_heading para with
      | Some name => docx_log image_map rest name (Some txt)
      | None =>
          match _extract_images_from_paragraph para image_map with
          | [] =>
              (if Str.is_empty txt then [] else [(cur, Text txt)])
              ++ docx_log image_map rest cur (Some txt)
          | imgs =>
              List.map (fun img =>
                          (cur, set_caption (_detect_caption last (Some txt)) img))
                       imgs
              ++ docx_log image_map rest cur (Some txt)
          end
      end
  | CT_Tbl rows :: rest =>
      (cur, Table (List.map (List.map Str.strip) rows))
        :: docx_log image_map rest cur last
  | CT_SectPr :: rest => docx_log image_map rest cur last
  end.

Fixpoint docx_last (blocks : list block) (last : option string)
  : option string :=
  match blocks with
  | [] => last
  | CT_P para :: rest => docx_last rest (Some (Str.strip (para_text para)))
  | _ :: rest => docx_last rest last
  end.

Definition docx_order (blocks : list block) : list string :=
  fold_left add_name (docx_headings blocks) ["Uncategorized"].

End DocxSpec.

(* ================================================================== *)
(** ** The finalized model *)

(** The state of a handler after pruning. *)
Definition pruned (h : DocumentHandler) : Prop :=
  NoDup (detected_order h)
  /\ Permutation (detected_order h) (Dict.keys (sections h))
  /\ forall name,
       In name (detected_order h) ->
       exists v, Dict.get name (sections h) = Some v /\ v <> [].

(** The names that occur as the section of a placed element. *)
Definition receives {A} (placed : list (string * A)) (name : string) : bool :=
  existsb (String.eqb name) (List.map fst placed).

Module Repeated.

(** ["Abstract\nIntroduction\nSome text.\nAbstract\nMore text.\n"] *)
Definition text : string :=
  "Abstract" ++ Scenario.nl ++ "Introduction" ++ Scenario.nl ++
  "Some text." ++ Scenario.nl ++ "Abstract" ++ Scenario.nl ++
  "More text." ++ Scenario.nl.

End Repeated.

(* ================================================================== *)
(** ** Image extraction *)




(** The extraction of a relationship raises: it is an image relationship
    whose part cannot be reached or whose file cannot be written. *)
Definition extraction_fails (writable : string -> bool) (image_dir : string)
         (r : rel) : bool :=
Str.contains "image" (reltype r)
&& match target_part r with
   | Some part =>
       negb (writable (path_join image_dir (basename (partname part))))
   | None => true
   end.

Module Broken.

(** A document whose only image cannot be reached, between two
    paragraphs of text. *)
Definition image_rel : rel :=
mkRel "rId5" "http://schemas.openxmlformats.org/officeDocument/2006/relationships/image" None.

Definition picture : paragraph :=
mkPara EmptyString
       [[mkNode [("r:embed", "rId5"); ("descr", "growth chart")]]].

Definition broken_body : list block :=
[CT_P (mkPara "Results" []); CT_P (mkPara "Figure 1: Growth" []);
 CT_P picture; CT_P (mkPara "The chart shows growth." [])].

Definition doc : document := mkDoc [image_rel] broken_body.

(** The same document with the image in place. *)
Definition intact : document :=
mkDoc [mkRel "rId5" "http://schemas.openxmlformats.org/officeDocument/2006/relationships/image"
             (Some (mkPart "/word/media/image1.png" "PNG"))]
      broken_body.

End Broken.

(* ================================================================== *)
(** ** Heading lines, in the words of the specification *)

Module HeadingSpec.

(** [s.split()]: the words of a text, separated by white space. *)
Fixpoint words (s : string) : list string :=
  match s with
  | EmptyString => []
  | String c s' =>
      if Char.isspace c then words s'
      else
        match s' with
        | EmptyString => [String c EmptyString]
        | String c' _ =>
            if Char.isspace c' then String c EmptyString :: words s'
            else
              match words s' with
              | w :: ws => String c w :: ws
              | [] => [String c EmptyString]
              end
        end
  end.

Fixpoint take_while (p : ascii -> bool) (s : string) : string :=
  match s with
  | EmptyString => EmptyString
  | String c s' => if p c then String c (take_while p s') else EmptyString
  end.

Fixpoint drop_while (p : ascii -> bool) (s : string) : string :=
  match s with
  | EmptyString => EmptyString
  | String c s' => if p c then drop_while p s' else s
  end.

Definition is_separator (c : ascii) : bool :=
  (c =? ".")%char || (c =? ")")%char.

(** A numbering prefix is digits and then [.] or [)]; it goes away with the
    white space around it.  A text without one is left as it is. *)
Definition drop_numbering (s : string) : string :=
  let t := Str.lstrip s in
  match take_while Char.isdigit t, drop_while Char.isdigit t with
  | String _ _, String c rest => if is_separator c then Str.lstrip rest else s
  | _, _ => s
  end.

(** The recognized headings, as lists of words. *)
Definition PHRASES : list (list string) := List.concat Patterns.SECTION_WORDS.

Fixpoint same_words (a b : list string) : bool :=
  match a, b with
  | [], [] => true
  | x :: a', y :: b' => String.eqb x y && same_words a' b'
  | _, _ => false
  end.

(** The whole line, without its numbering and in lower case, is a
    recognized heading. *)
Definition is_heading_line (text : string) : bool :=
  existsb (same_words (words (drop_numbering (Str.lower text)))) PHRASES.

(** The numbering-stripped, title-cased text. *)
Definition heading_name (text : string) : string :=
  Str.title (Str.strip (drop_numbering text)).

End HeadingSpec.

(* ================================================================== *)
(** ** Words of a text *)

(** [s] is the words [ws] with white space between them: no space before
    the first word or after the last. *)
Fixpoint spaced (ws : list string) (s : string) : Prop :=
  match ws with
  | [] => s = EmptyString
  | w :: ws' =>
      match ws' with
      | [] => s = w
      | _ =>
          exists sp s',
            s = (w ++ sp ++ s')%string
            /\ sp <> EmptyString
            /\ Str.all Char.isspace sp = true
            /\ spaced ws' s'
      end
  end.

(** A word: not empty and without white space. *)
Definition good_word (w : string) : bool :=
  negb (Str.is_empty w) && Str.all (fun c => negb (Char.isspace c)) w.

(** The text is empty or starts with white space. *)
Definition starts_space (s : string) : bool :=
  match s with
  | EmptyString => true
  | String c _ => Char.isspace c
  end.

(** The table of a pattern: it has alternatives, and their words are
    words. *)
Definition good_alts (alts : list (list string)) : bool :=
  negb (match alts with [] => true | _ => false end)
  && forallb (forallb good_word) alts.

(* ================================================================== *)
(** ** The section classifier *)

Module PredictorSpec.
Import HeadingSpec.

(** The text starts with [[], digits and []]. *)
Definition starts_with_reference (s : string) : bool :=
  match s with
  | String c rest =>
      (c =? "[")%char
      && negb (Str.is_empty (take_while Char.isdigit rest))
      && match drop_while Char.isdigit rest with
         | String c' _ => (c' =? "]")%char
         | EmptyString => false
         end
  | EmptyString => false
  end.

(** The text contains a URL or DOI marker, in any case. *)
Definition has_link_marker (text : string) : bool :=
  let low := Str.lower text in
  Str.contains "doi.org" low || Str.contains "http://" low
  || Str.contains "https://" low.

End PredictorSpec.

Module Padded.

(** "[7] Smith et al." followed by ten spaces: 26 characters. *)
Definition reference : string := "[7] Smith et al.          ".

End Padded.

(* ================================================================== *)
(** ** Caption lines, spelled out *)

Module CaptionSpec.
Import HeadingSpec.

Definition is_caption_separator (c : ascii) : bool :=
  (c =? ":")%char || (c =? ".")%char || (c =? "-")%char || (c =? ")")%char.

(** After the word: optional white space, digits, one separator and one
    white space character; anything may follow. *)
Definition caption_tail (t : string) : bool :=
  let t1 := Str.lstrip t in
  negb (Str.is_empty (take_while Char.isdigit t1))
  && match drop_while Char.isdigit t1 with
     | String c (String c2 _) => is_caption_separator c && Char.isspace c2
     | _ => false
     end.

(** The line starts with "fig" or "figure" in any case, and goes on as
    above. *)
Definition caption_shape (s : string) : bool :=
  (String.prefix "figure" (Str.lower s) && caption_tail (Str.drop 6 s))
  || (String.prefix "fig" (Str.lower s) && caption_tail (Str.drop 3 s)).

Definition caption_line (line : option string) : bool :=
  match line with
  | Some l => caption_shape l
  | None => false
  end.

End CaptionSpec.

(* ================================================================== *)
(** ** [DocumentHandler.detect_virtual_image] *)

Definition VIRTUAL_KEYWORDS : list string :=
  ["figure"; "fig."; "graph"; "chart"; "plot"; "diagram"].

(** [DocumentHandler.detect_virtual_image] *)
Definition detect_virtual_image (paragraph_text : string) : option element :=
  if Str.is_empty paragraph_text then None
  else
    let text_lower := Str.lower paragraph_text in
    if existsb (fun k => Str.contains k text_lower) VIRTUAL_KEYWORDS
    then Some (Image None (Some paragraph_text) EmptyString true)
    else None.

(* ================================================================== *)
(** ** [DocumentHandler.get_structured_text] *)

Definition newline : string := String Char.LF EmptyString.

(** [str(x)] for an optional text and for a boolean, as an f-string
    prints them. *)
Definition str_of_option (o : option string) : string :=
  match o with
  | Some s => s
  | None => "None"
  end.

Definition str_of_bool (b : bool) : string := if b then "True" else "False".

(** The lines printed for one element. *)
Definition element_lines (el : element) : list string :=
  match el with
  | Text content => [content]
  | Table data =>
      ["[TABLE]"] ++ List.map (Str.join " | ") data ++ ["[/TABLE]"]
  | Image path caption alt_text virtual =>
      [("[IMAGE] path=" ++ str_of_option path
        ++ " VIRTUAL=" ++ str_of_bool virtual
        ++ " CAPTION=" ++ str_of_option caption
        ++ " ALT=" ++ alt_text)%string]
  end.

(** The loop [for sec in self.detected_order]. *)
Fixpoint structured_lines (order : list string) : M (list string) :=
  match order with
  | [] => ret []
  | sec :: rest =>
      d <- get_sections ;;
      match Dict.get sec d with
      | Some elems =>
          out <- structured_lines rest ;;
          ret ((("=== " ++ sec ++ " ===")%string
                :: flat_map element_lines elems) ++ [EmptyString] ++ out)
      | None => raise (KeyError sec)
      end
  end.

(** [DocumentHandler.get_structured_text] *)
Definition get_structured_text : M string :=
  o <- get_order ;;
  out <- structured_lines o ;;
  ret (Str.join newline out).

(** The lines of one section: its title, its elements, an empty line. *)
Definition section_lines (kv : string * list element) : list string :=
  (("=== " ++ fst kv ++ " ===")%string :: flat_map element_lines (snd kv))
  ++ [EmptyString].

(* ================================================================== *)
(** ** [ExportService._wrap] *)

(** The loop [for w in words] of [_wrap], and the last line. *)
Fixpoint wrap_words (words : list string) (line : string) (width : nat)
  : list string :=
  match words with
  | [] => if Str.is_empty line then [] else [line]
  | w :: rest =>
      if String.length line + String.length w + 1 <=? width
      then wrap_words rest (Str.strip (line ++ " " ++ w)) width
      else line :: wrap_words rest w width
  end.

(** [ExportService._wrap]; [text.split()] is [HeadingSpec.words]. *)
Definition _wrap (text : string) (width : nat) : list string :=
  wrap_words (HeadingSpec.words text) EmptyString width.

(* ================================================================== *)
(** ** What a parse keeps *)

Module Kept.
Import Spec DocxSpec.

(** The stripped lines of a text that are neither blank nor headings. *)
Definition body_lines (lines : list string) : list string :=
  flat_map (fun line => match classify line with
                        | Body stripped => [stripped]
                        | _ => []
                        end) lines.

(** What one element of the body of a document leaves in the model,
    before any caption is set: nothing for a heading paragraph, the
    images of a paragraph that has images, the text of any other paragraph
    that has text, and every table. *)
Definition block_elements (image_map : list (string * string)) (b : block)
  : list element :=
  match b with
  | CT_P para =>
      match paragraph_heading para with
      | Some _ => []
      | None =>
          match _extract_images_from_paragraph para image_map with
          | [] =>
              let txt := Str.strip (para_text para) in
              if Str.is_empty txt then [] else [Text txt]
          | imgs => imgs
          end
      end
  | CT_Tbl rows => [Table (List.map (List.map Str.strip) rows)]
  | CT_SectPr => []
  end.

End Kept.

(* ================================================================== *)
(** ** The section of what comes before the first heading *)

Module Leading.
Import Spec.

(** The first line of the text that is not blank is a body line. *)
Fixpoint leading_body (lines : list string) : bool :=
  match lines with
  | [] => false
  | line :: rest =>
      match classify line with
      | Blank => leading_body rest
      | Heading _ => false
      | Body _ => true
      end
  end.

End Leading.

(* ================================================================== *)
(** ** The rules of the classifier, as a table *)

Module PredictorTable.

(** The words of the rule for custom sections that are not made
    redundant by another one. *)
Definition CUSTOM_STEMS : list string :=
  ["acknowledg"; "declaration"; "certificate"; "plagiarism"; "bona fide"].

Definition has_custom_stem (text : string) : bool :=
  existsb (fun word => Str.contains word (Str.lower text)) CUSTOM_STEMS.

(** The label of a text: length, references, custom words, model. *)
Definition label_of (CLASSIFIER : string -> string) (text : string) : string :=
  let stripped := Str.strip text in
  if String.length stripped <? 20 then "CUSTOM"
  else if PredictorSpec.starts_with_reference stripped
          || PredictorSpec.has_link_marker text then "REFERENCES"
  else if has_custom_stem text then "CUSTOM"
  else CLASSIFIER stripped.

End PredictorTable.

(* ================================================================== *)
(** ** [DocMasterApp.import_pdf]: attaching tables and images

    The last step of [import_pdf]: after [parse_text(raw_text)], the
    tables and the images collected from the pages, each with the name of
    a section, are appended to the sections of the handler.  Every image
    collected is a dictionary, so the branch for other values is left
    out. *)

Module PdfImport.

Definition nonempty_list {A} (l : list A) : bool :=
  match l with [] => false | _ => true end.

(** What the step can raise: [detected_order[-1]] on an empty list, or an
    error of the handler. *)
Inductive attach_error : Type :=
| IndexError
| HandlerError (e : error).

(** [sec_name if sec_name in self.doc_handler.sections
     else self.doc_handler.detected_order[-1]], or [None] when the index
    is out of range. *)
Definition target_of (sec_name : string) (h : DocumentHandler)
  : option string :=
  if Dict.mem sec_name (sections h) then Some sec_name
  else last (List.map Some (detected_order h)) None.

(** One round of a loop: [self.doc_handler.sections[target].append(el)]. *)
Definition attach (item : string * element) (h : DocumentHandler)
  : (attach_error + unit) * DocumentHandler :=
  match target_of (fst item) h with
  | None => (inl IndexError, h)
  | Some target =>
      match sections_append target (snd item) h with
      | (inr _, h') => (inr tt, h')
      | (inl e, h') => (inl (HandlerError e), h')
      end
  end.

Fixpoint attach_each (items : list (string * element)) (h : DocumentHandler)
  : (attach_error + unit) * DocumentHandler :=
  match items with
  | [] => (inr tt, h)
  | item :: rest =>
      match attach item h with
      | (inr _, h') => attach_each rest h'
      | (inl e, h') => (inl e, h')
      end
  end.

(** [{"type": "table", "data": tbl}] for each table collected. *)
Definition table_items (tables : list (string * list (list string)))
  : list (string * element) :=
  List.map (fun st => (fst st, Table (snd st))) tables.

(** [if tables_with_section or images_with_section:] and the two loops. *)
Definition attach_all (tables : list (string * list (list string)))
           (images : list (string * element)) (h : DocumentHandler)
  : (attach_error + unit) * DocumentHandler :=
  if nonempty_list tables || nonempty_list images then
    match attach_each (table_items tables) h with
    | (inr _, h') => attach_each images h'
    | (inl e, h') => (inl e, h')
    end
  else (inr tt, h).

(** Where an element collected for the section [sec_name] lands in the
    model [m]: in that section when the model has it, otherwise in the
    last section of the model. *)
Definition landing (m : sections_t) (sec_name : string) : string :=
  if Dict.mem sec_name m then sec_name else last (Dict.keys m) EmptyString.

(** Where an element lands, by the order of the handler. *)
Definition landing_in (o : list string) (sec_name : string) : string :=
  if existsb (String.eqb sec_name) o then sec_name else last o EmptyString.

End PdfImport.

(* ================================================================== *)
(** ** [ExportService.export_to_docx]

    The export as the list of the calls that add content to the
    document, in order, as they stand when the document is saved.  Fonts,
    sizes, spacing and margins are not recorded. *)

Module DocxExport.

Inductive alignment_t : Type := LEFT | CENTER | JUSTIFY.

Inductive docx_call : Type :=
| add_heading (text : string)                        (* level 1 *)
| add_paragraph (text : string) (runs : list string) (* text, then [add_run] *)
                (alignment : option alignment_t)
| add_table (cols : nat) (rows : list (list string))
| add_picture (path : string)
| add_page_break.

(** What the export reads of the service: the alignment of its style,
    whether its style asks for a title page, the author and the
    institution. *)
Record ExportService : Type := mkService {
  alignment : string;          (* [self.style.get("alignment", "left")] *)
  title_page : bool;           (* [self.style.get("title_page", True)] *)
  author : string;
  institution : string
}.

Section Calls.

(** [datetime.now().strftime("%B %d, %Y")] *)
Variable today : string.

(** [os.path.exists] *)
Variable path_exists : string -> bool.

(** Whether [doc.add_picture(path, ...)] returns; it raises otherwise. *)
Variable renders : string -> bool.

Variable self : ExportService.

(** [ExportService._add_title_page] *)
Definition _add_title_page (title : string) : list docx_call :=
  [add_paragraph EmptyString [title] (Some CENTER);
   add_paragraph EmptyString
                 [("Author: " ++ author self ++ newline)%string;
                  ("Institution: " ++ institution self ++ newline)%string;
                  today]
                 (Some CENTER);
   add_page_break].

(** [ExportService._add_paragraph] *)
Definition _add_paragraph (text : string) : list docx_call :=
  [add_paragraph text []
                 (Some (if String.eqb (Str.lower (alignment self)) "justify"
                        then JUSTIFY else LEFT))].

(** [ExportService._add_table] *)
Definition _add_table (rows : list (list string)) : list docx_call :=
  match rows with
  | [] => []
  | _ => [add_table (list_max (List.map (@List.length string) rows)) rows]
  end.

(** [if caption: self._add_paragraph(doc, caption)] *)
Definition add_caption (caption : option string) : list docx_call :=
  match if_truthy caption with
  | Some c => _add_paragraph c
  | None => []
  end.

(** [ExportService._add_image] *)
Definition _add_image (path caption : option string) (virtual : bool)
  : list docx_call :=
  if virtual then
    add_paragraph "[GRAPH/CHART PLACEHOLDER]" [] (Some LEFT)
    :: add_caption caption
  else
    match if_truthy path with
    | Some p =>
        if path_exists p then
          if renders p then [add_picture p]
          else [add_paragraph ("[Image could not be rendered: " ++ p ++ "]")
                              [] None]
        else [add_paragraph "[Missing Image Data]" [] None]
    | None => [add_paragraph "[Missing Image Data]" [] None]
    end
    ++ add_caption caption.

(** The body of [for el in elems]. *)
Definition element_calls (el : element) : list docx_call :=
  match el with
  | Text content => _add_paragraph content
  | Table data => _add_table data
  | Image path caption _ virtual => _add_image path caption virtual
  end.

(** The body of [for sec_name, elems in sections.items()]. *)
Definition section_calls (kv : string * list element) : list docx_call :=
  match snd kv with
  | [] => []
  | elems => add_heading (fst kv) :: flat_map element_calls elems
  end.

(** [ExportService.export_to_docx]: the content of the document saved. *)
Definition export_to_docx (sections : sections_t) (title : string)
  : list docx_call :=
  (if title_page self then _add_title_page title else [])
  ++ flat_map section_calls sections.

End Calls.

(** The headings of a document, in order. *)
Definition headings_of (calls : list docx_call) : list string :=
  flat_map (fun c => match c with
                     | add_heading text => [text]
                     | _ => []
                     end) calls.

End DocxExport.

(* ================================================================== *)
(** ** Images: where they come from *)

Module ImageSpec.

(** The map entry [k -> v] is written for a relationship of [rs]. *)
Definition written (writable : string -> bool) (dir : string)
           (rs : list rel) (k v : string) : Prop :=
  exists r part,
    In r rs /\ rId r = k
    /\ Str.contains "image" (reltype r) = true
    /\ target_part r = Some part
    /\ v = path_join dir (basename (partname part))
    /\ writable v = true.

(** The text of a paragraph of the body, stripped. *)
Definition paragraph_text (body : list block) (t : string) : Prop :=
  exists q, In (CT_P q) body /\ t = Str.strip (para_text q).

End ImageSpec.

(* ================================================================== *)
(** ** A document with images in different places *)

Module Mixed.

(** A heading paragraph that holds an image, a paragraph with text and an
    image, a table and a plain paragraph. *)
Definition embed (r : string) : list (list node) :=
  [[mkNode [("r:embed", r)]]].

Definition doc : document :=
  mkDoc []
        [CT_P (mkPara "Results" (embed "rId1"));
         CT_P (mkPara "Seen on the left" (embed "rId2"));
         CT_Tbl [[" a "; "b"]];
         CT_P (mkPara " Plain text. " [])].

End Mixed.

(* ================================================================== *)
(** ** Texts with white space above U+007F *)

Module Latin1.

Definition nbsp : string := String Char.NBSP EmptyString.
Definition nel : string := String Char.NEL EmptyString.

(** ["Literature\xa0Review"] *)
Definition heading : string := "Literature" ++ nbsp ++ "Review".

(** ["Abstract\xa0\nBody line\x85next"] *)
Definition two_lines : string :=
  "Abstract" ++ nbsp ++ Scenario.nl ++ "Body line" ++ nel ++ "next".

(** ["[7] Smith et al."] followed by ten no-break spaces. *)
Definition reference : string :=
  "[7] Smith et al." ++ nbsp ++ nbsp ++ nbsp ++ nbsp ++ nbsp
                     ++ nbsp ++ nbsp ++ nbsp ++ nbsp ++ nbsp.

(** ["Fig\xa01: x"] *)
Definition caption : string := "Fig" ++ nbsp ++ "1: x".

End Latin1.

(* ================================================================== *)
(** * Properties *)

(* ================================================================== *)
(** ** A text with two sections, a caption, an unreadable document *)

(** C1: parsing
    ["Abstract\nThis paper studies X.\n\nIntroduction\nWe begin with Y.\n\n"]
    returns a model whose order is [Abstract, Introduction], where Abstract
    holds the single Text element "This paper studies X." and Introduction
    holds the single Text element "We begin with Y.", whatever the handler
    held before. *)
Theorem parse_text_two_sections :
  forall h : DocumentHandler,
    parse_text Scenario.two_sections h =
    (inr [("Abstract", [Text "This paper studies X."]);
          ("Introduction", [Text "We begin with Y."])],
     mkHandler [("Abstract", [Text "This paper studies X."]);
                ("Introduction", [Text "We begin with Y."])]
               ["Abstract"; "Introduction"]
               (_last_text h)).
Proof.
  intros h. reflexivity.
Qed.

(** C3: with previous line "Figure 1: Sample output" and no current line,
    caption detection returns the previous line; with an unrelated previous
    line and current line "Fig. 2 - Growth chart" it returns nothing,
    because the pattern wants digits right after "Fig" and optional
    spaces, and finds a full stop. *)
Theorem detect_caption_examples :
  _detect_caption (Some "Figure 1: Sample output") None
    = Some "Figure 1: Sample output"
  /\ _detect_caption (Some "Results are shown below.")
                     (Some "Fig. 2 - Growth chart") = None.
Proof.
  split; reflexivity.
Qed.

(** C7: when [Document(path)] raises, [parse_docx] raises the read error
    and leaves the handler as it was: sections, order and last text are
    untouched and no model is returned. *)
Theorem parse_docx_unreadable :
  forall (Document : string -> option document) (tempdir : string)
         (writable : string -> bool) (path : string) (h : DocumentHandler),
    Document path = None ->
    parse_docx Document tempdir writable path h = (inl DocumentReadError, h).
Proof.
  intros Document tempdir writable path h Hread.
  unfold parse_docx. rewrite Hread. reflexivity.
Qed.

Lemma parse_docx_unreadable_witness :
  parse_docx (fun _ => None) "/tmp" (fun _ => true) "corrupt.docx"
             Scenario.used_handler
  = (inl DocumentReadError, Scenario.used_handler).
Proof.
  apply (parse_docx_unreadable (fun _ => None) "/tmp" (fun _ => true)
                               "corrupt.docx" Scenario.used_handler).
  reflexivity.
Defined.

(* ================================================================== *)
(** ** Facts about dictionaries *)

Module DictFacts.
Import Dict.

Lemma mem_true_iff (k : string) (d : sections_t) :
  mem k d = true <-> In k (keys d).
Proof.
  unfold mem. induction d as [|[k' v] d IH]; simpl.
  - split; [discriminate | tauto].
  - destruct (String.eqb_spec k k') as [->|Hne].
    + split; auto.
    + rewrite IH. split; [auto | intros [E|H]; [congruence | exact H]].
Qed.

Lemma mem_false_iff (k : string) (d : sections_t) :
  mem k d = false <-> ~ In k (keys d).
Proof.
  rewrite <- mem_true_iff. destruct (mem k d); split; congruence.
Qed.

Lemma keys_set_present (k : string) (v : list element) (d : sections_t) :
  mem k d = true -> keys (set k v d) = keys d.
Proof.
  unfold mem. induction d as [|[k' v'] d IH]; simpl; [discriminate|].
  destruct (String.eqb_spec k k'); simpl; intros H; [reflexivity|].
  f_equal. apply IH, H.
Qed.

Lemma keys_set_absent (k : string) (v : list element) (d : sections_t) :
  mem k d = false -> keys (set k v d) = keys d ++ [k].
Proof.
  unfold mem. induction d as [|[k' v'] d IH]; simpl; [reflexivity|].
  destruct (String.eqb_spec k k'); simpl; intros H; [discriminate|].
  f_equal. apply IH, H.
Qed.

Lemma get_set_same (k : string) (v : list element) (d : sections_t) :
  get k (set k v d) = Some v.
Proof.
  induction d as [|[k' v'] d IH]; simpl.
  - rewrite String.eqb_refl. reflexivity.
  - destruct (String.eqb_spec k k') as [->|Hne]; simpl.
    + rewrite String.eqb_refl. reflexivity.
    + destruct (String.eqb_spec k k'); [contradiction | exact IH].
Qed.

Lemma get_set_other (k k0 : string) (v : list element) (d : sections_t) :
  k0 <> k -> get k0 (set k v d) = get k0 d.
Proof.
  intros Hne. induction d as [|[k' v'] d IH]; simpl.
  - destruct (String.eqb_spec k0 k); [contradiction | reflexivity].
  - destruct (String.eqb_spec k k') as [->|Hk]; simpl.
    + destruct (String.eqb_spec k0 k'); [contradiction | reflexivity].
    + destruct (String.eqb_spec k0 k'); [reflexivity | exact IH].
Qed.

Lemma get_some_mem (k : string) (d : sections_t) (v : list element) :
  get k d = Some v -> mem k d = true.
Proof. unfold mem. intros ->. reflexivity. Qed.

Lemma get_in (k : string) (d : sections_t) (v : list element) :
  get k d = Some v -> In (k, v) d.
Proof.
  induction d as [|[k' v'] d IH]; simpl; [discriminate|].
  destruct (String.eqb_spec k k') as [->|Hne].
  - intros [= ->]. left. reflexivity.
  - intros H. right. apply IH, H.
Qed.

Lemma in_get (k : string) (d : sections_t) (v : list element) :
  NoDup (keys d) -> In (k, v) d -> get k d = Some v.
Proof.
  induction d as [|[k' v'] d IH]; simpl; [tauto|].
  intros Hnd [E|Hin].
  - injection E as -> ->. rewrite String.eqb_refl. reflexivity.
  - inversion Hnd as [|? ? Hnotin Hnd']; subst.
    destruct (String.eqb_spec k k') as [->|Hne].
    + exfalso. apply Hnotin. apply (in_map fst) in Hin. exact Hin.
    + apply IH; assumption.
Qed.

End DictFacts.

(* ================================================================== *)
(** ** The operations on the handler *)

Module HandlerFacts.
Import Dict DictFacts Spec.

Lemma bind_ok {A B} {m : M A} (f : A -> M B) {h a h'} :
  m h = (inr a, h') -> bind m f h = f a h'.
Proof. unfold bind. intros ->. reflexivity. Qed.

Lemma placed_in_app n (l1 l2 : log) :
  placed_in n (l1 ++ l2) = placed_in n l1 ++ placed_in n l2.
Proof. unfold placed_in. rewrite filter_app, map_app. reflexivity. Qed.

Lemma effect_refl h : wf h -> effect h h (detected_order h) [].
Proof.
  intros H. repeat split; try apply H.
  intros n. simpl. rewrite app_nil_r. reflexivity.
Qed.

Lemma effect_trans {h h1 h2 o1 o2 l1 l2} :
  effect h h1 o1 l1 -> effect h1 h2 o2 l2 -> effect h h2 o2 (l1 ++ l2).
Proof.
  intros (_ & _ & C1) (W2 & O2 & C2). repeat split; try apply W2; auto.
  intros n. rewrite C2, C1, placed_in_app, app_assoc. reflexivity.
Qed.

Lemma effect_in {h h' o l x} :
  effect h h' o l -> In x o -> In x (detected_order h').
Proof. intros (_ & -> & _) H. exact H. Qed.

Lemma sections_append_spec cur e {h} :
  wf h -> In cur (detected_order h) ->
  exists h',
    sections_append cur e h = (inr tt, h')
    /\ _last_text h' = _last_text h
    /\ effect h h' (detected_order h) [(cur, e)].
Proof.
  intros [Hk Hnd] Hin.
  assert (Hmem : mem cur (sections h) = true).
  { apply mem_true_iff. rewrite Hk. exact Hin. }
  unfold sections_append, bind, get_sections, set_sections.
  unfold mem in Hmem.
  destruct (get cur (sections h)) as [v|] eqn:Hget; [|discriminate].
  eexists. split; [reflexivity|]. split; [reflexivity|].
  unfold effect, wf; simpl. repeat split; auto.
  - rewrite keys_set_present; [exact Hk|]. unfold mem. rewrite Hget. reflexivity.
  - intros n. unfold content, placed_in. simpl.
    destruct (String.eqb_spec n cur) as [->|Hne]; simpl.
    + rewrite get_set_same, Hget. reflexivity.
    + rewrite get_set_other by exact Hne. rewrite app_nil_r. reflexivity.
Qed.

Lemma existsb_eqb_in (n : string) (o : list string) :
  existsb (String.eqb n) o = true <-> In n o.
Proof.
  rewrite existsb_exists. split.
  - intros (x & Hx & E). apply String.eqb_eq in E. subst. exact Hx.
  - intros H. exists n. split; [exact H | apply String.eqb_refl].
Qed.

Lemma add_name_in o n : In n (add_name o n).
Proof.
  unfold add_name. destruct (existsb (String.eqb n) o) eqn:E.
  - apply existsb_eqb_in, E.
  - apply in_or_app. right. left. reflexivity.
Qed.

Lemma add_name_incl o n x : In x o -> In x (add_name o n).
Proof.
  unfold add_name. destruct (existsb (String.eqb n) o); auto.
  intros H. apply in_or_app. left. exact H.
Qed.

Lemma open_section_spec name {h} :
  wf h ->
  exists h',
    open_section name h = (inr tt, h')
    /\ _last_text h' = _last_text h
    /\ effect h h' (add_name (detected_order h) name) [].
Proof.
  intros [Hk Hnd].
  unfold open_section, bind, get_sections, set_sections, get_order,
    set_order, ret, add_name.
  destruct (mem name (sections h)) eqn:Hmem.
  - assert (E : existsb (String.eqb name) (detected_order h) = true).
    { apply existsb_eqb_in. rewrite <- Hk. apply mem_true_iff, Hmem. }
    rewrite E. eexists. split; [reflexivity|]. split; [reflexivity|].
    apply effect_refl. split; assumption.
  - assert (E : existsb (String.eqb name) (detected_order h) = false).
    { destruct (existsb (String.eqb name) (detected_order h)) eqn:E';
        [|reflexivity].
      apply existsb_eqb_in in E'. rewrite <- Hk in E'.
      apply mem_true_iff in E'. congruence. }
    rewrite E. simpl. eexists. split; [reflexivity|]. split; [reflexivity|].
    unfold effect, wf; simpl. repeat split.
    + rewrite keys_set_absent by exact Hmem. rewrite Hk. reflexivity.
    + apply NoDup_app; [exact Hnd | repeat constructor; simpl; tauto |].
      intros x Hx [<-|[]].
      rewrite <- Hk in Hx. apply mem_true_iff in Hx. congruence.
    + intros n. unfold content. rewrite app_nil_r.
      destruct (String.eqb_spec n name) as [->|Hne].
      * rewrite get_set_same. unfold mem in Hmem.
        destruct (get name (sections h)); [discriminate | reflexivity].
      * rewrite get_set_other by exact Hne. reflexivity.
Qed.

End HandlerFacts.

(* ================================================================== *)
(** ** Facts about the string methods *)

Module StrFacts.
Import Str.

Lemma is_empty_true s : is_empty s = true <-> s = EmptyString.
Proof. destruct s; simpl; split; congruence. Qed.

Lemma is_empty_false s : is_empty s = false <-> s <> EmptyString.
Proof. destruct s; simpl; split; congruence. Qed.

Lemma append_nil_r s : (s ++ EmptyString)%string = s.
Proof. induction s; simpl; congruence. Qed.

Lemma append_assoc s1 s2 s3 :
  ((s1 ++ s2) ++ s3 = s1 ++ (s2 ++ s3))%string.
Proof. induction s1; simpl; congruence. Qed.

Lemma length_append s1 s2 :
  String.length (s1 ++ s2)%string = String.length s1 + String.length s2.
Proof. induction s1; simpl; congruence. Qed.

Lemma all_append p s1 s2 : all p (s1 ++ s2)%string = all p s1 && all p s2.
Proof.
  induction s1; simpl; [reflexivity|].
  rewrite IHs1, andb_assoc. reflexivity.
Qed.

Lemma rstrip_last_ok s : is_empty (rstrip s) = false -> last_ok (rstrip s) = true.
Proof.
  induction s as [|c s IH]; simpl; [discriminate|].
  destruct (is_empty (rstrip s)) eqn:E; simpl.
  - destruct (Char.isspace c) eqn:Hc; simpl; [discriminate|].
    apply is_empty_true in E. rewrite E. rewrite Hc. reflexivity.
  - intros _. specialize (IH eq_refl).
    destruct (rstrip s); [discriminate | exact IH].
Qed.

Lemma rstrip_fixed s : last_ok s = true -> rstrip s = s.
Proof.
  induction s as [|c s IH]; simpl; [reflexivity|].
  destruct s as [|c' s].
  - simpl. intros H. apply negb_true_iff in H. rewrite H. reflexivity.
  - intros H. rewrite (IH H). reflexivity.
Qed.

Lemma lstrip_fixed s : first_ok s = true -> lstrip s = s.
Proof.
  destruct s as [|c s]; simpl; [reflexivity|].
  intros H. apply negb_true_iff in H. rewrite H. reflexivity.
Qed.

Lemma lstrip_first_ok s : is_empty (lstrip s) = false -> first_ok (lstrip s) = true.
Proof.
  induction s as [|c s IH]; simpl; [discriminate|].
  destruct (Char.isspace c) eqn:Hc; [exact IH|].
  simpl. rewrite Hc. reflexivity.
Qed.

Lemma rstrip_first_ok s :
  first_ok s = true -> is_empty (rstrip s) = false -> first_ok (rstrip s) = true.
Proof.
  destruct s as [|c s]; simpl; [discriminate|].
  intros Hc. rewrite negb_true_iff in Hc. rewrite Hc, andb_false_r. simpl.
  rewrite Hc. reflexivity.
Qed.

Lemma rstrip_nonempty s : first_ok s = true -> is_empty (rstrip s) = false.
Proof.
  destruct s as [|c s]; simpl; [discriminate|].
  intros Hc. rewrite negb_true_iff in Hc. rewrite Hc, andb_false_r.
  reflexivity.
Qed.

(** A stripped text is empty or tight. *)
Lemma strip_tight s : is_empty (strip s) = false -> tight (strip s) = true.
Proof.
  unfold strip, tight. intros H.
  assert (Hl : is_empty (lstrip s) = false).
  { destruct (lstrip s); [discriminate H | reflexivity]. }
  rewrite rstrip_first_ok, rstrip_last_ok; auto using lstrip_first_ok.
Qed.

Lemma strip_fixed s : tight s = true -> strip s = s.
Proof.
  unfold tight, strip. intros H. apply andb_true_iff in H as [H1 H2].
  rewrite lstrip_fixed by exact H1. apply rstrip_fixed, H2.
Qed.

Lemma tight_nonempty s : tight s = true -> is_empty s = false.
Proof. destruct s; [discriminate | reflexivity]. Qed.

Lemma first_ok_append s1 s2 :
  first_ok s1 = true -> first_ok (s1 ++ s2)%string = true.
Proof. destruct s1; simpl; [discriminate | auto]. Qed.

Lemma last_ok_append s1 s2 :
  last_ok s2 = true -> last_ok (s1 ++ s2)%string = true.
Proof.
  intros H. induction s1 as [|c s1 IH]; simpl; [exact H|].
  destruct (s1 ++ s2)%string eqn:E; [|exact IH].
  simpl in IH. discriminate.
Qed.

Lemma tight_append s1 s2 s3 :
  tight s1 = true -> tight s3 = true -> tight (s1 ++ s2 ++ s3)%string = true.
Proof.
  unfold tight. intros H1 H3.
  apply andb_true_iff in H1 as [F1 _]. apply andb_true_iff in H3 as [_ L3].
  rewrite first_ok_append by exact F1.
  rewrite last_ok_append; [reflexivity|].
  apply last_ok_append, L3.
Qed.

Lemma join_tight sep parts :
  parts <> [] -> Forall (fun s => tight s = true) parts ->
  tight (join sep parts) = true.
Proof.
  unfold join. induction parts as [|x parts IH]; [congruence|].
  intros _ Hall. inversion Hall as [|? ? Hx Hrest]; subst.
  destruct parts as [|y parts]; simpl; [exact Hx|].
  apply tight_append; [exact Hx|]. apply IH; [discriminate | exact Hrest].
Qed.

End StrFacts.

(* ================================================================== *)
(** ** The loop of [parse_text] *)

Module TextFacts.
Import Spec HandlerFacts StrFacts.

Lemma flush_spec cur {buf h} :
  wf h -> In cur (detected_order h) ->
  Forall (fun s => tight s = true) buf ->
  exists h',
    flush cur buf h = (inr [], h')
    /\ _last_text h' = _last_text h
    /\ effect h h' (detected_order h) (run_log (close cur buf)).
Proof.
  intros Hwf Hin Hbuf. destruct buf as [|b buf].
  - exists h. simpl. repeat split; try apply Hwf.
    intros n. rewrite app_nil_r. reflexivity.
  - assert (Ht : tight (Str.join " " (b :: buf)) = true).
    { apply join_tight; [discriminate | exact Hbuf]. }
    unfold flush. rewrite (strip_fixed _ Ht), (tight_nonempty _ Ht).
    destruct (sections_append_spec cur (Text (Str.join " " (b :: buf))) Hwf Hin)
      as (h' & Hrun & Hlast & Heff).
    exists h'. rewrite (bind_ok _ Hrun). repeat split; auto; apply Heff.
Qed.

Lemma parse_lines_spec lines :
  forall cur buf h,
    wf h -> In cur (detected_order h) ->
    Forall (fun s => tight s = true) buf ->
    exists h',
      parse_lines lines cur buf h = (inr tt, h')
      /\ _last_text h' = _last_text h
      /\ effect h h' (fold_left add_name (text_headings lines) (detected_order h))
                (text_log cur buf lines).
Proof.
  induction lines as [|line rest IH]; intros cur buf h Hwf Hin Hbuf.
  - destruct (flush_spec cur Hwf Hin Hbuf) as (h' & Hrun & Hlast & Heff).
    exists h'. simpl. rewrite (bind_ok _ Hrun). auto.
  - unfold text_log, run_log, text_headings. simpl. unfold classify.
    destruct (Str.is_empty (Str.strip line)) eqn:Hblank.
    + destruct (flush_spec cur Hwf Hin Hbuf) as (h1 & Hrun & Hlast & Heff).
      rewrite (bind_ok _ Hrun).
      assert (Hwf1 : wf h1) by apply Heff.
      assert (Hin1 : In cur (detected_order h1)) by exact (effect_in Heff Hin).
      destruct (IH cur [] h1 Hwf1 Hin1 (Forall_nil _)) as (h' & Hrun' & Hlast' & Heff').
      exists h'. split; [exact Hrun'|]. split; [congruence|].
      rewrite map_app. simpl.
      replace (detected_order h) with (detected_order h1) by apply Heff.
      exact (effect_trans Heff Heff').
    + destruct (if_truthy (_detect_heading (Str.strip line))) as [name|] eqn:Hhead.
      * destruct (flush_spec cur Hwf Hin Hbuf) as (h1 & Hrun & Hlast & Heff).
        rewrite (bind_ok _ Hrun).
        assert (Hwf1 : wf h1) by apply Heff.
        destruct (open_section_spec name Hwf1) as (h2 & Hrun2 & Hlast2 & Heff2).
        rewrite (bind_ok _ Hrun2).
        assert (Hwf2 : wf h2) by apply Heff2.
        assert (Hin2 : In name (detected_order h2)).
        { apply (effect_in Heff2). apply add_name_in. }
        destruct (IH name [] h2 Hwf2 Hin2 (Forall_nil _)) as (h' & Hrun' & Hlast' & Heff').
        exists h'. split; [exact Hrun'|]. split; [congruence|].
        rewrite map_app. simpl.
        assert (E2 : detected_order h2 = add_name (detected_order h) name).
        { destruct Heff2 as (_ & -> & _). destruct Heff as (_ & -> & _).
          reflexivity. }
        rewrite <- E2.
        pose proof (effect_trans (effect_trans Heff Heff2) Heff') as Hall.
        rewrite app_nil_r in Hall. exact Hall.
      * apply IH; auto.
        apply Forall_app. split; [exact Hbuf|].
        constructor; [|constructor]. apply strip_tight, Hblank.
Qed.

End TextFacts.

(* ================================================================== *)
(** ** Pruning, and the closed form of [parse_text] *)

Module ModelFacts.
Import Dict DictFacts Spec HandlerFacts TextFacts.

Lemma sections_closed (d : sections_t) :
  NoDup (keys d) -> d = List.map (fun n => (n, content n d)) (keys d).
Proof.
  intros Hnd. unfold keys. rewrite map_map.
  rewrite <- (map_id d) at 1. apply map_ext_in.
  intros [k v] Hin. simpl. unfold content.
  rewrite (in_get _ _ _ Hnd Hin). reflexivity.
Qed.

Lemma keys_filter_incl (P : string * list element -> bool) d k :
  In k (keys (filter P d)) -> In k (keys d).
Proof.
  unfold keys. rewrite !in_map_iff. intros ((k', v) & E & Hin).
  apply filter_In in Hin as [Hin _]. exists (k', v). auto.
Qed.

Lemma prune_order (P : string * list element -> bool) (d : sections_t) :
  NoDup (keys d) ->
  filter (fun s => mem s (filter P d)) (keys d) = keys (filter P d).
Proof.
  induction d as [|[k v] d IH]; simpl; [reflexivity|].
  intros Hnd. inversion Hnd as [|? ? Hnotin Hnd']; subst.
  destruct (P (k, v)) eqn:HP.
  - unfold mem at 1. simpl. rewrite String.eqb_refl. simpl. f_equal.
    rewrite <- (IH Hnd'). apply filter_ext_in. intros s Hs.
    unfold mem. simpl. destruct (String.eqb_spec s k) as [->|Hne];
      [contradiction | reflexivity].
  - destruct (mem k (filter P d)) eqn:Hm.
    + apply mem_true_iff, keys_filter_incl in Hm. contradiction.
    + apply IH, Hnd'.
Qed.

Lemma cleanup_spec h :
  wf h ->
  _cleanup h =
  (inr tt,
   mkHandler (filter (fun kv => nonempty (snd kv)) (sections h))
             (keys (filter (fun kv => nonempty (snd kv)) (sections h)))
             (_last_text h)).
Proof.
  intros [Hk Hnd]. unfold _cleanup, bind, get_sections, set_sections,
    get_order, set_order. simpl.
  rewrite <- Hk, prune_order; [reflexivity|]. rewrite Hk. exact Hnd.
Qed.

Lemma keys_model_of order l :
  keys (model_of order l)
  = filter (fun n => nonempty (placed_in n l)) order.
Proof.
  unfold model_of, keys. induction order as [|n order IH]; simpl;
    [reflexivity|].
  destruct (nonempty (placed_in n l)); simpl; rewrite IH; reflexivity.
Qed.

(** After the loop, pruning gives the model of what was opened and
    placed. *)
Lemma prune_effect h0 h1 o l :
  (forall n, content n (sections h0) = []) ->
  effect h0 h1 o l ->
  filter (fun kv => nonempty (snd kv)) (sections h1) = model_of o l.
Proof.
  intros Hempty ([Hk Hnd] & Ho & Hc). unfold model_of. f_equal.
  rewrite (sections_closed (sections h1)) by (rewrite Hk; exact Hnd).
  rewrite Hk, Ho. apply map_ext. intros n.
  rewrite Hc, Hempty. reflexivity.
Qed.

Theorem parse_text_closed (text : string) (h : DocumentHandler) :
  let m := model_of (text_order (Str.splitlines text))
                    (text_log "Uncategorized" [] (Str.splitlines text)) in
  parse_text text h = (inr m, mkHandler m (keys m) (_last_text h)).
Proof.
  intros m.
  set (h0 := mkHandler [("Uncategorized", [])] ["Uncategorized"] (_last_text h)).
  assert (Hwf0 : wf h0).
  { split; [reflexivity|]. repeat constructor. simpl. tauto. }
  assert (Hin0 : In "Uncategorized" (detected_order h0)) by (left; reflexivity).
  destruct (parse_lines_spec (Str.splitlines text) "Uncategorized" [] h0
              Hwf0 Hin0 (Forall_nil _)) as (h1 & Hrun & Hlast & Heff).
  assert (Hm : filter (fun kv => nonempty (snd kv)) (sections h1) = m).
  { apply (prune_effect h0); [|exact Heff].
    intros n. unfold content. simpl.
    destruct (String.eqb n "Uncategorized"); reflexivity. }
  unfold parse_text, bind at 1 2 3 4 5 6. simpl.
  fold h0. rewrite (bind_ok _ Hrun).
  assert (Hwf1 : wf h1) by apply Heff.
  rewrite (bind_ok _ (cleanup_spec h1 Hwf1)).
  unfold get_sections. simpl. rewrite Hm, Hlast. reflexivity.
Qed.

End ModelFacts.

(* ================================================================== *)
(** ** The loop of [parse_docx] *)

Module DocxFacts.
Import Dict DictFacts Spec HandlerFacts ModelFacts DocxSpec.

Lemma set_last_text_spec t {h} :
  wf h ->
  exists h',
    set_last_text t h = (inr tt, h')
    /\ _last_text h' = t
    /\ effect h h' (detected_order h) [].
Proof.
  intros Hwf. eexists. split; [reflexivity|]. split; [reflexivity|].
  unfold effect, wf. simpl. repeat split; try apply Hwf.
  intros n. rewrite app_nil_r. reflexivity.
Qed.

Lemma append_images_spec imgs cur txt :
  forall h,
    wf h -> In cur (detected_order h) ->
    exists h',
      append_images imgs cur txt h = (inr tt, h')
      /\ _last_text h' = _last_text h
      /\ effect h h' (detected_order h)
           (List.map (fun img =>
                        (cur, set_caption
                                (_detect_caption (_last_text h) (Some txt)) img))
                     imgs).
Proof.
  induction imgs as [|img imgs IH]; intros h Hwf Hin.
  - exists h. simpl. split; [reflexivity|]. split; [reflexivity|].
    apply effect_refl, Hwf.
  - simpl. unfold bind at 1, get_last_text at 1.
    destruct (sections_append_spec cur
                (set_caption (_detect_caption (_last_text h) (Some txt)) img)
                Hwf Hin) as (h1 & Hrun & Hlast & Heff).
    rewrite (bind_ok _ Hrun).
    assert (Hwf1 : wf h1) by apply Heff.
    assert (Hin1 : In cur (detected_order h1)) by exact (effect_in Heff Hin).
    destruct (IH h1 Hwf1 Hin1) as (h' & Hrun' & Hlast' & Heff').
    exists h'. split; [exact Hrun'|]. split; [congruence|].
    rewrite Hlast in Heff'.
    replace (detected_order h) with (detected_order h1) by apply Heff.
    exact (effect_trans Heff Heff').
Qed.

Lemma parse_blocks_spec image_map blocks :
  forall cur h,
    wf h -> In cur (detected_order h) ->
    exists h',
      parse_blocks image_map blocks cur h = (inr tt, h')
      /\ _last_text h' = docx_last blocks (_last_text h)
      /\ effect h h'
           (fold_left add_name (docx_headings blocks) (detected_order h))
           (docx_log image_map blocks cur (_last_text h)).
Proof.
  induction blocks as [|b rest IH]; intros cur h Hwf Hin.
  - exists h. simpl. split; [reflexivity|]. split; [reflexivity|].
    apply effect_refl, Hwf.
  - destruct b as [para|rows|].
    + unfold docx_headings. simpl. fold (paragraph_heading para).
      destruct (paragraph_heading para) as [name|] eqn:Hhead.
      * destruct (open_section_spec name Hwf) as (h1 & Hrun1 & Hlast1 & Heff1).
        rewrite (bind_ok _ Hrun1).
        assert (Hwf1 : wf h1) by apply Heff1.
        destruct (set_last_text_spec (Some (Str.strip (para_text para))) Hwf1)
          as (h2 & Hrun2 & Hlast2 & Heff2).
        rewrite (bind_ok _ Hrun2).
        assert (Hwf2 : wf h2) by apply Heff2.
        assert (E2 : detected_order h2 = add_name (detected_order h) name).
        { destruct Heff2 as (_ & -> & _). destruct Heff1 as (_ & -> & _).
          reflexivity. }
        assert (Hin2 : In name (detected_order h2)).
        { rewrite E2. apply add_name_in. }
        destruct (IH name h2 Hwf2 Hin2) as (h' & Hrun' & Hlast' & Heff').
        exists h'. split; [exact Hrun'|]. split; [congruence|].
        simpl. rewrite <- E2. rewrite Hlast2 in Heff'.
        exact (effect_trans (effect_trans Heff1 Heff2) Heff').
      * simpl.
        destruct (_extract_images_from_paragraph para image_map)
          as [|img imgs] eqn:Himgs.
        -- assert (Hstep : exists h1,
                       (if Str.is_empty (Str.strip (para_text para)) then ret tt
                        else sections_append cur
                               (Text (Str.strip (para_text para)))) h
                       = (inr tt, h1)
                       /\ effect h h1 (detected_order h)
                            (if Str.is_empty (Str.strip (para_text para))
                             then []
                             else [(cur, Text (Str.strip (para_text para)))])).
           { destruct (Str.is_empty (Str.strip (para_text para))).
             - exists h. split; [reflexivity | apply effect_refl, Hwf].
             - destruct (sections_append_spec cur
                           (Text (Str.strip (para_text para))) Hwf Hin)
                 as (h1 & Hrun1 & _ & Heff1).
               exists h1. auto. }
           destruct Hstep as (h1 & Hrun1 & Heff1).
           rewrite (bind_ok _ Hrun1).
           assert (Hwf1 : wf h1) by apply Heff1.
           destruct (set_last_text_spec (Some (Str.strip (para_text para))) Hwf1)
             as (h2 & Hrun2 & Hlast2 & Heff2).
           rewrite (bind_ok _ Hrun2).
           assert (Hwf2 : wf h2) by apply Heff2.
           assert (E2 : detected_order h2 = detected_order h).
           { destruct Heff2 as (_ & -> & _). destruct Heff1 as (_ & -> & _).
             reflexivity. }
           assert (Hin2 : In cur (detected_order h2)) by (rewrite E2; exact Hin).
           destruct (IH cur h2 Hwf2 Hin2) as (h' & Hrun' & Hlast' & Heff').
           exists h'. split; [exact Hrun'|]. split; [congruence|].
           rewrite <- E2. rewrite Hlast2 in Heff'.
           pose proof (effect_trans (effect_trans Heff1 Heff2) Heff') as Hall.
           rewrite app_nil_r in Hall. exact Hall.
        -- destruct (append_images_spec (img :: imgs) cur
                       (Str.strip (para_text para)) h Hwf Hin)
             as (h1 & Hrun1 & Hlast1 & Heff1).
           rewrite (bind_ok _ Hrun1).
           assert (Hwf1 : wf h1) by apply Heff1.
           destruct (set_last_text_spec (Some (Str.strip (para_text para))) Hwf1)
             as (h2 & Hrun2 & Hlast2 & Heff2).
           rewrite (bind_ok _ Hrun2).
           assert (Hwf2 : wf h2) by apply Heff2.
           assert (E2 : detected_order h2 = detected_order h).
           { destruct Heff2 as (_ & -> & _). destruct Heff1 as (_ & -> & _).
             reflexivity. }
           assert (Hin2 : In cur (detected_order h2)) by (rewrite E2; exact Hin).
           destruct (IH cur h2 Hwf2 Hin2) as (h' & Hrun' & Hlast' & Heff').
           exists h'. split; [exact Hrun'|]. split; [congruence|].
           rewrite <- E2. rewrite Hlast2 in Heff'.
           pose proof (effect_trans (effect_trans Heff1 Heff2) Heff') as Hall.
           rewrite app_nil_r in Hall. exact Hall.
    + simpl.
      destruct (sections_append_spec cur
                  (Table (List.map (List.map Str.strip) rows)) Hwf Hin)
        as (h1 & Hrun1 & Hlast1 & Heff1).
      rewrite (bind_ok _ Hrun1).
      assert (Hwf1 : wf h1) by apply Heff1.
      assert (Hin1 : In cur (detected_order h1)) by exact (effect_in Heff1 Hin).
      destruct (IH cur h1 Hwf1 Hin1) as (h' & Hrun' & Hlast' & Heff').
      exists h'. split; [exact Hrun'|]. split; [congruence|].
      rewrite Hlast1 in Heff'.
      replace (detected_order h) with (detected_order h1) by apply Heff1.
      exact (effect_trans Heff1 Heff').
    + simpl. apply IH; assumption.
Qed.

End DocxFacts.

(* ================================================================== *)
(** ** The closed form of [parse_docx], and pruned models *)

Module ClosedForms.
Import Dict DictFacts Spec HandlerFacts ModelFacts DocxSpec DocxFacts StrFacts.

Theorem parse_docx_closed Document tempdir writable path doc h :
  Document path = Some doc ->
  let image_map :=
    _extract_all_images writable doc (path_join tempdir "docmaster_images") in
  let m := model_of (docx_order (body doc))
                    (docx_log image_map (body doc) "Uncategorized" None) in
  parse_docx Document tempdir writable path h
  = (inr m, mkHandler m (keys m) (docx_last (body doc) None)).
Proof.
  intros Hdoc image_map m.
  set (h0 := mkHandler [("Uncategorized", [])] ["Uncategorized"] None).
  assert (Hwf0 : wf h0).
  { split; [reflexivity|]. repeat constructor. simpl. tauto. }
  assert (Hin0 : In "Uncategorized" (detected_order h0)) by (left; reflexivity).
  destruct (parse_blocks_spec image_map (body doc) "Uncategorized" h0 Hwf0 Hin0)
    as (h1 & Hrun & Hlast & Heff).
  assert (Hm : filter (fun kv => nonempty (snd kv)) (sections h1) = m).
  { apply (prune_effect h0); [|exact Heff].
    intros n. unfold content. simpl.
    destruct (String.eqb n "Uncategorized"); reflexivity. }
  unfold parse_docx. rewrite Hdoc. unfold bind at 1 2 3. simpl.
  fold h0. fold image_map. rewrite (bind_ok _ Hrun).
  assert (Hwf1 : wf h1) by apply Heff.
  rewrite (bind_ok _ (cleanup_spec h1 Hwf1)).
  unfold get_sections. simpl. rewrite Hm, Hlast. reflexivity.
Qed.

(** *** Properties of a pruned model *)

Lemma nonempty_placed n (l : log) :
  nonempty (placed_in n l) = true <-> In n (List.map fst l).
Proof.
  unfold placed_in. induction l as [|[s e] l IH]; simpl.
  - split; [discriminate | tauto].
  - destruct (String.eqb_spec n s) as [->|Hne]; simpl.
    + split; auto.
    + rewrite IH. split; [auto | intros [E|H]; [congruence | exact H]].
Qed.

Lemma add_name_nodup o n : NoDup o -> NoDup (add_name o n).
Proof.
  intros Hnd. unfold add_name.
  destruct (existsb (String.eqb n) o) eqn:E; [exact Hnd|].
  apply NoDup_app; [exact Hnd | repeat constructor; simpl; tauto |].
  intros x Hx [<-|[]]. apply existsb_eqb_in in Hx. congruence.
Qed.

Lemma fold_add_name_nodup names :
  forall o, NoDup o -> NoDup (fold_left add_name names o).
Proof.
  induction names as [|n names IH]; intros o Hnd; simpl; [exact Hnd|].
  apply IH, add_name_nodup, Hnd.
Qed.

Lemma fold_add_name_in names :
  forall o x, In x (fold_left add_name names o) <-> In x o \/ In x names.
Proof.
  induction names as [|n names IH]; intros o x; simpl; [tauto|].
  rewrite IH. split.
  - intros [H|H]; [|tauto]. unfold add_name in H.
    destruct (existsb (String.eqb n) o); [tauto|].
    apply in_app_or in H as [H|[H|[]]]; auto.
  - intros [H|[H|H]]; auto using add_name_incl.
    subst. left. apply add_name_in.
Qed.

Lemma model_of_nodup order l : NoDup order -> NoDup (keys (model_of order l)).
Proof. intros H. rewrite keys_model_of. apply NoDup_filter, H. Qed.

Lemma model_of_values order l name v :
  In (name, v) (model_of order l) -> v = placed_in name l /\ v <> [].
Proof.
  unfold model_of. intros H. apply filter_In in H as [Hin Hne].
  apply in_map_iff in Hin as (n & E & _). injection E as E1 E2. subst.
  split; [reflexivity|]. simpl in Hne.
  destruct (placed_in name l); [discriminate | discriminate].
Qed.

Lemma model_of_get order l name :
  NoDup order -> In name (keys (model_of order l)) ->
  exists v, get name (model_of order l) = Some v /\ v <> [].
Proof.
  intros Hnd Hin. apply in_map_iff in Hin as ([k v] & E & Hin).
  simpl in E. subst k. exists v. split.
  - apply in_get; [apply model_of_nodup, Hnd | exact Hin].
  - apply (model_of_values _ _ _ _ Hin).
Qed.

Lemma model_of_nil order : model_of order [] = [].
Proof.
  unfold model_of. induction order as [|n order IH]; simpl; auto.
Qed.

End ClosedForms.

(* ================================================================== *)
(** ** Runs of a text *)

Module RunFacts.
Import Spec StrFacts.

Lemma close_in cur run s r :
  In (s, r) (close cur run) -> s = cur /\ r = run /\ run <> [].
Proof.
  destruct run as [|x run]; simpl; [tauto|].
  intros [E|[]]. injection E as <- <-. repeat split. discriminate.
Qed.

Lemma text_runs_section lines :
  forall cur run s r,
    In (s, r) (text_runs cur run lines) ->
    s = cur \/ In s (text_headings lines).
Proof.
  induction lines as [|line rest IH]; intros cur run s r; simpl.
  - intros H. apply close_in in H. left. apply H.
  - unfold text_headings. simpl. fold (text_headings rest).
    destruct (classify line) as [|name|stripped]; simpl; intros H.
    + apply in_app_or in H as [H|H]; [left; apply (close_in _ _ _ _ H)|].
      apply (IH _ _ _ _ H).
    + apply in_app_or in H as [H|H]; [left; apply (close_in _ _ _ _ H)|].
      destruct (IH _ _ _ _ H) as [->|Hin]; auto.
    + apply (IH _ _ _ _ H).
Qed.

Lemma last_app_cons {A} (l1 l2 : list A) (x d : A) :
  last (l1 ++ x :: l2) d = last (x :: l2) d.
Proof.
  induction l1 as [|a l1 IH]; [reflexivity|].
  simpl app. rewrite <- IH. simpl.
  destruct (l1 ++ x :: l2) eqn:E; [|reflexivity].
  destruct l1; discriminate.
Qed.

Lemma not_body_last_cons (k : line_kind) (before : list line_kind) :
  not_body (Some k) ->
  not_body (last (List.map Some before) None) ->
  not_body (last (List.map Some (k :: before)) None).
Proof.
  intros Hk Hb. destruct before as [|b before]; [exact Hk|].
  simpl in *. exact Hb.
Qed.

(** Every run the parser closes is a run of the text that starts with
    the open run. *)
Lemma text_runs_are_runs lines :
  forall cur run s r,
    In (s, r) (text_runs cur run lines) ->
    is_run (List.map Body run ++ List.map classify lines) r.
Proof.
  induction lines as [|line rest IH]; intros cur run s r; simpl.
  - intros H. apply close_in in H as (_ & -> & Hne).
    split; [exact Hne|]. exists [], []. simpl. rewrite !app_nil_r. auto.
  - destruct (classify line) as [|name|stripped] eqn:Hk; intros H.
    + apply in_app_or in H as [H|H].
      * apply close_in in H as (_ & -> & Hne).
        split; [exact Hne|]. exists [], (Blank :: List.map classify rest).
        simpl. auto.
      * destruct (IH _ _ _ _ H) as (Hne & before & after & E & Hb & Ha).
        simpl in E. split; [exact Hne|].
        exists (List.map Body run ++ Blank :: before), after.
        rewrite E, <- app_assoc. simpl. repeat split; auto.
        rewrite map_app. simpl. rewrite last_app_cons.
        apply (not_body_last_cons Blank before I Hb).
    + apply in_app_or in H as [H|H].
      * apply close_in in H as (_ & -> & Hne).
        split; [exact Hne|].
        exists [], (Heading name :: List.map classify rest). simpl. auto.
      * destruct (IH _ _ _ _ H) as (Hne & before & after & E & Hb & Ha).
        simpl in E. split; [exact Hne|].
        exists (List.map Body run ++ Heading name :: before), after.
        rewrite E, <- app_assoc. simpl. repeat split; auto.
        rewrite map_app. simpl. rewrite last_app_cons.
        apply (not_body_last_cons (Heading name) before I Hb).
    + specialize (IH _ _ _ _ H). rewrite map_app, <- app_assoc in IH.
      exact IH.
Qed.

(** Lines of a text made of spaces only. *)
Lemma lstrip_all_space s :
  Str.all Char.isspace s = true -> Str.lstrip s = EmptyString.
Proof.
  induction s as [|c s IH]; simpl; [reflexivity|].
  intros H. apply andb_true_iff in H as [Hc Hs]. rewrite Hc. apply IH, Hs.
Qed.

Lemma classify_all_space line :
  Str.all Char.isspace line = true -> classify line = Blank.
Proof.
  intros H. unfold classify, Str.strip.
  rewrite (lstrip_all_space _ H). reflexivity.
Qed.

Lemma splitlines_all p n :
  forall s, String.length s <= n ->
    Str.all p s = true ->
    Forall (fun l => Str.all p l = true) (Str.splitlines s).
Proof.
  induction n as [|n IH]; intros s Hlen Hall.
  - destruct s; [constructor | simpl in Hlen; lia].
  - destruct s as [|c s]; [constructor|].
    simpl in Hlen, Hall. apply andb_true_iff in Hall as [Hc Hs].
    simpl. destruct (Char.islinebreak c).
    + destruct s as [|c2 s2]; [repeat constructor|].
      simpl in Hs. apply andb_true_iff in Hs as [Hc2 Hs2].
      destruct ((c =? Char.CR)%char && (c2 =? Char.LF)%char).
      * constructor; [reflexivity|]. apply IH; [simpl in Hlen; lia | exact Hs2].
      * constructor; [reflexivity|]. apply IH; [lia|].
        simpl. rewrite Hc2, Hs2. reflexivity.
    + assert (Hrec : Forall (fun l => Str.all p l = true) (Str.splitlines s)).
      { apply IH; [lia | exact Hs]. }
      destruct (Str.splitlines s) as [|l ls].
      * repeat constructor. simpl. rewrite Hc. reflexivity.
      * inversion Hrec; subst. constructor; [|assumption].
        simpl. rewrite Hc. assumption.
Qed.

Lemma text_runs_blank lines :
  Forall (fun l => classify l = Blank) lines ->
  forall cur, text_runs cur [] lines = [] /\ text_headings lines = [].
Proof.
  induction 1 as [|line rest Hline _ IH]; intros cur; simpl; [auto|].
  unfold text_headings. simpl. rewrite Hline. simpl.
  fold (text_headings rest). apply IH.
Qed.

End RunFacts.

(* ================================================================== *)
(** ** The finalized model *)

Module Finalized.
Import Dict DictFacts Spec HandlerFacts ModelFacts DocxSpec ClosedForms
       RunFacts.

Lemma nonempty_receives (l : log) n :
  nonempty (placed_in n l) = receives l n.
Proof.
  unfold receives. apply eq_true_iff_eq.
  rewrite nonempty_placed, existsb_eqb_in. reflexivity.
Qed.

Lemma model_of_pruned order l last :
  NoDup order ->
  pruned (mkHandler (model_of order l) (keys (model_of order l)) last).
Proof.
  intros Hnd. unfold pruned. simpl. split; [apply model_of_nodup, Hnd|].
  split; [apply Permutation_refl|].
  intros name Hin. apply model_of_get; assumption.
Qed.

Lemma text_order_nodup lines : NoDup (text_order lines).
Proof.
  apply fold_add_name_nodup. repeat constructor. simpl. tauto.
Qed.

Lemma docx_order_nodup blocks : NoDup (docx_order blocks).
Proof.
  apply fold_add_name_nodup. repeat constructor. simpl. tauto.
Qed.

Lemma text_log_names cur run lines :
  List.map fst (text_log cur run lines)
  = List.map fst (text_runs cur run lines).
Proof. unfold text_log, run_log. rewrite map_map. reflexivity. Qed.

Lemma receives_text_log cur run lines n :
  receives (text_log cur run lines) n = receives (text_runs cur run lines) n.
Proof. unfold receives. rewrite text_log_names. reflexivity. Qed.

Lemma text_runs_in_order lines n :
  In n (List.map fst (text_runs "Uncategorized" [] lines)) ->
  In n (text_order lines).
Proof.
  intros H. apply in_map_iff in H as ([s r] & E & Hin). simpl in E. subst s.
  apply fold_add_name_in.
  destruct (text_runs_section _ _ _ _ _ Hin) as [->|H]; [left; left|right];
    auto.
Qed.

End Finalized.

(** C2, as the code has it: when [parse_text] or [parse_docx] returns, the
    order has no duplicates and is the list of the keys of the sections,
    in the same order, every name in it maps to a non-empty section, and
    the order is the
    order in which the sections were opened ("Uncategorized", then each
    heading where it first occurs) without the sections that received
    nothing.  A name is in the final order exactly when some content was
    placed under it, so a heading name none of whose occurrences is
    followed by content has no entry; and a text made of white space only
    gives empty sections and an empty order. *)
Theorem finalized_model :
  (forall text h,
     exists m h',
       parse_text text h = (inr m, h')
       /\ sections h' = m
       /\ pruned h'
       /\ detected_order h' = Dict.keys m
       /\ detected_order h'
          = filter (receives (Spec.text_runs "Uncategorized" [] (Str.splitlines text)))
                   (Spec.text_order (Str.splitlines text))
       /\ (forall name,
             In name (detected_order h') <->
             In name (List.map fst (Spec.text_runs "Uncategorized" []
                                      (Str.splitlines text))))
       /\ (Str.all Char.isspace text = true ->
           m = [] /\ detected_order h' = []))
  /\ (forall Document tempdir writable path doc h,
        Document path = Some doc ->
        exists m h',
          parse_docx Document tempdir writable path h = (inr m, h')
          /\ sections h' = m
          /\ pruned h'
          /\ detected_order h' = Dict.keys m
          /\ detected_order h'
             = filter (receives
                         (DocxSpec.docx_log
                            (_extract_all_images writable doc
                               (path_join tempdir "docmaster_images"))
                            (body doc) "Uncategorized" None))
                      (DocxSpec.docx_order (body doc))).
Proof.
  split.
  - intros text h. eexists. eexists.
    split; [apply ModelFacts.parse_text_closed|]. simpl.
    split; [reflexivity|].
    split; [apply Finalized.model_of_pruned, Finalized.text_order_nodup|].
    split; [reflexivity|].
    assert (Hord : Dict.keys
                     (Spec.model_of (Spec.text_order (Str.splitlines text))
                        (Spec.text_log "Uncategorized" [] (Str.splitlines text)))
                   = filter (receives (Spec.text_runs "Uncategorized" []
                                         (Str.splitlines text)))
                            (Spec.text_order (Str.splitlines text))).
    { rewrite ModelFacts.keys_model_of. apply filter_ext. intros n.
      rewrite Finalized.nonempty_receives. apply Finalized.receives_text_log. }
    split; [exact Hord|]. split.
    + intros name. rewrite Hord, filter_In. unfold receives.
      rewrite HandlerFacts.existsb_eqb_in. split; [tauto|].
      intros H. split; [apply Finalized.text_runs_in_order, H | exact H].
    + intros Hws.
      assert (Hblank : Forall (fun l => Spec.classify l = Spec.Blank)
                              (Str.splitlines text)).
      { eapply Forall_impl; [apply RunFacts.classify_all_space|].
        apply (RunFacts.splitlines_all Char.isspace (String.length text));
          [lia | exact Hws]. }
      destruct (RunFacts.text_runs_blank _ Hblank "Uncategorized") as [Hruns _].
      unfold Spec.text_log. rewrite Hruns. simpl.
      rewrite ClosedForms.model_of_nil. auto.
  - intros Document tempdir writable path doc h Hdoc. eexists. eexists.
    split; [apply (ClosedForms.parse_docx_closed _ _ _ _ _ h Hdoc)|]. simpl.
    split; [reflexivity|].
    split; [apply Finalized.model_of_pruned, Finalized.docx_order_nodup|].
    split; [reflexivity|].
    rewrite ModelFacts.keys_model_of. apply filter_ext. intros n.
    apply Finalized.nonempty_receives.
Qed.

Lemma finalized_model_witness :
  (exists m h',
     parse_text "   " Scenario.used_handler = (inr m, h')
     /\ m = [] /\ detected_order h' = [])
  /\ (exists m h',
        parse_docx (fun _ => Some (mkDoc [] [CT_Tbl [["a"; "b"]]])) "/tmp"
                   (fun _ => true) "paper.docx" new_handler = (inr m, h')
        /\ pruned h').
Proof.
  split.
  - destruct (proj1 finalized_model "   " Scenario.used_handler)
      as (m & h' & Hrun & _ & _ & _ & _ & _ & Hws).
    exists m, h'. split; [exact Hrun|]. apply Hws. reflexivity.
  - destruct (proj2 finalized_model
                (fun _ => Some (mkDoc [] [CT_Tbl [["a"; "b"]]])) "/tmp"
                (fun _ => true) "paper.docx" (mkDoc [] [CT_Tbl [["a"; "b"]]])
                new_handler eq_refl)
      as (m & h' & Hrun & _ & Hpruned & _).
    exists m, h'. split; [exact Hrun | exact Hpruned].
Defined.

(** The first line of this text is the heading "Abstract" and the next
    line is already the heading "Introduction", so that heading has no
    content before the next heading; "Abstract" is still in the final
    order, and first. *)
Lemma heading_without_content_keeps_entry :
  List.map Spec.classify (Str.splitlines Repeated.text)
  = [Spec.Heading "Abstract"; Spec.Heading "Introduction";
     Spec.Body "Some text."; Spec.Heading "Abstract"; Spec.Body "More text."]
  /\ parse_text Repeated.text new_handler
     = (inr [("Abstract", [Text "More text."]);
             ("Introduction", [Text "Some text."])],
        mkHandler [("Abstract", [Text "More text."]);
                   ("Introduction", [Text "Some text."])]
                  ["Abstract"; "Introduction"] None).
Proof.
  split; reflexivity.
Qed.

(** C9: [parse_text] does not depend on what the handler held: on any two
    handlers, and on the handler left by a first run, the same text gives
    the same returned model, the same sections and the same order. *)
Theorem parse_text_deterministic :
  forall text h1 h2,
    exists m order ha hb hc,
      parse_text text h1 = (inr m, ha)
      /\ parse_text text h2 = (inr m, hb)
      /\ parse_text text ha = (inr m, hc)
      /\ (sections ha = m /\ sections hb = m /\ sections hc = m)
      /\ (detected_order ha = order /\ detected_order hb = order
          /\ detected_order hc = order).
Proof.
  intros text h1 h2. eexists. eexists. eexists. eexists. eexists.
  split; [apply ModelFacts.parse_text_closed|].
  split; [apply ModelFacts.parse_text_closed|].
  split; [apply ModelFacts.parse_text_closed|].
  simpl. repeat split; reflexivity.
Qed.

(** C10: every element of the model that [parse_text] returns is a Text
    element, and its content is the stripped lines of one run of the text
    joined by single spaces, a run being a block of consecutive lines that
    are neither blank nor headings, with no such line right before or
    right after it. *)
Theorem parse_text_elements :
  forall text h,
    exists m h',
      parse_text text h = (inr m, h')
      /\ forall name v e,
           In (name, v) m -> In e v ->
           exists r,
             Spec.is_run (List.map Spec.classify (Str.splitlines text)) r
             /\ e = Text (Str.join " " r).
Proof.
  intros text h. eexists. eexists.
  split; [apply ModelFacts.parse_text_closed|].
  intros name v e Hin He.
  apply ClosedForms.model_of_values in Hin as [-> _].
  unfold Spec.placed_in in He. apply in_map_iff in He as ([s e'] & E & He).
  simpl in E. subst e'. apply filter_In in He as [He _].
  unfold Spec.text_log, Spec.run_log in He.
  apply in_map_iff in He as ([s' r] & E & Hr).
  injection E as _ <-. exists r. split; [|reflexivity].
  apply (RunFacts.text_runs_are_runs _ _ _ _ _ Hr).
Qed.

Lemma parse_text_elements_witness :
  exists r,
    Spec.is_run (List.map Spec.classify (Str.splitlines Scenario.two_sections)) r
    /\ Text "This paper studies X." = Text (Str.join " " r).
Proof.
  destruct (parse_text_elements Scenario.two_sections new_handler)
    as (m & h' & Hrun & Hall).
  apply (Hall "Abstract" [Text "This paper studies X."]).
  - change (parse_text Scenario.two_sections new_handler)
      with (@inr error sections_t
              [("Abstract", [Text "This paper studies X."]);
               ("Introduction", [Text "We begin with Y."])],
            mkHandler [("Abstract", [Text "This paper studies X."]);
                       ("Introduction", [Text "We begin with Y."])]
                      ["Abstract"; "Introduction"] None) in Hrun.
    injection Hrun as <- _. left. reflexivity.
  - left. reflexivity.
Defined.

(* ================================================================== *)
(** ** Image extraction *)

Module ImageFacts.
Import Dict Spec DocxSpec.












Lemma assoc_get_set_other k k0 v d :
  k0 <> k -> assoc_get k0 (assoc_set k v d) = assoc_get k0 d.
Proof.
  intros Hne. induction d as [|[k' v'] d IH]; simpl.
  - destruct (String.eqb_spec k0 k); [contradiction | reflexivity].
  - destruct (String.eqb_spec k k') as [->|Hk]; simpl.
    + destruct (String.eqb_spec k0 k'); [contradiction | reflexivity].
    + destruct (String.eqb_spec k0 k'); [reflexivity | exact IH].
Qed.





End ImageFacts.



(* ================================================================== *)
(** ** What the matcher accepts *)

Module ReFacts.
Import Re StrFacts.

Lemma take_append s1 s2 :
  Str.take (String.length (s1 ++ s2)%string - String.length s2) (s1 ++ s2)%string
  = s1.
Proof.
  rewrite length_append. replace (_ + _ - _) with (String.length s1) by lia.
  induction s1 as [|c s1 IH]; simpl.
  - destruct s2; reflexivity.
  - rewrite IH. reflexivity.
Qed.

Lemma star_sound {A} p (k : string -> option A) s x :
  star p k s = Some x ->
  exists s1 s2, s = (s1 ++ s2)%string /\ Str.all p s1 = true /\ k s2 = Some x.
Proof.
  induction s as [|c s IH]; simpl; intros H.
  - exists EmptyString, EmptyString. auto.
  - destruct (p c) eqn:Hc.
    + destruct (star p k s) as [y|] eqn:Hs.
      * injection H as ->. destruct (IH eq_refl) as (s1 & s2 & -> & Hall & Hk).
        exists (String c s1), s2. simpl. rewrite Hc, Hall. auto.
      * exists EmptyString, (String c s). auto.
    + exists EmptyString, (String c s). auto.
Qed.

Lemma star_keeps {A} p (k : string -> option A) s :
  k s <> None -> star p k s <> None.
Proof.
  destruct s as [|c s]; simpl; [auto|].
  destruct (p c); [|auto]. destruct (star p k s); [discriminate | auto].
Qed.

Lemma star_complete {A} p (k : string -> option A) s1 s2 :
  Str.all p s1 = true -> k s2 <> None -> star p k (s1 ++ s2)%string <> None.
Proof.
  induction s1 as [|c s1 IH]; simpl; intros Hall Hk.
  - apply star_keeps, Hk.
  - apply andb_true_iff in Hall as [Hc Hall]. rewrite Hc.
    specialize (IH Hall Hk).
    destruct (star p k (s1 ++ s2)%string); [discriminate | contradiction].
Qed.

(** Whatever the matcher finds is a match. *)
Lemma run_sound {A} r :
  forall g s (k : groups -> string -> option A) x,
    run r g s k = Some x ->
    exists s1 s2 g',
      s = (s1 ++ s2)%string /\ denotes r g s1 s2 g' /\ k g' s2 = Some x.
Proof.
  induction r as [|p|r1 IH1 r2 IH2|r1 IH1 r2 IH2|p|n r IH|];
    intros g s k x H; simpl in H.
  - exists EmptyString, s, g. simpl. auto.
  - destruct s as [|c s]; [discriminate|].
    destruct (p c) eqn:Hc; [|discriminate].
    exists (String c EmptyString), s, g. simpl. eauto 6.
  - apply IH1 in H as (a & t & gm & -> & H1 & H).
    apply IH2 in H as (b & s2 & g' & -> & H2 & H).
    exists (a ++ b)%string, s2, g'. rewrite append_assoc.
    split; [reflexivity|]. split; [|exact H].
    simpl. exists a, b, gm. auto.
  - destruct (run r1 g s k) as [y|] eqn:E1.
    + injection H as ->. apply IH1 in E1 as (s1 & s2 & g' & -> & H1 & H).
      exists s1, s2, g'. simpl. auto.
    + apply IH2 in H as (s1 & s2 & g' & -> & H2 & H).
      exists s1, s2, g'. simpl. auto.
  - apply star_sound in H as (s1 & s2 & -> & Hall & H).
    exists s1, s2, g. simpl. auto.
  - apply IH in H as (s1 & s2 & gm & -> & H1 & H).
    rewrite take_append in H.
    exists s1, s2, ((n, s1) :: gm). simpl. eauto.
  - destruct (at_eol s) eqn:E; [|discriminate].
    exists EmptyString, s, g. simpl. auto.
Qed.

(** Where there is a match, the matcher finds one. *)
Lemma run_complete {A} r :
  forall g s1 s2 g' (k : groups -> string -> option A),
    denotes r g s1 s2 g' -> k g' s2 <> None ->
    run r g (s1 ++ s2)%string k <> None.
Proof.
  induction r as [|p|r1 IH1 r2 IH2|r1 IH1 r2 IH2|p|n r IH|];
    intros g s1 s2 g' k H Hk; simpl in H.
  - destruct H as [-> ->]. exact Hk.
  - destruct H as (c & -> & Hc & ->). simpl. rewrite Hc. exact Hk.
  - destruct H as (a & b & gm & -> & H1 & H2). simpl.
    rewrite append_assoc. apply (IH1 _ _ _ _ _ H1).
    apply (IH2 _ _ _ _ _ H2 Hk).
  - simpl. destruct (run r1 g (s1 ++ s2)%string k) eqn:E1; [discriminate|].
    destruct H as [H|H].
    + exfalso. apply (IH1 _ _ _ _ _ H Hk). exact E1.
    + apply (IH2 _ _ _ _ _ H Hk).
  - destruct H as [Hall ->]. simpl. apply star_complete; assumption.
  - destruct H as (gm & H & ->). simpl. apply (IH _ _ _ _ _ H).
    rewrite take_append. exact Hk.
  - destruct H as (-> & Heol & ->). simpl. rewrite Heol. exact Hk.
Qed.

Lemma rmatch_sound r s g rest :
  rmatch r s = Some (g, rest) ->
  exists s1, s = (s1 ++ rest)%string /\ denotes r [] s1 rest g.
Proof.
  unfold rmatch. intros H.
  apply run_sound in H as (s1 & s2 & g' & -> & Hd & E).
  injection E as -> ->. exists s1. auto.
Qed.

Lemma matches_sound r s :
  matches r s = true ->
  exists s1 s2 g, s = (s1 ++ s2)%string /\ denotes r [] s1 s2 g.
Proof.
  unfold matches. destruct (rmatch r s) as [[g rest]|] eqn:E; [|discriminate].
  intros _. apply rmatch_sound in E as (s1 & -> & Hd). eauto.
Qed.

Lemma rmatch_complete r s1 s2 g :
  denotes r [] s1 s2 g -> rmatch r (s1 ++ s2)%string <> None.
Proof.
  intros H. unfold rmatch. apply (run_complete _ _ _ _ _ _ H). discriminate.
Qed.

Lemma matches_complete r s1 s2 g :
  denotes r [] s1 s2 g -> matches r (s1 ++ s2)%string = true.
Proof.
  intros H. unfold matches.
  destruct (rmatch r (s1 ++ s2)%string) eqn:E; [reflexivity|].
  exfalso. apply (rmatch_complete _ _ _ _ H E).
Qed.

End ReFacts.

(* ================================================================== *)
(** ** Facts about characters and about splitting texts *)

Module CharFacts.
Import Char HeadingSpec.

Ltac by_cases c :=
  destruct c as [[|] [|] [|] [|] [|] [|] [|] [|]]; vm_compute;
  try reflexivity; try discriminate; auto.

Lemma digit_not_space c : isdigit c = true -> isspace c = false.
Proof. by_cases c. Qed.

Lemma separator_not_digit c : is_separator c = true -> isdigit c = false.
Proof. by_cases c. Qed.

Lemma separator_not_space c : is_separator c = true -> isspace c = false.
Proof. by_cases c. Qed.

Lemma isspace_lower c : isspace (lower c) = isspace c.
Proof. by_cases c. Qed.

Lemma isdigit_lower c : isdigit (lower c) = isdigit c.
Proof. by_cases c. Qed.

Lemma is_separator_lower c : is_separator (lower c) = is_separator c.
Proof. by_cases c. Qed.

Lemma isdot_lower c : isdot (lower c) = isdot c.
Proof. by_cases c. Qed.

Lemma lower_lower c : lower (lower c) = lower c.
Proof. by_cases c. Qed.

Lemma lower_upper c : lower (upper c) = lower c.
Proof. by_cases c. Qed.

Lemma linefeed_is_space c : (c =? LF)%char = true -> isspace c = true.
Proof. by_cases c. Qed.

Lemma oneof_separator c :
  existsb (Ascii.eqb c) (list_ascii_of_string ".)") = is_separator c.
Proof. by_cases c. Qed.

End CharFacts.

Module SplitFacts.
Import Str StrFacts HeadingSpec.

Lemma all_take_while p s : all p (take_while p s) = true.
Proof.
  induction s as [|c s IH]; simpl; [reflexivity|].
  destruct (p c) eqn:Hc; simpl; [rewrite Hc; exact IH | reflexivity].
Qed.

Lemma take_drop_while p s : s = (take_while p s ++ drop_while p s)%string.
Proof.
  induction s as [|c s IH]; simpl; [reflexivity|].
  destruct (p c); simpl; [f_equal; exact IH | reflexivity].
Qed.

Lemma take_while_app p a c r :
  all p a = true -> p c = false ->
  take_while p (a ++ String c r)%string = a.
Proof.
  intros Ha Hc. induction a as [|x a IH]; simpl in *.
  - rewrite Hc. reflexivity.
  - apply andb_true_iff in Ha as [Hx Ha]. rewrite Hx, (IH Ha). reflexivity.
Qed.

Lemma drop_while_app p a c r :
  all p a = true -> p c = false ->
  drop_while p (a ++ String c r)%string = String c r.
Proof.
  intros Ha Hc. induction a as [|x a IH]; simpl in *.
  - rewrite Hc. reflexivity.
  - apply andb_true_iff in Ha as [Hx Ha]. rewrite Hx. exact (IH Ha).
Qed.

Lemma lstrip_is_drop_while s : lstrip s = drop_while Char.isspace s.
Proof. induction s as [|c s IH]; simpl; [|rewrite IH]; reflexivity. Qed.

(** A text is its leading space, then its stripped part, then its
    trailing space. *)
Lemma lstrip_split s :
  exists sp, s = (sp ++ lstrip s)%string /\ all Char.isspace sp = true.
Proof.
  exists (take_while Char.isspace s). rewrite lstrip_is_drop_while.
  split; [apply take_drop_while | apply all_take_while].
Qed.

Lemma rstrip_split s :
  exists sp, s = (rstrip s ++ sp)%string /\ all Char.isspace sp = true.
Proof.
  induction s as [|c s (sp & E & Hsp)]; simpl.
  - exists EmptyString. auto.
  - destruct (is_empty (rstrip s)) eqn:Hr; simpl.
    + apply is_empty_true in Hr. rewrite Hr in E. simpl in E. subst s.
      destruct (Char.isspace c) eqn:Hc.
      * exists (String c sp). simpl. rewrite Hc, Hsp. auto.
      * exists sp. rewrite Hr. auto.
    + exists sp. simpl. split; [f_equal; exact E | exact Hsp].
Qed.

Lemma strip_split s :
  exists a b,
    s = (a ++ strip s ++ b)%string
    /\ all Char.isspace a = true /\ all Char.isspace b = true.
Proof.
  destruct (lstrip_split s) as (a & Ea & Ha).
  destruct (rstrip_split (lstrip s)) as (b & Eb & Hb).
  exists a, b. unfold strip. rewrite <- Eb. auto.
Qed.

Lemma lstrip_app_space sp s :
  all Char.isspace sp = true -> lstrip (sp ++ s)%string = lstrip s.
Proof.
  induction sp as [|c sp IH]; simpl; [reflexivity|].
  intros H. apply andb_true_iff in H as [Hc Hsp]. rewrite Hc. exact (IH Hsp).
Qed.

Lemma rstrip_all_space sp :
  all Char.isspace sp = true -> rstrip sp = EmptyString.
Proof.
  induction sp as [|c sp IH]; simpl; [reflexivity|].
  intros H. apply andb_true_iff in H as [Hc Hsp].
  rewrite (IH Hsp), Hc. reflexivity.
Qed.

Lemma rstrip_app_space s sp :
  all Char.isspace sp = true -> rstrip (s ++ sp)%string = rstrip s.
Proof.
  intros Hsp. induction s as [|c s IH]; simpl.
  - apply rstrip_all_space, Hsp.
  - rewrite IH. reflexivity.
Qed.

Lemma rstrip_app_keep a s :
  last_ok a = true -> rstrip (a ++ s)%string = (a ++ rstrip s)%string.
Proof.
  induction a as [|c a IH]; simpl; [discriminate|].
  destruct a as [|c' a].
  - simpl. intros Hc. apply negb_true_iff in Hc.
    rewrite Hc, andb_false_r. reflexivity.
  - intros H. rewrite (IH H). simpl. reflexivity.
Qed.

Lemma all_lstrip p s : all p s = true -> all p (lstrip s) = true.
Proof.
  induction s as [|c s IH]; simpl; [auto|].
  intros H. destruct (Char.isspace c); [|exact H].
  apply andb_true_iff in H as [_ H]. exact (IH H).
Qed.

Lemma all_rstrip p s : all p s = true -> all p (rstrip s) = true.
Proof.
  induction s as [|c s IH]; simpl; [auto|].
  intros H. apply andb_true_iff in H as [Hc H].
  destruct (is_empty (rstrip s) && Char.isspace c); [reflexivity|].
  simpl. rewrite Hc. exact (IH H).
Qed.

Lemma all_map p f s : all p (map f s) = all (fun c => p (f c)) s.
Proof. induction s as [|c s IH]; simpl; [|rewrite IH]; reflexivity. Qed.

Lemma all_ext p q s : (forall c, p c = q c) -> all p s = all q s.
Proof.
  intros H. induction s as [|c s IH]; simpl; [|rewrite H, IH]; reflexivity.
Qed.

Lemma at_eol_space s : Re.at_eol s = true -> all Char.isspace s = true.
Proof.
  destruct s as [|c [|c' s]]; simpl; try discriminate; [reflexivity|].
  intros H. rewrite (CharFacts.linefeed_is_space _ H). reflexivity.
Qed.

End SplitFacts.

(* ================================================================== *)
(** ** Words of a text *)

Module WordFacts.
Import Str StrFacts SplitFacts HeadingSpec.

Lemma words_space_left sp s :
  all Char.isspace sp = true -> words (sp ++ s)%string = words s.
Proof.
  induction sp as [|c sp IH]; simpl; [reflexivity|].
  intros H. apply andb_true_iff in H as [Hc Hsp]. rewrite Hc. exact (IH Hsp).
Qed.

Lemma words_all_space sp : all Char.isspace sp = true -> words sp = [].
Proof.
  intros H. rewrite <- (append_nil_r sp). rewrite words_space_left by exact H.
  reflexivity.
Qed.

Lemma all_space_starts sp : all Char.isspace sp = true -> starts_space sp = true.
Proof.
  destruct sp; simpl; [reflexivity|]. intros H.
  apply andb_true_iff in H. apply H.
Qed.

Lemma words_word w s :
  good_word w = true -> starts_space s = true ->
  words (w ++ s)%string = w :: words s.
Proof.
  unfold good_word. intros Hw Hs. apply andb_true_iff in Hw as [Hne Hall].
  induction w as [|c w IH]; [discriminate|]. clear Hne.
  simpl in Hall. apply andb_true_iff in Hall as [Hc Hall].
  apply negb_true_iff in Hc.
  change (String c w ++ s)%string with (String c (w ++ s)%string).
  cbn [words]. rewrite Hc. destruct w as [|c' w].
  - simpl. destruct s as [|c2 s]; [reflexivity|].
    simpl in Hs. rewrite Hs. reflexivity.
  - change (String c' w ++ s)%string with (String c' (w ++ s)%string).
    simpl in Hall. pose proof Hall as Hall'.
    apply andb_true_iff in Hall' as [Hc' _]. apply negb_true_iff in Hc'.
    rewrite Hc'.
    change (String c' (w ++ s)%string) with (String c' w ++ s)%string.
    rewrite IH; [reflexivity | reflexivity | exact Hall].
Qed.

Lemma words_space_right s sp :
  all Char.isspace sp = true -> words (s ++ sp)%string = words s.
Proof.
  intros Hsp. induction s as [|c s IH].
  - simpl. apply words_all_space, Hsp.
  - change (String c s ++ sp)%string with (String c (s ++ sp)%string).
    cbn [words]. destruct (Char.isspace c); [exact IH|].
    destruct s as [|c' s].
    + simpl. destruct sp as [|c2 sp]; [reflexivity|].
      pose proof (all_space_starts _ Hsp) as H2. simpl in H2. rewrite H2.
      rewrite (words_all_space _ Hsp). reflexivity.
    + change (String c' s ++ sp)%string with (String c' (s ++ sp)%string).
      cbv iota.
      change (String c' (s ++ sp)%string) with (String c' s ++ sp)%string.
      rewrite IH. reflexivity.
Qed.

Lemma words_lstrip s : words (lstrip s) = words s.
Proof.
  destruct (lstrip_split s) as (sp & E & Hsp). rewrite E at 2.
  rewrite words_space_left by exact Hsp. reflexivity.
Qed.

Lemma words_rstrip s : words (rstrip s) = words s.
Proof.
  destruct (rstrip_split s) as (sp & E & Hsp). rewrite E at 2.
  rewrite words_space_right by exact Hsp. reflexivity.
Qed.

Lemma words_strip s : words (strip s) = words s.
Proof. unfold strip. rewrite words_rstrip. apply words_lstrip. Qed.

(** The first word begins where the text does, after its leading space. *)
Lemma words_first c s :
  Char.isspace c = false ->
  exists w ws, words (String c s) = String c w :: ws.
Proof.
  intros Hc. cbn [words]. rewrite Hc. destruct s as [|c' s]; [eauto|].
  destruct (Char.isspace c'); [eauto|].
  destruct (words (String c' s)); eauto.
Qed.

Lemma spaced_words ws :
  forallb good_word ws = true ->
  forall s trail,
    spaced ws s -> all Char.isspace trail = true ->
    words (s ++ trail)%string = ws.
Proof.
  induction ws as [|w ws IH]; intros Hgood s trail Hs Htrail.
  - simpl in Hs. subst s. simpl. apply words_all_space, Htrail.
  - simpl in Hgood. apply andb_true_iff in Hgood as [Hw Hgood].
    destruct ws as [|w2 ws].
    + simpl in Hs. subst s.
      rewrite words_word by auto using all_space_starts.
      rewrite (words_all_space _ Htrail). reflexivity.
    + destruct Hs as (sp & s' & -> & Hne & Hsp & Hs').
      rewrite !append_assoc. rewrite words_word; [|exact Hw|].
      * rewrite words_space_left by exact Hsp.
        rewrite (IH Hgood _ _ Hs' Htrail). reflexivity.
      * destruct sp as [|c sp]; [congruence|]. simpl in *.
        apply andb_true_iff in Hsp. apply Hsp.
Qed.

End WordFacts.

Module WordSplit.
Import Str StrFacts SplitFacts HeadingSpec WordFacts.

Lemma spaced_cons_char c w ws body :
  spaced (w :: ws) body -> spaced (String c w :: ws) (String c body).
Proof.
  destruct ws as [|w2 ws]; simpl.
  - intros ->. reflexivity.
  - intros (sp & s' & -> & Hne & Hsp & Hs'). exists sp, s'. auto.
Qed.

(** Every text is its words with white space between and around them. *)
Lemma words_spaced s :
  exists w0 body w1,
    s = (w0 ++ body ++ w1)%string
    /\ all Char.isspace w0 = true
    /\ all Char.isspace w1 = true
    /\ spaced (words s) body
    /\ (words s <> [] -> first_ok body = true).
Proof.
  induction s as [|c s (w0 & body & w1 & E & H0 & H1 & Hsp & Hfirst)].
  - exists EmptyString, EmptyString, EmptyString. simpl.
    repeat split; auto; congruence.
  - cbn [words]. destruct (Char.isspace c) eqn:Hc.
    + exists (String c w0), body, w1. simpl. rewrite Hc, H0, E at 1.
      repeat split; auto.
    + destruct s as [|c' s'].
      * exists EmptyString, (String c EmptyString), EmptyString. simpl.
        rewrite Hc. repeat split; auto.
      * destruct (Char.isspace c') eqn:Hc'.
        -- destruct (words (String c' s')) as [|w ws] eqn:Hw.
           ++ simpl in Hsp. subst body. simpl in E.
              exists EmptyString, (String c EmptyString), (w0 ++ w1)%string.
              simpl. rewrite Hc, E, all_append, H0, H1. repeat split; auto.
           ++ assert (Hb : first_ok body = true) by (apply Hfirst; discriminate).
              assert (Hw0 : w0 <> EmptyString).
              { intros ->. simpl in E. destruct body as [|b body];
                  [discriminate|]. simpl in E, Hb. injection E as <- _.
                rewrite Hc' in Hb. discriminate. }
              exists EmptyString, (String c (w0 ++ body))%string, w1.
              simpl. rewrite Hc, E, append_assoc. repeat split; auto.
              exists w0, body. auto.
        -- destruct (words_first c' s' Hc') as (w & ws & Hw).
           rewrite Hw in *.
           assert (Hw0 : w0 = EmptyString).
           { destruct w0 as [|a w0]; [reflexivity|]. simpl in E, H0.
             injection E as <- _. rewrite Hc' in H0. discriminate. }
           subst w0. simpl in E.
           exists EmptyString, (String c body), w1. simpl.
           rewrite Hc, E. repeat split; auto.
           apply spaced_cons_char, Hsp.
Qed.

Lemma same_words_eq a b : same_words a b = true <-> a = b.
Proof.
  revert b. induction a as [|x a IH]; intros [|y b]; simpl;
    try (split; [discriminate | congruence]); [split; auto|].
  rewrite andb_true_iff, String.eqb_eq, IH. split.
  - intros [-> ->]. reflexivity.
  - intros [= -> ->]. auto.
Qed.

End WordSplit.

(* ================================================================== *)
(** ** What the patterns of the handler accept *)

Module PatternFacts.
Import Re ReFacts Patterns Str StrFacts SplitFacts HeadingSpec WordFacts
       WordSplit.

Lemma denotes_chr c g s s2 g' :
  denotes (chr c) g s s2 g' <-> s = String c EmptyString /\ g' = g.
Proof.
  simpl. split.
  - intros (x & -> & E & ->). apply Ascii.eqb_eq in E. subst. auto.
  - intros [-> ->]. exists c. rewrite Ascii.eqb_refl. auto.
Qed.

Lemma denotes_lit w :
  forall g s s2 g', denotes (lit w) g s s2 g' <-> s = w /\ g' = g.
Proof.
  induction w as [|c w IH]; intros g s s2 g'.
  - simpl. tauto.
  - destruct w as [|c' w].
    + apply denotes_chr.
    + change (lit (String c (String c' w)))
        with (Cat (chr c) (lit (String c' w))).
      cbn [denotes]. split.
      * intros (a & b & gm & -> & Ha & Hb).
        apply denotes_chr in Ha as [-> ->]. apply IH in Hb as [-> ->]. auto.
      * intros [-> ->]. exists (String c EmptyString), (String c' w), g.
        split; [reflexivity|]. split; [apply denotes_chr | apply IH]; auto.
Qed.

Lemma denotes_plus p g s s2 g' :
  denotes (Plus p) g s s2 g' <-> s <> EmptyString /\ all p s = true /\ g' = g.
Proof.
  unfold Plus. cbn [denotes]. split.
  - intros (a & b & gm & -> & (c & -> & Hc & ->) & Hb & ->).
    simpl. rewrite Hc, Hb. repeat split. discriminate.
  - intros (Hne & Hall & ->). destruct s as [|c s]; [congruence|].
    simpl in Hall. apply andb_true_iff in Hall as [Hc Hall].
    exists (String c EmptyString), s, g. repeat split; eauto.
Qed.

Lemma denotes_phrase ws :
  forall g s s2 g', denotes (phrase ws) g s s2 g' <-> spaced ws s /\ g' = g.
Proof.
  induction ws as [|w ws IH]; intros g s s2 g'.
  - simpl. tauto.
  - destruct ws as [|w2 ws].
    + apply denotes_lit.
    + change (phrase (w :: w2 :: ws))
        with (Cat (lit w) (Cat (Plus space) (phrase (w2 :: ws)))).
      cbn [denotes spaced]. split.
      * intros (a & b & gm & -> & Ha & c & d & gm' & -> & Hc & Hd).
        apply denotes_lit in Ha as [-> ->].
        apply denotes_plus in Hc as (Hne & Hall & ->).
        apply IH in Hd as [Hd ->]. split; [|reflexivity].
        exists c, d. auto.
      * intros [(sp & s' & -> & Hne & Hall & Hs') ->].
        exists w, (sp ++ s')%string, g. split; [reflexivity|].
        split; [apply denotes_lit; auto|].
        exists sp, s', g. split; [reflexivity|].
        split; [apply denotes_plus; auto | apply IH; auto].
Qed.

Lemma denotes_alt_phrases alts :
  alts <> [] ->
  forall g s s2 g',
    denotes (alt (List.map phrase alts)) g s s2 g'
    <-> (exists ws, In ws alts /\ spaced ws s) /\ g' = g.
Proof.
  induction alts as [|ws alts IH]; [congruence|]. intros _ g s s2 g'.
  destruct alts as [|ws2 alts].
  - simpl alt. rewrite denotes_phrase. split.
    + intros [H ->]. split; [|reflexivity]. exists ws. simpl. auto.
    + intros [(ws' & [<-|[]] & H) ->]. auto.
  - change (alt (List.map phrase (ws :: ws2 :: alts)))
      with (Alt (phrase ws) (alt (List.map phrase (ws2 :: alts)))).
    cbn [denotes]. rewrite denotes_phrase.
    rewrite (IH ltac:(discriminate) g s s2 g'). split.
    + intros [[H ->]|[(ws' & Hin & H) ->]]; (split; [|reflexivity]).
      * exists ws. simpl. auto.
      * exists ws'. split; [right; exact Hin | exact H].
    + intros [(ws' & [<-|Hin] & H) ->]; [left; auto|].
      right. split; [|reflexivity]. exists ws'. auto.
Qed.

Lemma good_alts_nonempty alts : good_alts alts = true -> alts <> [].
Proof. destruct alts; [discriminate | discriminate]. Qed.

Lemma good_alts_in alts ws :
  good_alts alts = true -> In ws alts -> forallb good_word ws = true.
Proof.
  unfold good_alts. intros H Hin. apply andb_true_iff in H as [_ H].
  rewrite forallb_forall in H. apply H, Hin.
Qed.

Lemma heading_matches alts c :
  good_alts alts = true ->
  matches (heading alts) c = existsb (same_words (words c)) alts.
Proof.
  intros Hgood. pose proof (good_alts_nonempty _ Hgood) as Hne.
  apply eq_true_iff_eq. rewrite existsb_exists. split.
  - intros H. apply matches_sound in H as (s1 & s2 & g & -> & H).
    unfold heading in H. cbn [seq denotes] in H.
    destruct H as (w0 & t & g0 & -> & [H0 ->] & H).
    destruct H as (body & t' & g1 & -> & (g2 & Hbody & ->) & H).
    destruct H as (w1 & e & g3 & -> & [H1 ->] & (-> & Heol & ->)).
    apply (denotes_alt_phrases _ Hne) in Hbody as [(ws & Hin & Hsp) ->].
    exists ws. split; [exact Hin|]. apply same_words_eq.
    unfold space in *.
    rewrite !append_assoc. rewrite words_space_left by exact H0.
    apply spaced_words; [exact (good_alts_in _ _ Hgood Hin) | exact Hsp |].
    rewrite all_append, H1. simpl. apply at_eol_space, Heol.
  - intros (ws & Hin & Hsame). apply same_words_eq in Hsame.
    destruct (words_spaced c) as (w0 & body & w1 & E & H0 & H1 & Hsp & _).
    rewrite Hsame in Hsp.
    assert (Hd : denotes (heading alts) [] c EmptyString [(1, body)]).
    { unfold heading. cbn [seq denotes].
      exists w0, (body ++ w1)%string, []. split; [exact E|].
      split; [auto|].
      exists body, w1, [(1, body)]. split; [reflexivity|]. split.
      - exists []. split; [|reflexivity].
        apply (denotes_alt_phrases _ Hne). split; [|reflexivity].
        exists ws. auto.
      - exists w1, EmptyString, [(1, body)].
        rewrite append_nil_r. repeat split; auto. }
    apply matches_complete in Hd. rewrite append_nil_r in Hd. exact Hd.
Qed.

Lemma first_match_table table c result :
  forallb good_alts table = true ->
  first_match (List.map heading table) c result
  = if existsb (same_words (words c)) (List.concat table)
    then Some result else None.
Proof.
  induction table as [|alts table IH]; simpl; [reflexivity|].
  intros H. apply andb_true_iff in H as [Hgood Hrest].
  rewrite existsb_app, (heading_matches _ _ Hgood).
  destruct (existsb (same_words (words c)) alts); [reflexivity|].
  apply IH, Hrest.
Qed.

Lemma first_match_sections c result :
  first_match SECTION_PATTERNS c result
  = if existsb (same_words (words c)) PHRASES then Some result else None.
Proof. apply first_match_table. reflexivity. Qed.

End PatternFacts.

(* ================================================================== *)
(** ** Numbering *)

Module NumberingFacts.
Import Re ReFacts Patterns Str StrFacts SplitFacts HeadingSpec CharFacts
       PatternFacts.

Lemma denotes_separator g s s2 g' :
  denotes (oneof ".)") g s s2 g'
  <-> exists c, s = String c EmptyString /\ is_separator c = true /\ g' = g.
Proof.
  unfold oneof. cbn [denotes]. split; intros (c & E & H & G); exists c;
    rewrite oneof_separator in *; auto.
Qed.

Lemma lstrip_digits ds s :
  ds <> EmptyString -> all Char.isdigit ds = true ->
  lstrip (ds ++ s)%string = (ds ++ s)%string.
Proof.
  destruct ds as [|d ds]; [congruence|]. simpl. intros _ H.
  apply andb_true_iff in H as [Hd _]. rewrite (digit_not_space _ Hd).
  reflexivity.
Qed.

(** A text that starts with a numbering loses it. *)
Lemma drop_numbering_app w0 ds sep r :
  all Char.isspace w0 = true ->
  ds <> EmptyString -> all Char.isdigit ds = true ->
  is_separator sep = true ->
  drop_numbering (w0 ++ ds ++ String sep r)%string = lstrip r.
Proof.
  intros H0 Hne Hds Hsep. unfold drop_numbering.
  rewrite lstrip_app_space by exact H0.
  rewrite lstrip_digits by assumption.
  rewrite take_while_app, drop_while_app
    by auto using separator_not_digit.
  destruct ds; [congruence|]. rewrite Hsep. reflexivity.
Qed.

(** A text keeps its beginning, or it starts with a numbering. *)
Lemma drop_numbering_cases s :
  drop_numbering s = s
  \/ exists w0 ds sep r,
       s = (w0 ++ ds ++ String sep r)%string
       /\ all Char.isspace w0 = true
       /\ ds <> EmptyString /\ all Char.isdigit ds = true
       /\ is_separator sep = true
       /\ drop_numbering s = lstrip r.
Proof.
  destruct (lstrip_split s) as (w0 & E & H0).
  pose proof (take_drop_while Char.isdigit (lstrip s)) as Et.
  pose proof (all_take_while Char.isdigit (lstrip s)) as Hds.
  unfold drop_numbering.
  destruct (take_while Char.isdigit (lstrip s)) as [|d ds] eqn:Htake;
    [left; reflexivity|].
  destruct (drop_while Char.isdigit (lstrip s)) as [|sep r] eqn:Hdrop;
    [left; reflexivity|].
  destruct (is_separator sep) eqn:Hsep; [|left; reflexivity].
  right. exists w0, (String d ds), sep, r.
  rewrite <- Et. repeat split; auto. discriminate.
Qed.

Lemma numbered_sound l g rest :
  rmatch NUMBERED l = Some (g, rest) ->
  exists w0 ds sep w1 body,
    l = (w0 ++ ds ++ String sep (w1 ++ body ++ rest))%string
    /\ all Char.isspace w0 = true
    /\ ds <> EmptyString /\ all Char.isdigit ds = true
    /\ is_separator sep = true
    /\ all Char.isspace w1 = true
    /\ body <> EmptyString
    /\ at_eol rest = true
    /\ group 1 g = Some body.
Proof.
  intros H. apply rmatch_sound in H as (s1 & -> & H).
  unfold NUMBERED in H. cbn [seq denotes] in H.
  destruct H as (w0 & t0 & g0 & -> & [H0 ->] & H).
  destruct H as (ds & t1 & g1 & -> & Hds & H).
  apply denotes_plus in Hds as (Hne & Hds & ->).
  destruct H as (sp & t2 & g2 & -> & Hsep & H).
  apply denotes_separator in Hsep as (sep & -> & Hsep & ->).
  destruct H as (w1 & t3 & g3 & -> & [H1 ->] & H).
  destruct H as (body & e & g4 & -> & (g5 & Hbody & ->) & (-> & Heol & ->)).
  apply denotes_plus in Hbody as (Hbne & _ & ->).
  exists w0, ds, sep, w1, body.
  split; [|repeat split; auto].
  rewrite append_nil_r. repeat rewrite append_assoc. simpl.
  repeat rewrite append_assoc. reflexivity.
Qed.

Lemma numbered_complete w0 ds sep w1 body :
  all Char.isspace w0 = true ->
  ds <> EmptyString -> all Char.isdigit ds = true ->
  is_separator sep = true ->
  all Char.isspace w1 = true ->
  body <> EmptyString -> all Char.isdot body = true ->
  rmatch NUMBERED (w0 ++ ds ++ String sep (w1 ++ body))%string <> None.
Proof.
  intros H0 Hne Hds Hsep H1 Hbne Hbody.
  assert (Hd : denotes NUMBERED []
                 (w0 ++ ds ++ String sep (w1 ++ body))%string EmptyString
                 [(1, body)]).
  { unfold NUMBERED. cbn [seq denotes].
    exists w0, (ds ++ String sep (w1 ++ body))%string, [].
    split; [reflexivity|]. split; [auto|].
    exists ds, (String sep (w1 ++ body))%string, [].
    split; [reflexivity|]. split; [apply denotes_plus; auto|].
    exists (String sep EmptyString), (w1 ++ body)%string, [].
    split; [reflexivity|].
    split; [apply denotes_separator; exists sep; auto|].
    exists w1, body, []. split; [reflexivity|]. split; [auto|].
    exists body, EmptyString, [(1, body)].
    split; [rewrite append_nil_r; reflexivity|]. split.
    - exists []. split; [apply denotes_plus; auto | reflexivity].
    - auto. }
  apply rmatch_complete in Hd. rewrite append_nil_r in Hd. exact Hd.
Qed.

Lemma prefix_sound s g rest :
  rmatch NUMBER_PREFIX s = Some (g, rest) ->
  exists w0 ds sep w1,
    s = (w0 ++ ds ++ String sep (w1 ++ rest))%string
    /\ all Char.isspace w0 = true
    /\ ds <> EmptyString /\ all Char.isdigit ds = true
    /\ is_separator sep = true
    /\ all Char.isspace w1 = true.
Proof.
  intros H. apply rmatch_sound in H as (s1 & -> & H).
  unfold NUMBER_PREFIX in H. cbn [seq denotes] in H.
  destruct H as (w0 & t0 & g0 & -> & [H0 ->] & H).
  destruct H as (ds & t1 & g1 & -> & Hds & H).
  apply denotes_plus in Hds as (Hne & Hds & ->).
  destruct H as (sp & w1 & g2 & -> & Hsep & [H1 ->]).
  apply denotes_separator in Hsep as (sep & -> & Hsep & ->).
  exists w0, ds, sep, w1.
  split; [|repeat split; auto].
  repeat rewrite append_assoc. simpl. repeat rewrite append_assoc.
  reflexivity.
Qed.

Lemma prefix_complete w0 ds sep r :
  all Char.isspace w0 = true ->
  ds <> EmptyString -> all Char.isdigit ds = true ->
  is_separator sep = true ->
  rmatch NUMBER_PREFIX (w0 ++ ds ++ String sep r)%string <> None.
Proof.
  intros H0 Hne Hds Hsep.
  assert (Hd : denotes NUMBER_PREFIX []
                 (w0 ++ ds ++ String sep EmptyString)%string r []).
  { unfold NUMBER_PREFIX. cbn [seq denotes].
    exists w0, (ds ++ String sep EmptyString)%string, [].
    split; [reflexivity|]. split; [auto|].
    exists ds, (String sep EmptyString), [].
    split; [reflexivity|]. split; [apply denotes_plus; auto|].
    exists (String sep EmptyString), EmptyString, [].
    split; [reflexivity|].
    split; [apply denotes_separator; exists sep; auto | simpl; auto]. }
  apply rmatch_complete in Hd. rewrite !append_assoc in Hd. exact Hd.
Qed.

Lemma lstrip_idem s : lstrip (lstrip s) = lstrip s.
Proof.
  induction s as [|c s IH]; simpl; [reflexivity|].
  destruct (Char.isspace c) eqn:Hc; [exact IH|]. simpl. rewrite Hc.
  reflexivity.
Qed.

Lemma strip_lstrip s : strip (lstrip s) = strip s.
Proof. unfold strip. rewrite lstrip_idem. reflexivity. Qed.

Lemma strip_app_space sp s :
  all Char.isspace sp = true -> strip (sp ++ s)%string = strip s.
Proof.
  intros H. unfold strip. rewrite lstrip_app_space by exact H. reflexivity.
Qed.

(** What [_detect_heading] strips is the numbering. *)
Lemma sub_prefix_strip text :
  strip (sub_anchored NUMBER_PREFIX EmptyString text)
  = strip (drop_numbering text).
Proof.
  unfold sub_anchored.
  destruct (rmatch NUMBER_PREFIX text) as [[g rest]|] eqn:E.
  - apply prefix_sound in E as (w0 & ds & sep & w1 & -> & H0 & Hne & Hds & Hsep & H1).
    rewrite drop_numbering_app by assumption.
    simpl. rewrite strip_lstrip, (strip_app_space w1) by exact H1.
    reflexivity.
  - destruct (drop_numbering_cases text)
      as [->|(w0 & ds & sep & r & -> & H0 & Hne & Hds & Hsep & _)];
      [reflexivity|].
    exfalso. exact (prefix_complete _ _ _ _ H0 Hne Hds Hsep E).
Qed.

End NumberingFacts.

(* ================================================================== *)
(** ** Heading detection against the specification *)

Module HeadingFacts.
Import Re ReFacts Patterns Str StrFacts SplitFacts HeadingSpec CharFacts
       WordFacts WordSplit PatternFacts NumberingFacts.

(** Lower-casing goes through the string methods. *)
Lemma lower_lstrip s : lstrip (lower s) = lower (lstrip s).
Proof.
  unfold lower. induction s as [|c s IH]; simpl; [reflexivity|].
  rewrite isspace_lower. destruct (Char.isspace c); [exact IH | reflexivity].
Qed.

Lemma lower_rstrip s : rstrip (lower s) = lower (rstrip s).
Proof.
  unfold lower. induction s as [|c s IH]; simpl; [reflexivity|].
  rewrite IH, isspace_lower.
  destruct (rstrip s); simpl; destruct (Char.isspace c); reflexivity.
Qed.

Lemma lower_strip s : strip (lower s) = lower (strip s).
Proof. unfold strip. rewrite lower_lstrip, lower_rstrip. reflexivity. Qed.

Lemma lower_take_digits s :
  take_while Char.isdigit (lower s) = lower (take_while Char.isdigit s).
Proof.
  unfold lower. induction s as [|c s IH]; simpl; [reflexivity|].
  rewrite isdigit_lower. destruct (Char.isdigit c); simpl;
    [rewrite IH|]; reflexivity.
Qed.

Lemma lower_drop_digits s :
  drop_while Char.isdigit (lower s) = lower (drop_while Char.isdigit s).
Proof.
  unfold lower. induction s as [|c s IH]; simpl; [reflexivity|].
  rewrite isdigit_lower. destruct (Char.isdigit c); [exact IH | reflexivity].
Qed.

Lemma lower_drop_numbering s :
  drop_numbering (lower s) = lower (drop_numbering s).
Proof.
  unfold drop_numbering.
  rewrite lower_lstrip, lower_take_digits, lower_drop_digits.
  destruct (take_while Char.isdigit (lstrip s)) as [|d ds]; [reflexivity|].
  destruct (drop_while Char.isdigit (lstrip s)) as [|c rest]; [reflexivity|].
  simpl. rewrite is_separator_lower.
  destruct (is_separator c); [|reflexivity].
  apply (lower_lstrip rest).
Qed.

Lemma lower_title_from b s : lower (title_from b s) = lower s.
Proof.
  unfold lower. revert b. induction s as [|c s IH]; intros b; simpl;
    [reflexivity|].
  rewrite IH. destruct b; rewrite ?lower_lower, ?lower_upper; reflexivity.
Qed.

Lemma all_isdot_lower s : all Char.isdot (lower s) = all Char.isdot s.
Proof.
  unfold lower. rewrite all_map. apply all_ext. apply isdot_lower.
Qed.

(** No recognized heading is empty, and none starts with a digit. *)
Lemma no_empty_phrase : existsb (same_words []) PHRASES = false.
Proof. reflexivity. Qed.

Lemma no_digit_phrase d w ws :
  Char.isdigit d = true ->
  existsb (same_words (String d w :: ws)) PHRASES = false.
Proof.
  intros Hd.
  assert (Hall : forallb (fun ph => match ph with
                                    | String c _ :: _ => negb (Char.isdigit c)
                                    | _ => true
                                    end) PHRASES = true) by reflexivity.
  induction PHRASES as [|ph phs IH]; simpl in *; [reflexivity|].
  apply andb_true_iff in Hall as [Hph Hall]. rewrite (IH Hall), orb_false_r.
  destruct ph as [|[|c p] ph]; simpl; try reflexivity.
  destruct (Ascii.eqb_spec d c) as [->|]; [|reflexivity].
  rewrite Hd in Hph. discriminate.
Qed.

Lemma words_numbered w0 ds sep r :
  all Char.isspace w0 = true ->
  ds <> EmptyString -> all Char.isdigit ds = true ->
  exists d w ws,
    Char.isdigit d = true
    /\ words (w0 ++ ds ++ String sep r)%string = String d w :: ws.
Proof.
  intros H0 Hne Hds. rewrite words_space_left by exact H0.
  destruct ds as [|d ds]; [congruence|]. simpl in Hds.
  apply andb_true_iff in Hds as [Hd _].
  destruct (words_first d (ds ++ String sep r)%string (digit_not_space _ Hd))
    as (w & ws & E).
  exists d, w, ws. split; [exact Hd | exact E].
Qed.

(** The heading patterns are tried on the words the specification looks
    at. *)
Lemma candidate_numbered y g rest :
  rmatch NUMBERED (strip y) = Some (g, rest) ->
  exists body,
    group 1 g = Some body
    /\ words (strip body) = words (drop_numbering y).
Proof.
  intros H.
  apply numbered_sound in H
    as (w0 & ds & sep & w1 & body & E & H0 & Hne & Hds & Hsep & H1 & _ & Heol & Hg).
  exists body. split; [exact Hg|].
  destruct (strip_split y) as (a & b & Ey & Ha & Hb).
  rewrite E in Ey.
  assert (Ey' : y = ((a ++ w0) ++ ds
                     ++ String sep (w1 ++ body ++ rest ++ b))%string).
  { rewrite Ey at 1. repeat rewrite append_assoc. simpl.
    repeat rewrite append_assoc. reflexivity. }
  rewrite Ey' at 1.
  rewrite drop_numbering_app;
    [|rewrite all_append, Ha, H0; reflexivity|assumption..].
  rewrite words_strip, words_lstrip, words_space_left by exact H1.
  rewrite words_space_right; [reflexivity|].
  rewrite all_append, Hb, (at_eol_space _ Heol). reflexivity.
Qed.

Lemma candidate_sound text :
  existsb (same_words (words (heading_candidate text))) PHRASES = true ->
  is_heading_line text = true.
Proof.
  unfold heading_candidate, is_heading_line.
  destruct (rmatch NUMBERED (strip (lower text))) as [[g rest]|] eqn:E.
  - destruct (candidate_numbered _ _ _ E) as (body & -> & <-). auto.
  - rewrite words_strip.
    destruct (drop_numbering_cases (lower text))
      as [->|(w0 & ds & sep & r & Ey & H0 & Hne & Hds & _)]; [auto|].
    destruct (words_numbered w0 ds sep r H0 Hne Hds) as (d & w & ws & Hd & Ew).
    rewrite Ey, Ew, (no_digit_phrase _ _ _ Hd). discriminate.
Qed.

Lemma last_ok_separator ds sep :
  is_separator sep = true -> last_ok (ds ++ String sep EmptyString)%string = true.
Proof.
  intros H. apply last_ok_append. simpl.
  rewrite (separator_not_space _ H). reflexivity.
Qed.

Lemma candidate_complete text :
  all Char.isdot text = true ->
  is_heading_line text = true ->
  existsb (same_words (words (heading_candidate text))) PHRASES = true.
Proof.
  unfold heading_candidate, is_heading_line. intros Hdot Hline.
  destruct (rmatch NUMBERED (strip (lower text))) as [[g rest]|] eqn:E.
  - destruct (candidate_numbered _ _ _ E) as (body & -> & ->). exact Hline.
  - rewrite words_strip.
    destruct (drop_numbering_cases (lower text))
      as [Hsame|(w0 & ds & sep & r & Ey & H0 & Hne & Hds & Hsep & Hdrop)].
    + rewrite Hsame in Hline. exact Hline.
    + exfalso. rewrite Hdrop in Hline.
      rewrite <- all_isdot_lower, Ey in Hdot.
      rewrite !all_append in Hdot. simpl in Hdot.
      apply andb_true_iff in Hdot as [_ Hdot].
      apply andb_true_iff in Hdot as [_ Hdot].
      apply andb_true_iff in Hdot as [_ Hdot].
      destruct (lstrip_split (rstrip r)) as (w1 & E1 & H1).
      assert (El : strip (lower text)
                   = (EmptyString ++ ds
                      ++ String sep (w1 ++ lstrip (rstrip r)))%string).
      { rewrite Ey. unfold strip. rewrite lstrip_app_space by exact H0.
        rewrite lstrip_digits by assumption.
        change (ds ++ String sep r)%string
          with (ds ++ String sep EmptyString ++ r)%string.
        rewrite <- append_assoc.
        rewrite rstrip_app_keep by (apply last_ok_separator, Hsep).
        rewrite append_assoc. simpl. rewrite <- E1. reflexivity. }
      rewrite El in E. revert E.
      apply numbered_complete; auto.
      * intros Hbody.
        assert (Hw : words (lstrip r) = []).
        { rewrite words_lstrip, <- words_rstrip, <- words_lstrip, Hbody.
          reflexivity. }
        rewrite Hw, no_empty_phrase in Hline. discriminate.
      * apply all_lstrip, all_rstrip, Hdot.
Qed.

Lemma heading_name_words text :
  words (lower (heading_name text)) = words (drop_numbering (lower text)).
Proof.
  unfold heading_name, title.
  rewrite lower_title_from, <- lower_strip, <- lower_drop_numbering.
  apply words_strip.
Qed.

Lemma heading_line_nonempty text :
  is_heading_line text = true -> is_empty text = false.
Proof.
  destruct text; [|reflexivity]. intros H. vm_compute in H. discriminate.
Qed.

End HeadingFacts.

(** C4: a line that is not, as a whole and without its numbering, a
    recognized heading is not detected as one, whatever heading words it
    contains. *)
Theorem not_heading_line_undetected :
  forall text,
    HeadingSpec.is_heading_line text = false -> _detect_heading text = None.
Proof.
  intros text Hline. unfold _detect_heading.
  destruct (Str.is_empty text); [reflexivity|].
  rewrite PatternFacts.first_match_sections.
  destruct (existsb _ HeadingSpec.PHRASES) eqn:E; [|reflexivity].
  apply HeadingFacts.candidate_sound in E. congruence.
Qed.

Lemma not_heading_line_undetected_witness :
  Str.contains "introduction" (Str.lower "The introduction of new methods...")
  = true
  /\ _detect_heading "The introduction of new methods..." = None.
Proof.
  split; [reflexivity|].
  apply (not_heading_line_undetected "The introduction of new methods...").
  reflexivity.
Defined.

(** C5: a line that is, without its numbering and in lower case, a
    recognized heading is detected, and the name returned is the line
    without its numbering, stripped and title-cased; the words of that
    name are the words of the heading, so nothing of the numbering is
    left.  "1. Introduction" gives "Introduction" and "2) Methodology"
    gives "Methodology". *)
Theorem heading_line_detected :
  (forall text,
     Str.all Char.isdot text = true ->
     HeadingSpec.is_heading_line text = true ->
     _detect_heading text = Some (HeadingSpec.heading_name text)
     /\ existsb (HeadingSpec.same_words
                   (HeadingSpec.words (Str.lower (HeadingSpec.heading_name text))))
                HeadingSpec.PHRASES = true)
  /\ _detect_heading "1. Introduction" = Some "Introduction"
  /\ _detect_heading "2) Methodology" = Some "Methodology".
Proof.
  split; [|split; reflexivity].
  intros text Hdot Hline. split.
  - unfold _detect_heading.
    rewrite (HeadingFacts.heading_line_nonempty _ Hline).
    rewrite PatternFacts.first_match_sections.
    rewrite (HeadingFacts.candidate_complete _ Hdot Hline).
    unfold HeadingSpec.heading_name.
    rewrite NumberingFacts.sub_prefix_strip. reflexivity.
  - rewrite HeadingFacts.heading_name_words. exact Hline.
Qed.

Lemma heading_line_detected_witness :
  _detect_heading "  12.   materials   AND methods  "
  = Some "Materials   And Methods".
Proof.
  apply (proj1 heading_line_detected "  12.   materials   AND methods  ");
    reflexivity.
Defined.

(* ================================================================== *)
(** ** The section classifier *)

Module PredictorFacts.
Import Re ReFacts Patterns Str StrFacts SplitFacts HeadingSpec PatternFacts
       PredictorSpec.

Lemma strip_idem s : strip (strip s) = strip s.
Proof.
  destruct (is_empty (strip s)) eqn:E.
  - apply is_empty_true in E. rewrite E. reflexivity.
  - apply strip_fixed, strip_tight, E.
Qed.

Lemma bracket_ref_complete s :
  starts_with_reference s = true -> matches BRACKET_REF s = true.
Proof.
  destruct s as [|c rest]; [discriminate|]. simpl. intros H.
  apply andb_true_iff in H as [H Hclose].
  apply andb_true_iff in H as [Hopen Hdigits].
  apply Ascii.eqb_eq in Hopen. subst c.
  pose proof (take_drop_while Char.isdigit rest) as E.
  pose proof (all_take_while Char.isdigit rest) as Hds.
  destruct (drop_while Char.isdigit rest) as [|c' r]; [discriminate|].
  apply Ascii.eqb_eq in Hclose. subst c'.
  apply negb_true_iff, is_empty_false in Hdigits.
  rewrite E.
  assert (Hd : denotes BRACKET_REF []
                 (String "[" (take_while Char.isdigit rest
                              ++ String "]" EmptyString))%string r []).
  { unfold BRACKET_REF. cbn [seq denotes].
    exists (String "[" EmptyString),
           (take_while Char.isdigit rest ++ String "]" EmptyString)%string, [].
    split; [reflexivity|]. split; [apply denotes_chr; auto|].
    exists (take_while Char.isdigit rest), (String "]" EmptyString), [].
    split; [reflexivity|].
    split; [apply denotes_plus; auto | apply denotes_chr; auto]. }
  apply matches_complete in Hd. simpl in Hd. rewrite append_assoc in Hd.
  exact Hd.
Qed.

Lemma prefix_rstrip m :
  all (fun c => negb (Char.isspace c)) m = true ->
  forall s, String.prefix m (rstrip s) = String.prefix m s.
Proof.
  induction m as [|a m IH]; intros Hm s.
  - destruct s, (rstrip _); reflexivity.
  - simpl in Hm. apply andb_true_iff in Hm as [Ha Hm].
    apply negb_true_iff in Ha.
    destruct s as [|c s]; [reflexivity|]. simpl.
    destruct (is_empty (rstrip s) && Char.isspace c) eqn:E.
    + apply andb_true_iff in E as [_ Hc].
      destruct (ascii_dec a c) as [->|]; [congruence | reflexivity].
    + simpl. destruct (ascii_dec a c); [apply IH, Hm | reflexivity].
Qed.

Lemma contains_empty m : good_word m = true -> contains m EmptyString = false.
Proof. destruct m; [discriminate | reflexivity]. Qed.

Lemma contains_rstrip m s :
  good_word m = true -> contains m (rstrip s) = contains m s.
Proof.
  intros Hgood. pose proof Hgood as Hm. unfold good_word in Hm.
  apply andb_true_iff in Hm as [_ Hm].
  induction s as [|c s IH]; [reflexivity|].
  assert (Hp : String.prefix m (rstrip (String c s)) = String.prefix m (String c s))
    by (apply prefix_rstrip, Hm).
  cbn [contains]. rewrite <- Hp, <- IH. simpl rstrip.
  destruct (is_empty (rstrip s) && Char.isspace c) eqn:E.
  - apply andb_true_iff in E as [Hr _]. apply is_empty_true in Hr.
    rewrite Hr, (contains_empty _ Hgood).
    destruct m; [discriminate | reflexivity].
  - cbn [contains]. reflexivity.
Qed.

Lemma contains_lstrip m s :
  good_word m = true -> contains m (lstrip s) = contains m s.
Proof.
  intros Hgood. unfold good_word in Hgood.
  apply andb_true_iff in Hgood as [Hne Hm].
  destruct m as [|a m]; [discriminate|]. simpl in Hm.
  apply andb_true_iff in Hm as [Ha _]. apply negb_true_iff in Ha.
  induction s as [|c s IH]; [reflexivity|]. simpl lstrip.
  destruct (Char.isspace c) eqn:Hc; [|reflexivity].
  rewrite IH. cbn [contains]. simpl String.prefix.
  destruct (ascii_dec a c) as [->|]; [congruence | reflexivity].
Qed.

Lemma contains_strip m s :
  good_word m = true -> contains m (strip s) = contains m s.
Proof.
  intros H. unfold strip. rewrite contains_rstrip, contains_lstrip by exact H.
  reflexivity.
Qed.

(** The markers are looked for in the text itself: stripping does not
    matter. *)
Lemma link_marker_low text :
  (let low := strip (lower (strip text)) in
   contains "doi.org" low || contains "http://" low || contains "https://" low)
  = has_link_marker text.
Proof.
  unfold has_link_marker. cbv zeta.
  rewrite <- HeadingFacts.lower_strip, strip_idem.
  rewrite !contains_strip by reflexivity. reflexivity.
Qed.

End PredictorFacts.

(** C6, as the code has it: the rules apply in order to the text stripped
    of white space at both ends.  A text shorter than 20 characters once
    stripped gets the label "CUSTOM".  Any other text that starts, once
    stripped, with a bracketed number, or that contains "doi.org",
    "http://" or "https://" in any case, gets the label "REFERENCES",
    whatever the model would answer; so does
    "[7] Smith et al., 2020, https://doi.org/...". *)
Theorem predict_section_rules :
  forall (CLASSIFIER : string -> string),
    (forall text,
       String.length (Str.strip text) < 20 ->
       predict_section CLASSIFIER text = "CUSTOM")
    /\ (forall text,
          20 <= String.length (Str.strip text) ->
          PredictorSpec.starts_with_reference (Str.strip text) = true
          \/ PredictorSpec.has_link_marker text = true ->
          predict_section CLASSIFIER text = "REFERENCES")
    /\ predict_section CLASSIFIER "[7] Smith et al., 2020, https://doi.org/..."
       = "REFERENCES".
Proof.
  intros CLASSIFIER. split; [|split; [|reflexivity]].
  - intros text Hlen. unfold predict_section.
    apply Nat.ltb_lt in Hlen. rewrite Hlen. reflexivity.
  - intros text Hlen Hrule. unfold predict_section.
    apply Nat.ltb_ge in Hlen. rewrite Hlen. unfold _rule_based_label.
    rewrite PredictorFacts.strip_idem.
    destruct (Re.matches Patterns.BRACKET_REF (Str.strip text)) eqn:Href;
      [reflexivity|].
    pose proof (PredictorFacts.link_marker_low text) as Hlow.
    cbv zeta in Hlow. rewrite Hlow.
    destruct Hrule as [Hrule|Hrule].
    + apply PredictorFacts.bracket_ref_complete in Hrule. congruence.
    + rewrite Hrule. reflexivity.
Qed.

Lemma predict_section_rules_witness :
  predict_section (fun _ => "ABSTRACT") "  Introduction     " = "CUSTOM"
  /\ predict_section (fun _ => "ABSTRACT")
       "  [12] A. Author, A long enough title, 2019.  " = "REFERENCES"
  /\ predict_section (fun _ => "ABSTRACT")
       "See the dataset at HTTPS://example.org/data" = "REFERENCES".
Proof.
  destruct (predict_section_rules (fun _ => "ABSTRACT")) as (Hshort & Hrefs & _).
  split; [|split].
  - apply Hshort. vm_compute. lia.
  - apply Hrefs; [vm_compute; lia | left; reflexivity].
  - apply Hrefs; [vm_compute; lia | right; reflexivity].
Defined.

(** A text of 26 characters that starts with a bracketed number gets
    "CUSTOM", because it has 16 characters once stripped; and the label of
    a short text is "CUSTOM", not "Custom". *)
Lemma predict_section_counterexample :
  String.length Padded.reference = 26
  /\ PredictorSpec.starts_with_reference Padded.reference = true
  /\ predict_section (fun _ => "REFERENCES") Padded.reference = "CUSTOM"
  /\ predict_section (fun _ => "REFERENCES") Padded.reference <> "References"
  /\ predict_section (fun _ => "ABSTRACT") "Abstract" <> "Custom".
Proof.
  repeat split; try reflexivity; vm_compute; discriminate.
Qed.

(* ================================================================== *)
(** ** More about heading detection *)

Module CaseFacts.
Import Str StrFacts HeadingSpec CharFacts.

Lemma isspace_upper c : Char.isspace (Char.upper c) = Char.isspace c.
Proof. by_cases c. Qed.

Lemma upper_lower c : Char.upper (Char.lower c) = Char.upper c.
Proof. by_cases c. Qed.

Lemma upper_upper c : Char.upper (Char.upper c) = Char.upper c.
Proof. by_cases c. Qed.

Lemma iscased_lower c : Char.iscased (Char.lower c) = Char.iscased c.
Proof. by_cases c. Qed.

Lemma iscased_upper c : Char.iscased (Char.upper c) = Char.iscased c.
Proof. by_cases c. Qed.

Lemma title_from_lower b s : title_from b (lower s) = title_from b s.
Proof.
  unfold lower. revert b. induction s as [|c s IH]; intros b; simpl;
    [reflexivity|].
  rewrite IH, iscased_lower, lower_lower, upper_lower. reflexivity.
Qed.

Lemma title_from_idem b s : title_from b (title_from b s) = title_from b s.
Proof.
  revert b. induction s as [|c s IH]; intros b; simpl; [reflexivity|].
  destruct b.
  - rewrite iscased_lower, IH, lower_lower. reflexivity.
  - rewrite iscased_upper, IH, upper_upper. reflexivity.
Qed.

Lemma first_ok_title_from b s : first_ok (title_from b s) = first_ok s.
Proof.
  destruct s as [|c s]; [reflexivity|]. simpl.
  destruct b; rewrite ?isspace_lower, ?isspace_upper; reflexivity.
Qed.

Lemma last_ok_title_from s : forall b, last_ok (title_from b s) = last_ok s.
Proof.
  induction s as [|c s IH]; intros b; [reflexivity|].
  destruct s as [|c' s].
  - simpl. destruct b; rewrite ?isspace_lower, ?isspace_upper; reflexivity.
  - change (title_from b (String c (String c' s)))
      with (String (if b then Char.lower c else Char.upper c)
                   (title_from (Char.iscased c) (String c' s))).
    specialize (IH (Char.iscased c)). simpl in IH. simpl. exact IH.
Qed.

Lemma tight_title s : tight (title s) = tight s.
Proof.
  unfold tight, title. rewrite first_ok_title_from, last_ok_title_from.
  reflexivity.
Qed.

Lemma lower_empty s : is_empty (lower s) = is_empty s.
Proof. destruct s; reflexivity. Qed.

End CaseFacts.

Module DetectFacts.
Import Re ReFacts Patterns Str StrFacts SplitFacts HeadingSpec CharFacts
       WordFacts WordSplit PatternFacts NumberingFacts HeadingFacts CaseFacts.

(** What [_detect_heading] returns, when it returns a name. *)
Lemma detect_some text name :
  _detect_heading text = Some name ->
  name = heading_name text /\ is_heading_line text = true.
Proof.
  unfold _detect_heading. destruct (is_empty text); [discriminate|].
  rewrite first_match_sections.
  destruct (existsb _ PHRASES) eqn:E; [|discriminate].
  intros [= <-]. split.
  - unfold heading_name. rewrite sub_prefix_strip. reflexivity.
  - apply candidate_sound, E.
Qed.

Lemma phrase_words_nonempty ws :
  existsb (same_words ws) PHRASES = true -> ws <> [].
Proof. intros H ->. rewrite no_empty_phrase in H. discriminate. Qed.

Lemma heading_name_nonempty text :
  is_heading_line text = true -> is_empty (strip (drop_numbering text)) = false.
Proof.
  intros H. unfold is_heading_line in H.
  rewrite <- heading_name_words in H. apply phrase_words_nonempty in H.
  unfold heading_name, title in H. rewrite lower_title_from in H.
  destruct (strip (drop_numbering text)); [|reflexivity].
  exfalso. apply H. reflexivity.
Qed.

Lemma heading_name_tight text :
  is_heading_line text = true -> tight (heading_name text) = true.
Proof.
  intros H. unfold heading_name. rewrite tight_title.
  apply strip_tight, heading_name_nonempty, H.
Qed.

(** A text whose words, in lower case, are those of a heading has no
    numbering in front. *)
Lemma phrase_not_numbered s :
  existsb (same_words (words (lower s))) PHRASES = true ->
  drop_numbering s = s.
Proof.
  intros H.
  destruct (drop_numbering_cases s)
    as [E|(w0 & ds & sep & r & E & H0 & Hne & Hds & _)]; [exact E|].
  exfalso.
  assert (El : lower s
               = (lower w0 ++ lower ds ++ String (Char.lower sep) (lower r))%string).
  { rewrite E. unfold lower. clear.
    induction w0 as [|c w0 IH]; simpl; [|rewrite IH; reflexivity].
    induction ds as [|d ds IH]; simpl; [|rewrite IH]; reflexivity. }
  assert (H0' : all Char.isspace (lower w0) = true).
  { unfold lower. rewrite all_map, (all_ext _ Char.isspace); [exact H0|].
    apply isspace_lower. }
  assert (Hds' : all Char.isdigit (lower ds) = true).
  { unfold lower. rewrite all_map, (all_ext _ Char.isdigit); [exact Hds|].
    apply isdigit_lower. }
  assert (Hne' : lower ds <> EmptyString) by (destruct ds; [congruence|discriminate]).
  destruct (words_numbered _ _ (Char.lower sep) (lower r) H0' Hne' Hds')
    as (d & w & ws & Hd & Ew).
  rewrite El, Ew, (no_digit_phrase _ _ _ Hd) in H. discriminate.
Qed.

Lemma candidate_unnumbered text :
  is_heading_line text = true ->
  drop_numbering (lower text) = lower text ->
  existsb (same_words (words (heading_candidate text))) PHRASES = true.
Proof.
  unfold heading_candidate, is_heading_line. intros Hline Hsame.
  destruct (rmatch NUMBERED (strip (lower text))) as [[g rest]|] eqn:E.
  - destruct (candidate_numbered _ _ _ E) as (body & -> & ->). exact Hline.
  - rewrite words_strip. rewrite Hsame in Hline. exact Hline.
Qed.

End DetectFacts.

(** X1: a name returned by heading detection is never empty and has no
    white space at its ends, so a caller that tests the result with
    [if heading:] takes the heading branch whenever a name is returned. *)
Theorem detected_name_is_tight :
  forall text name,
    _detect_heading text = Some name ->
    tight name = true /\ if_truthy (_detect_heading text) = Some name.
Proof.
  intros text name H. pose proof H as H'.
  apply DetectFacts.detect_some in H' as [-> Hline].
  pose proof (DetectFacts.heading_name_tight _ Hline) as Ht.
  split; [exact Ht|]. rewrite H. simpl.
  rewrite (StrFacts.tight_nonempty _ Ht). reflexivity.
Qed.

Lemma detected_name_is_tight_witness :
  tight "Literature Review" = true
  /\ if_truthy (_detect_heading "  3)  literature   review ")
     = Some "Literature   Review".
Proof.
  split; [reflexivity|].
  apply (detected_name_is_tight "  3)  literature   review "
                                "Literature   Review").
  reflexivity.
Defined.

(** X2: heading detection does not look at the case of the letters: two
    texts that are equal once lower-cased get the same answer, name
    included. *)
Theorem detect_heading_ignores_case :
  forall t1 t2,
    Str.lower t1 = Str.lower t2 -> _detect_heading t1 = _detect_heading t2.
Proof.
  intros t1 t2 E. unfold _detect_heading.
  rewrite <- (CaseFacts.lower_empty t1), <- (CaseFacts.lower_empty t2), E.
  destruct (Str.is_empty (Str.lower t2)); [reflexivity|].
  unfold heading_candidate. rewrite E.
  rewrite !NumberingFacts.sub_prefix_strip.
  assert (Ht : forall t,
             Str.title (Str.strip (HeadingSpec.drop_numbering t))
             = Str.title (Str.strip (HeadingSpec.drop_numbering (Str.lower t)))).
  { intros t. unfold Str.title.
    rewrite HeadingFacts.lower_drop_numbering, HeadingFacts.lower_strip.
    rewrite CaseFacts.title_from_lower. reflexivity. }
  rewrite (Ht t1), (Ht t2), E. reflexivity.
Qed.

Lemma detect_heading_ignores_case_witness :
  _detect_heading "1. INTRODUCTION" = _detect_heading "1. introduction".
Proof.
  apply (detect_heading_ignores_case "1. INTRODUCTION" "1. introduction").
  reflexivity.
Defined.

(** X3: a name returned by heading detection is detected again as itself:
    detecting twice changes nothing. *)
Theorem detected_name_is_stable :
  forall text name,
    _detect_heading text = Some name -> _detect_heading name = Some name.
Proof.
  intros text name H.
  apply DetectFacts.detect_some in H as [-> Hline].
  pose proof (DetectFacts.heading_name_tight _ Hline) as Ht.
  assert (Hw : existsb (HeadingSpec.same_words
                          (HeadingSpec.words
                             (Str.lower (HeadingSpec.heading_name text))))
                       HeadingSpec.PHRASES = true).
  { rewrite HeadingFacts.heading_name_words. exact Hline. }
  pose proof (DetectFacts.phrase_not_numbered _ Hw) as Hsame.
  assert (Hline' : HeadingSpec.is_heading_line (HeadingSpec.heading_name text)
                   = true).
  { unfold HeadingSpec.is_heading_line.
    rewrite HeadingFacts.lower_drop_numbering, Hsame. exact Hw. }
  unfold _detect_heading. rewrite (StrFacts.tight_nonempty _ Ht).
  rewrite PatternFacts.first_match_sections.
  rewrite DetectFacts.candidate_unnumbered;
    [|exact Hline'|rewrite HeadingFacts.lower_drop_numbering, Hsame; reflexivity].
  rewrite NumberingFacts.sub_prefix_strip, Hsame.
  rewrite (StrFacts.strip_fixed _ Ht).
  unfold HeadingSpec.heading_name, Str.title.
  rewrite CaseFacts.title_from_idem. reflexivity.
Qed.

Lemma detected_name_is_stable_witness :
  _detect_heading "Materials And Methods" = Some "Materials And Methods".
Proof.
  apply (detected_name_is_stable "2. MATERIALS and methods").
  reflexivity.
Defined.

(* ================================================================== *)
(** ** What the caption pattern accepts *)

Module CaptionFacts.
Import Re ReFacts Patterns Str StrFacts SplitFacts HeadingSpec CharFacts
       PatternFacts CaptionSpec.

Lemma caption_separator c :
  existsb (Ascii.eqb c) (list_ascii_of_string ":.-)") = is_caption_separator c.
Proof. by_cases c. Qed.

Lemma caption_separator_not_digit c :
  is_caption_separator c = true -> Char.isdigit c = false.
Proof. by_cases c. Qed.

Lemma denotes_caption_separator g s s2 g' :
  denotes (oneof ":.-)") g s s2 g'
  <-> exists c,
        s = String c EmptyString /\ is_caption_separator c = true /\ g' = g.
Proof.
  unfold oneof. cbn [denotes]. split; intros (c & E & H & G); exists c;
    rewrite caption_separator in *; auto.
Qed.

Lemma lower_append a b : lower (a ++ b)%string = (lower a ++ lower b)%string.
Proof.
  unfold lower. induction a as [|c a IH]; simpl; [|rewrite IH]; reflexivity.
Qed.

Lemma denotes_chri c g s s2 g' :
  denotes (chri c) g s s2 g'
  <-> lower s = String (Char.lower c) EmptyString /\ g' = g.
Proof.
  unfold chri. cbn [denotes]. split.
  - intros (x & -> & E & ->). apply Ascii.eqb_eq in E.
    unfold lower. cbn [map]. rewrite E. auto.
  - intros [E ->]. destruct s as [|x [|y s]]; try discriminate.
    unfold lower in E. cbn [map] in E. injection E as E.
    exists x. rewrite E, Ascii.eqb_refl. auto.
Qed.

Lemma denotes_liti w :
  forall g s s2 g', denotes (liti w) g s s2 g' <-> lower s = lower w /\ g' = g.
Proof.
  induction w as [|c w IH]; intros g s s2 g'.
  - simpl. split; intros [E ->]; split; auto.
    + subst. reflexivity.
    + destruct s; [reflexivity | discriminate].
  - destruct w as [|c' w].
    + apply denotes_chri.
    + change (liti (String c (String c' w)))
        with (Cat (chri c) (liti (String c' w))).
      cbn [denotes]. split.
      * intros (a & b & gm & -> & Ha & Hb).
        apply denotes_chri in Ha as [Ea ->]. apply IH in Hb as [Eb ->].
        rewrite lower_append, Ea, Eb. auto.
      * intros [E ->]. destruct s as [|x s]; [discriminate|].
        unfold lower in E. cbn [map] in E. injection E as Ex Es.
        exists (String x EmptyString), s, g. split; [reflexivity|]. split.
        -- apply denotes_chri. unfold lower. cbn [map]. rewrite Ex. auto.
        -- apply IH. auto.
Qed.

Lemma prefix_append a b : String.prefix a (a ++ b)%string = true.
Proof.
  induction a as [|c a IH]; simpl; [destruct b; reflexivity|].
  destruct (ascii_dec c c); [exact IH | congruence].
Qed.

Lemma drop_append a b : drop (String.length a) (a ++ b)%string = b.
Proof. induction a as [|c a IH]; simpl; [destruct b; reflexivity | exact IH]. Qed.

Lemma lower_length s : String.length (lower s) = String.length s.
Proof.
  unfold lower. induction s as [|c s IH]; simpl; [|rewrite IH]; reflexivity.
Qed.

(** A text whose lower case starts with [w] starts with a text that is [w]
    in lower case. *)
Lemma prefix_lower_split w :
  forall s,
    String.prefix w (lower s) = true ->
    exists p, s = (p ++ drop (String.length w) s)%string /\ lower p = w.
Proof.
  induction w as [|c w IH]; intros s H.
  - exists EmptyString. split; [destruct s; reflexivity | reflexivity].
  - destruct s as [|x s]; [discriminate|].
    unfold lower in H. cbn [map String.prefix] in H.
    destruct (ascii_dec c (Char.lower x)) as [->|]; [|discriminate].
    destruct (IH s H) as (p & E & Ep).
    exists (String x p). unfold lower in *. cbn [map drop String.length append].
    rewrite <- E, Ep. auto.
Qed.

Lemma caption_tail_app w ds sep sp rest :
  all Char.isspace w = true ->
  ds <> EmptyString -> all Char.isdigit ds = true ->
  is_caption_separator sep = true ->
  sp <> EmptyString -> all Char.isspace sp = true ->
  caption_tail (w ++ ds ++ String sep (sp ++ rest))%string = true.
Proof.
  intros Hw Hne Hds Hsep Hspne Hsp. unfold caption_tail.
  rewrite lstrip_app_space by exact Hw.
  rewrite NumberingFacts.lstrip_digits by assumption.
  rewrite take_while_app, drop_while_app
    by auto using caption_separator_not_digit.
  destruct ds; [congruence|]. destruct sp as [|c2 sp]; [congruence|].
  simpl in *. apply andb_true_iff in Hsp as [-> _]. rewrite Hsep. reflexivity.
Qed.

Lemma caption_tail_split t :
  caption_tail t = true ->
  exists w ds sep c2 rest,
    t = (w ++ ds ++ String sep (String c2 rest))%string
    /\ all Char.isspace w = true
    /\ ds <> EmptyString /\ all Char.isdigit ds = true
    /\ is_caption_separator sep = true
    /\ Char.isspace c2 = true.
Proof.
  unfold caption_tail. intros H. apply andb_true_iff in H as [Hne H].
  destruct (lstrip_split t) as (w & Et & Hw).
  pose proof (take_drop_while Char.isdigit (lstrip t)) as Ed.
  pose proof (all_take_while Char.isdigit (lstrip t)) as Hds.
  destruct (drop_while Char.isdigit (lstrip t)) as [|sep [|c2 rest]];
    try discriminate.
  apply andb_true_iff in H as [Hsep Hc2].
  exists w, (take_while Char.isdigit (lstrip t)), sep, c2, rest.
  rewrite <- Ed. repeat split; auto.
  apply negb_true_iff, is_empty_false in Hne. exact Hne.
Qed.

Lemma tail_denotes w ds sep c2 g :
  all Char.isspace w = true ->
  ds <> EmptyString -> all Char.isdigit ds = true ->
  is_caption_separator sep = true -> Char.isspace c2 = true ->
  forall s2,
    denotes (Cat (Star space)
               (Cat (Plus digit) (Cat (oneof ":.-)") (Plus space))))
            g (w ++ ds ++ String sep (String c2 EmptyString))%string s2 g.
Proof.
  intros Hw Hne Hds Hsep Hc2 s2. cbn [denotes].
  exists w, (ds ++ String sep (String c2 EmptyString))%string, g.
  split; [reflexivity|]. split; [auto|].
  exists ds, (String sep (String c2 EmptyString)), g.
  split; [reflexivity|]. split; [apply denotes_plus; auto|].
  exists (String sep EmptyString), (String c2 EmptyString), g.
  split; [reflexivity|].
  split; [apply denotes_caption_separator; exists sep; auto|].
  apply denotes_plus. simpl. unfold space. rewrite Hc2.
  repeat split. discriminate.
Qed.

Lemma caption_sound s :
  matches FIGURE_CAPTION_PATTERN s = true -> caption_shape s = true.
Proof.
  intros H. apply matches_sound in H as (s1 & s2 & g & -> & H).
  unfold FIGURE_CAPTION_PATTERN, Opt in H. cbn [seq denotes] in H.
  destruct H as (cap & dots & g0 & -> & (g1 & H & ->) & _).
  destruct H as (fig & t0 & g2 & -> & Hfig & H).
  apply denotes_liti in Hfig as [Efig ->].
  destruct H as (opt & t1 & g3 & -> & Hopt & H).
  destruct H as (w & t2 & g4 & -> & [Hw ->] & H).
  destruct H as (ds & t3 & g5 & -> & Hds & H).
  apply denotes_plus in Hds as (Hne & Hds & ->).
  destruct H as (sp0 & sp & g6 & -> & Hsep & Hsp).
  apply denotes_caption_separator in Hsep as (sep & -> & Hsep & ->).
  apply denotes_plus in Hsp as (Hspne & Hsp & ->).
  unfold space, digit in *.
  assert (Htail : caption_tail
                    (w ++ ds ++ String sep (sp ++ dots ++ s2))%string = true)
    by (apply caption_tail_app; assumption).
  unfold caption_shape. apply orb_true_iff.
  destruct Hopt as [(gm & Hure & ->)|[-> ->]].
  - apply denotes_liti in Hure as [Eure ->]. left.
    assert (E : (((fig ++ opt ++ w ++ ds ++ String sep EmptyString ++ sp)
                    ++ dots) ++ s2)%string
                = ((fig ++ opt)
                     ++ w ++ ds ++ String sep (sp ++ dots ++ s2))%string).
    { repeat rewrite append_assoc. simpl. repeat rewrite append_assoc.
      reflexivity. }
    rewrite E.
    assert (El : lower (fig ++ opt)%string = "figure").
    { rewrite lower_append, Efig, Eure. reflexivity. }
    rewrite lower_append, El, prefix_append.
    replace 6 with (String.length (fig ++ opt)%string)
      by (rewrite <- lower_length, El; reflexivity).
    rewrite drop_append, Htail. reflexivity.
  - right.
    assert (E : (((fig ++ EmptyString ++ w ++ ds ++ String sep EmptyString ++ sp)
                    ++ dots) ++ s2)%string
                = (fig ++ w ++ ds ++ String sep (sp ++ dots ++ s2))%string).
    { repeat rewrite append_assoc. simpl. repeat rewrite append_assoc.
      reflexivity. }
    rewrite E.
    assert (El : lower fig = "fig") by exact Efig.
    rewrite lower_append, El, prefix_append.
    replace 3 with (String.length fig)
      by (rewrite <- lower_length, El; reflexivity).
    rewrite drop_append, Htail. reflexivity.
Qed.

Lemma caption_complete s :
  caption_shape s = true -> matches FIGURE_CAPTION_PATTERN s = true.
Proof.
  unfold caption_shape. intros H. apply orb_true_iff in H as [H|H];
    apply andb_true_iff in H as [Hp Ht];
    apply prefix_lower_split in Hp as (p & Es & Ep);
    apply caption_tail_split in Ht
      as (w & ds & sep & c2 & rest & Et & Hw & Hne & Hds & Hsep & Hc2);
    simpl String.length in Es; rewrite Et in Es.
  - destruct p as [|a1 [|a2 [|a3 p3]]]; try discriminate.
    assert (E3 : lower (String a1 (String a2 (String a3 EmptyString))) = "fig"
                 /\ lower p3 = "ure").
    { unfold lower in *. cbn [map] in *. injection Ep as E1 E2 E3 E4.
      rewrite E1, E2, E3, E4. auto. }
    destruct E3 as [Efig Eure].
    set (fig := String a1 (String a2 (String a3 EmptyString))) in *.
    set (tail := (w ++ ds ++ String sep (String c2 EmptyString))%string).
    assert (Hd : denotes FIGURE_CAPTION_PATTERN []
                   ((fig ++ p3 ++ tail) ++ EmptyString)%string rest
                   [(1, (fig ++ p3 ++ tail)%string); (2, p3)]).
    { unfold FIGURE_CAPTION_PATTERN, Opt. cbn [seq denotes].
      exists (fig ++ p3 ++ tail)%string, EmptyString,
             [(1, (fig ++ p3 ++ tail)%string); (2, p3)].
      split; [reflexivity|]. split; [|auto].
      exists [(2, p3)]. split; [|reflexivity].
      exists fig, (p3 ++ tail)%string, []. split; [reflexivity|].
      split; [apply denotes_liti; auto|].
      exists p3, tail, [(2, p3)]. split; [reflexivity|]. split.
      - left. exists []. split; [apply denotes_liti; auto | reflexivity].
      - apply tail_denotes; assumption. }
    apply matches_complete in Hd. rewrite Es.
    replace (String a1 (String a2 (String a3 p3))
               ++ w ++ ds ++ String sep (String c2 rest))%string
      with (((fig ++ p3 ++ tail) ++ EmptyString) ++ rest)%string; [exact Hd|].
    unfold tail, fig. repeat rewrite append_assoc. simpl.
    repeat rewrite append_assoc. simpl. repeat rewrite append_nil_r.
    reflexivity.
  - set (tail := (w ++ ds ++ String sep (String c2 EmptyString))%string).
    assert (Hd : denotes FIGURE_CAPTION_PATTERN []
                   ((p ++ EmptyString ++ tail) ++ EmptyString)%string rest
                   [(1, (p ++ EmptyString ++ tail)%string)]).
    { unfold FIGURE_CAPTION_PATTERN, Opt. cbn [seq denotes].
      exists (p ++ EmptyString ++ tail)%string, EmptyString,
             [(1, (p ++ EmptyString ++ tail)%string)].
      split; [reflexivity|]. split; [|auto].
      exists []. split; [|reflexivity].
      exists p, (EmptyString ++ tail)%string, []. split; [reflexivity|].
      split; [apply denotes_liti; auto|].
      exists EmptyString, tail, []. split; [reflexivity|]. split.
      - right. auto.
      - apply tail_denotes; assumption. }
    apply matches_complete in Hd. rewrite Es.
    replace (p ++ w ++ ds ++ String sep (String c2 rest))%string
      with (((p ++ EmptyString ++ tail) ++ EmptyString) ++ rest)%string;
      [exact Hd|].
    unfold tail. simpl. repeat rewrite append_assoc. simpl.
    repeat rewrite append_assoc. reflexivity.
Qed.

Lemma caption_matches s :
  matches FIGURE_CAPTION_PATTERN s = caption_shape s.
Proof.
  apply eq_true_iff_eq. split; [apply caption_sound | apply caption_complete].
Qed.

Lemma caption_shape_nonempty s : caption_shape s = true -> is_empty s = false.
Proof. destruct s; [discriminate | reflexivity]. Qed.

Lemma is_caption_line line : is_caption line = caption_line line.
Proof.
  destruct line as [l|]; [|reflexivity]. unfold is_caption. simpl.
  destruct (is_empty l) eqn:E.
  - apply is_empty_true in E. subst. reflexivity.
  - apply caption_matches.
Qed.

End CaptionFacts.

(** X4: caption detection accepts exactly the lines that start with "fig"
    or "figure" in any case, then optional white space, digits, one of
    [:], [.], [-], [)] and a white space character, whatever follows.  It
    returns the previous line when that is such a line, otherwise the
    current line when that is one, otherwise nothing. *)
Theorem detect_caption_shape :
  forall previous current,
    _detect_caption previous current
    = if CaptionSpec.caption_line previous then previous
      else if CaptionSpec.caption_line current then current
      else None.
Proof.
  intros previous current. unfold _detect_caption.
  rewrite !CaptionFacts.is_caption_line. reflexivity.
Qed.

(* ================================================================== *)
(** ** Placeholders for figures *)

Module VirtualFacts.
Import Str StrFacts.

Lemma prefix_app_right n s y :
  String.prefix n s = true -> String.prefix n (s ++ y)%string = true.
Proof.
  revert s. induction n as [|a n IH]; intros s H.
  - destruct (s ++ y)%string; reflexivity.
  - destruct s as [|c s]; [discriminate|]. simpl in *.
    destruct (ascii_dec a c); [apply IH, H | discriminate].
Qed.

Lemma contains_app_right n s y :
  contains n s = true -> contains n (s ++ y)%string = true.
Proof.
  induction s as [|c s IH]; intros H.
  - simpl in H. rewrite orb_false_r in H.
    destruct n; [|discriminate]. destruct y; reflexivity.
  - cbn [contains] in H. apply orb_true_iff in H as [H|H].
    + change (String c s ++ y)%string with (String c (s ++ y)%string).
      cbn [contains].
      change (String c (s ++ y)%string) with (String c s ++ y)%string.
      rewrite (prefix_app_right _ _ _ H). reflexivity.
    + change (String c s ++ y)%string with (String c (s ++ y)%string).
      cbn [contains]. rewrite (IH H). apply orb_true_r.
Qed.

Lemma contains_app_left n x s :
  contains n s = true -> contains n (x ++ s)%string = true.
Proof.
  intros H. induction x as [|c x IH]; [exact H|].
  change (String c x ++ s)%string with (String c (x ++ s)%string).
  cbn [contains]. rewrite IH. apply orb_true_r.
Qed.

Lemma keyword_in_context x a y :
  existsb (fun k => contains k (lower a)) VIRTUAL_KEYWORDS = true ->
  existsb (fun k => contains k (lower (x ++ a ++ y)%string)) VIRTUAL_KEYWORDS
  = true.
Proof.
  rewrite !existsb_exists. intros (k & Hin & Hk). exists k.
  split; [exact Hin|].
  rewrite !CaptionFacts.lower_append.
  apply contains_app_left, contains_app_right, Hk.
Qed.

End VirtualFacts.

(** X5: [detect_virtual_image] answers for the text in lower case: two
    texts that differ only in case are both placeholders or both not.  A
    text that is a placeholder stays one inside any longer text, so a
    keyword inside a longer word counts.  The placeholder carries the text
    as given as its caption, has no path and is virtual. *)
Theorem virtual_image_keywords :
  (forall t1 t2,
     Str.lower t1 = Str.lower t2 ->
     (detect_virtual_image t1 = None <-> detect_virtual_image t2 = None))
  /\ (forall x a y,
        detect_virtual_image a <> None ->
        detect_virtual_image (x ++ a ++ y)%string
        = Some (Image None (Some (x ++ a ++ y)%string) EmptyString true)).
Proof.
  split.
  - intros t1 t2 E. unfold detect_virtual_image.
    rewrite <- (CaseFacts.lower_empty t1), <- (CaseFacts.lower_empty t2), E.
    destruct (Str.is_empty (Str.lower t2)); [tauto|].
    destruct (existsb _ VIRTUAL_KEYWORDS); split; congruence.
  - intros x a y H. unfold detect_virtual_image in *.
    destruct (Str.is_empty a) eqn:Ea; [congruence|].
    destruct (existsb (fun k => Str.contains k (Str.lower a)) VIRTUAL_KEYWORDS)
      eqn:Ek; [|congruence].
    rewrite (VirtualFacts.keyword_in_context x a y Ek).
    destruct (x ++ a ++ y)%string eqn:E; [|reflexivity].
    destruct x; [|discriminate]. destruct a; discriminate.
Qed.

Lemma virtual_image_keywords_witness :
  (detect_virtual_image "See the PLOT below" = None
   <-> detect_virtual_image "see the plot below" = None)
  /\ detect_virtual_image "We reconfigured the device"
     = Some (Image None (Some "We reconfigured the device") EmptyString true).
Proof.
  destruct virtual_image_keywords as [Hcase Hctx]. split.
  - apply (Hcase "See the PLOT below" "see the plot below"). reflexivity.
  - apply (Hctx "We recon" "figure" "d the device"). vm_compute. discriminate.
Defined.

(* ================================================================== *)
(** ** The structured text *)

Module StructuredFacts.
Import Dict DictFacts HandlerFacts.

Lemma structured_lines_listed h l :
  (forall kv, In kv l -> get (fst kv) (sections h) = Some (snd kv)) ->
  structured_lines (List.map fst l) h = (inr (flat_map section_lines l), h).
Proof.
  induction l as [|[k v] l IH]; intros Hall; [reflexivity|].
  simpl. unfold bind at 1, get_sections at 1.
  pose proof (Hall (k, v) (or_introl eq_refl)) as Hk. simpl in Hk.
  rewrite Hk.
  rewrite (bind_ok _ (IH (fun kv Hin => Hall kv (or_intror Hin)))).
  unfold ret, section_lines. simpl. rewrite <- app_assoc. reflexivity.
Qed.

Lemma structured_text_model m last :
  NoDup (keys m) ->
  get_structured_text (mkHandler m (keys m) last)
  = (inr (Str.join newline (flat_map section_lines m)),
     mkHandler m (keys m) last).
Proof.
  intros Hnd. unfold get_structured_text, bind at 1, get_order. simpl.
  unfold keys.
  rewrite (bind_ok _ (structured_lines_listed (mkHandler m (keys m) last) m
                        (fun kv Hin => in_get (fst kv) m (snd kv) Hnd
                                         ltac:(destruct kv; exact Hin)))).
  reflexivity.
Qed.

Lemma structured_lines_present order h :
  (forall name, In name order -> mem name (sections h) = true) ->
  exists out, structured_lines order h = (inr out, h).
Proof.
  induction order as [|sec rest IH]; intros Hall; [exists []; reflexivity|].
  simpl. unfold bind at 1, get_sections at 1.
  pose proof (Hall sec (or_introl eq_refl)) as Hsec. unfold mem in Hsec.
  destruct (get sec (sections h)) as [v|]; [|discriminate].
  destruct (IH (fun n Hin => Hall n (or_intror Hin))) as (out & Hout).
  rewrite (bind_ok _ Hout). eexists. reflexivity.
Qed.

Lemma structured_lines_missing order h :
  (exists name, In name order /\ mem name (sections h) = false) ->
  exists key,
    structured_lines order h = (inl (KeyError key), h)
    /\ In key order /\ mem key (sections h) = false.
Proof.
  induction order as [|sec rest IH]; intros (name & Hin & Hmem);
    [destruct Hin|].
  simpl. unfold bind at 1, get_sections at 1.
  destruct (get sec (sections h)) as [v|] eqn:Hsec.
  - destruct Hin as [->|Hin].
    + unfold mem in Hmem. rewrite Hsec in Hmem. discriminate.
    + destruct (IH (ex_intro _ name (conj Hin Hmem))) as (key & Hrun & Hk & Hm).
      exists key. unfold bind. rewrite Hrun. auto.
  - exists sec. unfold raise, mem. rewrite Hsec. auto.
Qed.

End StructuredFacts.

(** X6: after [parse_text] or [parse_docx] has returned,
    [get_structured_text] returns too and leaves the handler as it is; the
    text is, for each section of the model in order, its title between
    [===] marks, the lines of its elements and an empty line, joined by
    line feeds. *)
Theorem structured_text_after_parse :
  (forall text h,
     exists m h',
       parse_text text h = (inr m, h')
       /\ get_structured_text h'
          = (inr (Str.join newline (flat_map section_lines m)), h'))
  /\ (forall Document tempdir writable path doc h,
        Document path = Some doc ->
        exists m h',
          parse_docx Document tempdir writable path h = (inr m, h')
          /\ get_structured_text h'
             = (inr (Str.join newline (flat_map section_lines m)), h')).
Proof.
  split.
  - intros text h. eexists. eexists.
    split; [apply ModelFacts.parse_text_closed|].
    apply StructuredFacts.structured_text_model, ClosedForms.model_of_nodup,
      Finalized.text_order_nodup.
  - intros Document tempdir writable path doc h Hdoc. eexists. eexists.
    split; [apply (ClosedForms.parse_docx_closed _ _ _ _ _ h Hdoc)|].
    apply StructuredFacts.structured_text_model, ClosedForms.model_of_nodup,
      Finalized.docx_order_nodup.
Qed.

Lemma structured_text_after_parse_witness :
  exists m h',
    parse_docx (fun _ => Some Broken.doc) "/tmp" (fun _ => true) "paper.docx"
               new_handler = (inr m, h')
    /\ get_structured_text h'
       = (inr (Str.join newline (flat_map section_lines m)), h').
Proof.
  apply (proj2 structured_text_after_parse (fun _ => Some Broken.doc) "/tmp"
           (fun _ => true) "paper.docx" Broken.doc new_handler).
  reflexivity.
Defined.

(** X7: [get_structured_text] raises a key error exactly when the order
    names a section that the sections do not have, and the key of the
    error is such a name; otherwise it returns.  The handler is unchanged
    either way. *)
Theorem structured_text_key_error :
  forall h,
    ((forall name, In name (detected_order h) ->
                   Dict.mem name (sections h) = true) ->
     exists out, get_structured_text h = (inr out, h))
    /\ ((exists name, In name (detected_order h)
                      /\ Dict.mem name (sections h) = false) ->
        exists key,
          get_structured_text h = (inl (KeyError key), h)
          /\ In key (detected_order h)
          /\ Dict.mem key (sections h) = false).
Proof.
  intros h. split.
  - intros Hall.
    destruct (StructuredFacts.structured_lines_present _ h Hall) as (out & Hout).
    unfold get_structured_text, bind at 1, get_order.
    rewrite (HandlerFacts.bind_ok _ Hout). eexists. reflexivity.
  - intros Hmiss.
    destruct (StructuredFacts.structured_lines_missing _ h Hmiss)
      as (key & Hrun & Hk & Hm).
    exists key. unfold get_structured_text, bind at 1, get_order.
    unfold bind. rewrite Hrun. auto.
Qed.

Lemma structured_text_key_error_witness :
  (exists out, get_structured_text Scenario.used_handler
               = (inr out, Scenario.used_handler))
  /\ (exists key,
        get_structured_text (mkHandler [] ["Abstract"] None)
        = (inl (KeyError key), mkHandler [] ["Abstract"] None)
        /\ In key ["Abstract"]
        /\ Dict.mem key [] = false).
Proof.
  split.
  - apply (proj1 (structured_text_key_error Scenario.used_handler)).
    intros name [<-|[]]. reflexivity.
  - apply (proj2 (structured_text_key_error (mkHandler [] ["Abstract"] None))).
    exists "Abstract". split; [left; reflexivity | reflexivity].
Defined.

(* ================================================================== *)
(** ** Wrapping a text *)

Module WrapFacts.
Import Str StrFacts SplitFacts HeadingSpec WordFacts.

Lemma words_good s : forallb good_word (words s) = true.
Proof.
  induction s as [|c s IH]; [reflexivity|].
  cbn [words]. destruct (Char.isspace c) eqn:Hc; [exact IH|].
  assert (Hone : good_word (String c EmptyString) = true)
    by (unfold good_word; simpl; rewrite Hc; reflexivity).
  destruct s as [|c' s']; [cbn [forallb]; rewrite Hone; reflexivity|].
  destruct (Char.isspace c').
  - cbn [forallb]. rewrite Hone, IH. reflexivity.
  - destruct (words (String c' s')) as [|w ws];
      [cbn [forallb]; rewrite Hone; reflexivity|].
    cbn [forallb] in *. apply andb_true_iff in IH as [Hw Hws].
    rewrite Hws, andb_true_r.
    unfold good_word in *. cbn [is_empty all negb]. rewrite Hc.
    apply andb_true_iff in Hw as [_ Hw]. rewrite Hw. reflexivity.
Qed.

Lemma good_tight w : good_word w = true -> tight w = true.
Proof.
  unfold good_word. intros H. apply andb_true_iff in H as [Hne Hall].
  assert (Hlast : forall s, is_empty s = false ->
                    all (fun c => negb (Char.isspace c)) s = true ->
                    last_ok s = true).
  { induction s as [|c s IH]; [discriminate|]. intros _ Hs.
    simpl in Hs. apply andb_true_iff in Hs as [Hc Hs].
    destruct s as [|c' s]; [exact Hc|]. apply IH; [reflexivity | exact Hs]. }
  unfold tight. rewrite Hlast; [|apply negb_true_iff, Hne|exact Hall].
  destruct w; [discriminate|]. simpl in *.
  apply andb_true_iff in Hall as [-> _]. reflexivity.
Qed.

Lemma words_single w : good_word w = true -> words w = [w].
Proof.
  intros H. rewrite <- (append_nil_r w) at 1.
  rewrite words_word; [reflexivity | exact H | reflexivity].
Qed.

Lemma words_cons c s :
  Char.isspace c = false ->
  words (String c s)
  = if starts_space s then String c EmptyString :: words s
    else match words s with
         | w :: ws => String c w :: ws
         | [] => [String c EmptyString]
         end.
Proof.
  intros Hc. cbn [words]. rewrite Hc. destruct s as [|c' s']; [reflexivity|].
  cbn [starts_space]. reflexivity.
Qed.

(** The words on both sides of white space. *)
Lemma words_app_sep a sp b :
  sp <> EmptyString -> all Char.isspace sp = true ->
  words (a ++ sp ++ b)%string = words a ++ words b.
Proof.
  intros Hne Hsp. induction a as [|c a IH].
  - simpl. apply words_space_left, Hsp.
  - change (String c a ++ sp ++ b)%string
      with (String c (a ++ sp ++ b)%string).
    destruct (Char.isspace c) eqn:Hc.
    + cbn [words]. rewrite Hc. exact IH.
    + rewrite (words_cons c (a ++ sp ++ b)%string Hc), (words_cons c a Hc), IH.
      destruct a as [|c' a'].
      * assert (Hs : starts_space (EmptyString ++ sp ++ b)%string = true).
        { destruct sp as [|c2 sp']; [congruence|]. simpl in *.
          apply andb_true_iff in Hsp. apply Hsp. }
        rewrite Hs. reflexivity.
      * change (starts_space (String c' a' ++ sp ++ b)%string)
          with (Char.isspace c').
        cbn [starts_space].
        destruct (Char.isspace c') eqn:Hc'; [reflexivity|].
        destruct (words_first c' a' Hc') as (w0 & ws0 & E). rewrite E.
        reflexivity.
Qed.

Lemma join_line line w :
  line = EmptyString \/ tight line = true -> good_word w = true ->
  tight (strip (line ++ " " ++ w)%string) = true
  /\ words (strip (line ++ " " ++ w)%string) = words line ++ [w]
  /\ String.length (strip (line ++ " " ++ w)%string)
     <= String.length line + String.length w + 1.
Proof.
  intros Hline Hw. pose proof (good_tight _ Hw) as Htw.
  rewrite words_strip, words_app_sep by (discriminate || reflexivity).
  rewrite (words_single _ Hw).
  destruct Hline as [->|Hline].
  - change (EmptyString ++ " " ++ w)%string with (" " ++ w)%string.
    rewrite (NumberingFacts.strip_app_space " " w eq_refl).
    rewrite (strip_fixed _ Htw). repeat split; auto. lia.
  - assert (Ht : tight (line ++ " " ++ w)%string = true)
      by (apply tight_append; assumption).
    rewrite (strip_fixed _ Ht). repeat split; auto.
    rewrite !length_append. simpl. lia.
Qed.

Lemma wrap_words_words width ws :
  forall line,
    forallb good_word ws = true ->
    line = EmptyString \/ tight line = true ->
    flat_map words (wrap_words ws line width) = words line ++ ws.
Proof.
  induction ws as [|w rest IH]; intros line Hgood Hline.
  - simpl. destruct (is_empty line) eqn:E.
    + apply is_empty_true in E. subst. reflexivity.
    + simpl. reflexivity.
  - simpl in Hgood. apply andb_true_iff in Hgood as [Hw Hrest].
    destruct (join_line line w Hline Hw) as (Ht & Ewords & _).
    cbn [wrap_words]. destruct (String.length line + String.length w + 1 <=? width).
    + rewrite IH by auto. rewrite Ewords, <- app_assoc. reflexivity.
    + simpl. rewrite IH by auto using good_tight.
      rewrite (words_single _ Hw). reflexivity.
Qed.

Lemma wrap_words_bound width ws :
  forall line,
    forallb good_word ws = true ->
    Forall (fun w => String.length w <= width) ws ->
    line = EmptyString \/ tight line = true ->
    String.length line <= width ->
    Forall (fun l => String.length l <= width) (wrap_words ws line width).
Proof.
  induction ws as [|w rest IH]; intros line Hgood Hlen Hline Hl.
  - simpl. destruct (is_empty line); repeat constructor. exact Hl.
  - simpl in Hgood. apply andb_true_iff in Hgood as [Hw Hrest].
    inversion Hlen as [|? ? Hwlen Hrestlen]; subst.
    destruct (join_line line w Hline Hw) as (Ht & _ & Hjl).
    cbn [wrap_words].
    destruct (String.length line + String.length w + 1 <=? width) eqn:Hfit.
    + apply Nat.leb_le in Hfit. apply IH; auto. lia.
    + constructor; [exact Hl|]. apply IH; auto using good_tight.
Qed.

Lemma wrap_words_nonempty width ws :
  forall line,
    forallb good_word ws = true ->
    tight line = true ->
    ~ In EmptyString (wrap_words ws line width).
Proof.
  induction ws as [|w rest IH]; intros line Hgood Hline.
  - simpl. rewrite (tight_nonempty _ Hline). intros [E|[]].
    subst. discriminate.
  - simpl in Hgood. apply andb_true_iff in Hgood as [Hw Hrest].
    destruct (join_line line w (or_intror Hline) Hw) as (Ht & _ & _).
    cbn [wrap_words]. destruct (String.length line + String.length w + 1 <=? width).
    + apply IH; assumption.
    + intros [E|Hin]; [subst; discriminate|].
      revert Hin. apply IH; auto using good_tight.
Qed.

End WrapFacts.

(** X8: [_wrap] keeps the words of the text and their order: the words of
    the lines it returns, taken in order, are the words of the text,
    whatever the width. *)
Theorem wrap_keeps_words :
  forall text width,
    flat_map HeadingSpec.words (_wrap text width) = HeadingSpec.words text.
Proof.
  intros text width. unfold _wrap.
  rewrite WrapFacts.wrap_words_words;
    [reflexivity | apply WrapFacts.words_good | left; reflexivity].
Qed.

(** X9: when no word of the text is longer than the width, no line that
    [_wrap] returns is longer than the width. *)
Theorem wrap_respects_width :
  forall text width,
    Forall (fun w => String.length w <= width) (HeadingSpec.words text) ->
    Forall (fun l => String.length l <= width) (_wrap text width).
Proof.
  intros text width H. unfold _wrap.
  apply WrapFacts.wrap_words_bound;
    [apply WrapFacts.words_good | exact H | left; reflexivity | simpl; lia].
Qed.

Lemma wrap_respects_width_witness :
  Forall (fun l => String.length l <= 12)
         (_wrap "The quick brown fox jumps over the lazy dog" 12).
Proof.
  apply (wrap_respects_width "The quick brown fox jumps over the lazy dog" 12).
  vm_compute. repeat constructor.
Defined.

(** X10: [_wrap] returns an empty line exactly when the first word of the
    text has at least [width] characters: the test counts one character
    for a space even in front of the first word, so that word does not
    fit the empty line, which is then put out. *)
Theorem wrap_empty_line :
  forall text width,
    In EmptyString (_wrap text width)
    <-> exists w ws,
          HeadingSpec.words text = w :: ws /\ width <= String.length w.
Proof.
  intros text width. unfold _wrap.
  pose proof (WrapFacts.words_good text) as Hgood.
  destruct (HeadingSpec.words text) as [|w ws].
  - simpl. split; [tauto|]. intros (w & ws & E & _). discriminate.
  - simpl in Hgood. apply andb_true_iff in Hgood as [Hw Hws].
    destruct (WrapFacts.join_line EmptyString w (or_introl eq_refl) Hw)
      as (Ht & _ & _).
    cbn [wrap_words String.length Nat.add].
    destruct (String.length w + 1 <=? width) eqn:Hfit.
    + apply Nat.leb_le in Hfit. split.
      * intros Hin. exfalso.
        revert Hin. apply WrapFacts.wrap_words_nonempty; assumption.
      * intros (w' & ws' & [= <- <-] & Hlen). lia.
    + apply Nat.leb_gt in Hfit. split.
      * intros _. exists w, ws. split; [reflexivity | lia].
      * intros _. left. reflexivity.
Qed.

(* ================================================================== *)
(** ** What a parse keeps *)

Module KeptFacts.
Import Dict DictFacts Spec DocxSpec HandlerFacts ModelFacts ClosedForms
       RunFacts Kept.

Lemma flat_map_model o (l : log) :
  flat_map snd (model_of o l) = flat_map (fun n => placed_in n l) o.
Proof.
  unfold model_of. induction o as [|n o IH]; simpl; [reflexivity|].
  destruct (placed_in n l) eqn:E; simpl; rewrite IH; reflexivity.
Qed.

Lemma placed_in_cons_other n s e (l : log) :
  n <> s -> placed_in n ((s, e) :: l) = placed_in n l.
Proof.
  intros H. unfold placed_in. simpl.
  destruct (String.eqb_spec n s); [contradiction | reflexivity].
Qed.

Lemma placed_in_cons_same s e (l : log) :
  placed_in s ((s, e) :: l) = e :: placed_in s l.
Proof. unfold placed_in. simpl. rewrite String.eqb_refl. reflexivity. Qed.

Lemma flat_map_placed_other o s e (l : log) :
  ~ In s o ->
  flat_map (fun n => placed_in n ((s, e) :: l)) o
  = flat_map (fun n => placed_in n l) o.
Proof.
  induction o as [|n o IH]; intros H; [reflexivity|]. simpl flat_map.
  rewrite placed_in_cons_other by (intros ->; apply H; left; reflexivity).
  rewrite IH by (intros Hs; apply H; right; exact Hs). reflexivity.
Qed.

(** Grouping by section loses nothing and repeats nothing. *)
Lemma grouped_permutation o (l : log) :
  NoDup o -> (forall p, In p l -> In (fst p) o) ->
  Permutation (flat_map (fun n => placed_in n l) o) (List.map snd l).
Proof.
  intros Hnd. induction l as [|[s e] l IH]; intros Hin.
  - simpl. replace (flat_map (fun n => placed_in n []) o) with (@nil element);
      [constructor|].
    clear. induction o as [|n o IHo]; [reflexivity|]. exact IHo.
  - assert (Hs : In s o) by (apply (Hin (s, e)); left; reflexivity).
    apply in_split in Hs as (o1 & o2 & ->).
    apply NoDup_remove in Hnd as [Hnd' Hnotin].
    rewrite flat_map_app. simpl flat_map. rewrite placed_in_cons_same.
    rewrite !flat_map_placed_other
      by (intros H; apply Hnotin, in_or_app; auto).
    simpl. etransitivity; [symmetry; apply Permutation_middle|].
    constructor.
    specialize (IH (fun p Hp => Hin p (or_intror Hp))).
    rewrite flat_map_app in IH. simpl in IH. exact IH.
Qed.

Lemma model_permutation o (l : log) :
  NoDup o -> (forall p, In p l -> In (fst p) o) ->
  Permutation (flat_map snd (model_of o l)) (List.map snd l).
Proof.
  intros Hnd Hin. rewrite flat_map_model. apply grouped_permutation; assumption.
Qed.

Lemma runs_cover lines :
  forall cur run,
    List.concat (List.map snd (text_runs cur run lines))
    = run ++ body_lines lines.
Proof.
  induction lines as [|line rest IH]; intros cur run.
  - simpl. destruct run; simpl; rewrite ?app_nil_r; reflexivity.
  - unfold body_lines. simpl. fold (body_lines rest).
    destruct (classify line) as [|name|stripped]; simpl.
    + rewrite map_app, concat_app, IH.
      destruct run; simpl; rewrite ?app_nil_r; reflexivity.
    + rewrite map_app, concat_app, IH.
      destruct run; simpl; rewrite ?app_nil_r; reflexivity.
    + rewrite IH, <- app_assoc. reflexivity.
Qed.

Lemma text_log_in_order lines p :
  In p (text_log "Uncategorized" [] lines) -> In (fst p) (text_order lines).
Proof.
  intros H. apply Finalized.text_runs_in_order.
  rewrite <- Finalized.text_log_names. apply in_map, H.
Qed.

Lemma docx_log_section im blocks :
  forall cur last p,
    In p (docx_log im blocks cur last) ->
    fst p = cur \/ In (fst p) (docx_headings blocks).
Proof.
  induction blocks as [|b rest IH]; intros cur last p; [intros []|].
  destruct b as [para|rows|]; unfold docx_headings; cbn [docx_log flat_map];
    fold (docx_headings rest).
  - destruct (paragraph_heading para) as [name|].
    + intros H. destruct (IH _ _ _ H) as [->|Hin]; right;
        [left; reflexivity | right; exact Hin].
    + simpl app.
      assert (Hgen : forall here,
                 (forall q, In q here -> fst q = cur) ->
                 In p (here
                       ++ docx_log im rest cur
                            (Some (Str.strip (para_text para)))) ->
                 fst p = cur \/ In (fst p) (docx_headings rest)).
      { intros here Hhere H. apply in_app_or in H as [H|H];
          [left; apply Hhere, H | apply (IH _ _ _ H)]. }
      destruct (_extract_images_from_paragraph para im) as [|img imgs].
      * apply Hgen. intros q Hq.
        destruct (Str.is_empty (Str.strip (para_text para)));
          [destruct Hq | destruct Hq as [<-|[]]; reflexivity].
      * apply (Hgen (List.map
                       (fun i => (cur,
                                  set_caption
                                    (_detect_caption last
                                       (Some (Str.strip (para_text para)))) i))
                       (img :: imgs))).
        intros q Hq. apply in_map_iff in Hq as (i & <- & _).
        reflexivity.
  - simpl app. intros [<-|H]; [left; reflexivity | apply (IH _ _ _ H)].
  - simpl app. apply IH.
Qed.

Lemma docx_log_in_order im blocks p :
  In p (docx_log im blocks "Uncategorized" None) ->
  In (fst p) (docx_order blocks).
Proof.
  intros H. apply fold_add_name_in.
  destruct (docx_log_section _ _ _ _ _ H) as [->|Hin];
    [left; left; reflexivity | right; exact Hin].
Qed.

Lemma extracted_image_plain para im img :
  In img (_extract_images_from_paragraph para im) ->
  exists path alt, img = Image path None alt false.
Proof.
  unfold _extract_images_from_paragraph. intros H.
  apply in_flat_map in H as (run & _ & H).
  apply in_flat_map in H as (n & _ & H).
  unfold images_of_node in H. apply in_flat_map in H as ([attr value] & _ & H).
  destruct (Str.contains "embed" attr); [|destruct H].
  destruct H as [<-|[]]. eauto.
Qed.

Lemma uncaption_images para im c :
  List.map (fun img => set_caption None (set_caption c img))
           (_extract_images_from_paragraph para im)
  = _extract_images_from_paragraph para im.
Proof.
  rewrite <- (map_id (_extract_images_from_paragraph para im)) at 2.
  apply map_ext_in. intros img Hin.
  destruct (extracted_image_plain _ _ _ Hin) as (path & alt & ->).
  reflexivity.
Qed.

Lemma docx_log_elements im blocks :
  forall cur last,
    List.map (set_caption None) (List.map snd (docx_log im blocks cur last))
    = flat_map (block_elements im) blocks.
Proof.
  induction blocks as [|b rest IH]; intros cur last; [reflexivity|].
  destruct b as [para|rows|]; cbn [docx_log flat_map block_elements].
  - destruct (paragraph_heading para) as [name|]; [apply IH|].
    pose proof (uncaption_images para im
                  (_detect_caption last (Some (Str.strip (para_text para)))))
      as Himgs.
    destruct (_extract_images_from_paragraph para im) as [|img imgs].
    + rewrite !map_app, IH.
      destruct (Str.is_empty (Str.strip (para_text para))); reflexivity.
    + rewrite !map_app, IH, !map_map. cbn [snd].
      rewrite Himgs. reflexivity.
  - cbn [List.map snd set_caption]. rewrite IH. reflexivity.
  - apply IH.
Qed.

End KeptFacts.

(** X11: [parse_text] loses no line and repeats none.  The elements of the
    model, all sections together, are the runs of the text, each joined by
    single spaces, in some order; and the runs, in the order of the text,
    are made of its stripped lines that are neither blank nor headings, in
    order. *)
Theorem parse_text_keeps_lines :
  forall text h,
    exists m h',
      parse_text text h = (inr m, h')
      /\ let runs := List.map snd (Spec.text_runs "Uncategorized" []
                                     (Str.splitlines text)) in
         Permutation (flat_map snd m)
                     (List.map (fun r => Text (Str.join " " r)) runs)
         /\ List.concat runs = Kept.body_lines (Str.splitlines text).
Proof.
  intros text h. eexists. eexists.
  split; [apply ModelFacts.parse_text_closed|]. split.
  - etransitivity.
    + apply KeptFacts.model_permutation;
        [apply Finalized.text_order_nodup | apply KeptFacts.text_log_in_order].
    + unfold Spec.text_log, Spec.run_log. rewrite !map_map.
      apply Permutation_refl.
  - apply (KeptFacts.runs_cover _ "Uncategorized" []).
Qed.

(** X12: [parse_docx] keeps, all sections together and up to the captions
    it sets: the images of every paragraph that is not a heading and has
    images, the text of every other paragraph that is not a heading and
    has text, and every table.  So the images of a heading paragraph and
    the text of a paragraph that has an image do not become elements. *)
Theorem parse_docx_keeps_blocks :
  forall Document tempdir writable path doc h,
    Document path = Some doc ->
    exists m h',
      parse_docx Document tempdir writable path h = (inr m, h')
      /\ Permutation
           (List.map (set_caption None) (flat_map snd m))
           (flat_map (Kept.block_elements
                        (_extract_all_images writable doc
                           (path_join tempdir "docmaster_images")))
                     (body doc)).
Proof.
  intros Document tempdir writable path doc h Hdoc. eexists. eexists.
  split; [apply (ClosedForms.parse_docx_closed _ _ _ _ _ h Hdoc)|].
  cbv zeta.
  rewrite <- (KeptFacts.docx_log_elements _ _ "Uncategorized" None).
  apply Permutation_map, KeptFacts.model_permutation;
    [apply Finalized.docx_order_nodup | apply KeptFacts.docx_log_in_order].
Qed.

Lemma parse_docx_keeps_blocks_witness :
  exists m h',
    parse_docx (fun _ => Some Mixed.doc) "/tmp" (fun _ => true) "mixed.docx"
               new_handler = (inr m, h')
    /\ Permutation
         (List.map (set_caption None) (flat_map snd m))
         [Image None None EmptyString false; Table [["a"; "b"]];
          Text "Plain text."].
Proof.
  apply (parse_docx_keeps_blocks (fun _ => Some Mixed.doc) "/tmp"
           (fun _ => true) "mixed.docx" Mixed.doc new_handler).
  reflexivity.
Defined.

(* ================================================================== *)
(** ** The map of extracted images *)

Module MapFacts.
Import ImageFacts ImageSpec.

Lemma assoc_get_set_same k v d : assoc_get k (assoc_set k v d) = Some v.
Proof.
  induction d as [|[k' v'] d IH]; simpl.
  - rewrite String.eqb_refl. reflexivity.
  - destruct (String.eqb_spec k k') as [->|Hk]; simpl.
    + rewrite String.eqb_refl. reflexivity.
    + destruct (String.eqb_spec k k'); [contradiction | exact IH].
Qed.

Lemma assoc_set_key k v d x :
  In x (List.map fst (assoc_set k v d)) -> x = k \/ In x (List.map fst d).
Proof.
  induction d as [|[k' v'] d IH]; simpl.
  - intros [<-|[]]. left; reflexivity.
  - destruct (String.eqb_spec k k') as [->|Hk]; simpl.
    + intros [<-|H]; auto.
    + intros [<-|H]; [auto|]. destruct (IH H); auto.
Qed.

Lemma assoc_set_nodup k v d :
  NoDup (List.map fst d) -> NoDup (List.map fst (assoc_set k v d)).
Proof.
  induction d as [|[k' v'] d IH]; simpl; intros H.
  - repeat constructor. intros [].
  - inversion H as [|? ? Hnotin Hnd]; subst.
    destruct (String.eqb_spec k k') as [->|Hk]; simpl.
    + constructor; assumption.
    + constructor; [|apply IH, Hnd].
      intros Hin. apply assoc_set_key in Hin as [->|Hin]; auto.
Qed.

(** What one relationship does to the map. *)
Lemma extract_one_cases writable dir r im :
  (extract_one writable dir r im = None
   /\ extraction_fails writable dir r = true)
  \/ (extract_one writable dir r im = Some im
      /\ Str.contains "image" (reltype r) = false)
  \/ (exists part,
         Str.contains "image" (reltype r) = true
         /\ target_part r = Some part
         /\ writable (path_join dir (basename (partname part))) = true
         /\ extract_one writable dir r im
            = Some (assoc_set (rId r)
                              (path_join dir (basename (partname part))) im)).
Proof.
  unfold extract_one, extraction_fails.
  destruct (Str.contains "image" (reltype r)); [|right; left; auto].
  destruct (target_part r) as [part|]; [|left; auto].
  destruct (writable _) eqn:Hw; [|left; auto].
  right; right. exists part. auto.
Qed.

Lemma written_later writable dir r rs k v :
  written writable dir rs k v -> written writable dir (r :: rs) k v.
Proof.
  intros (r' & part & Hin & H). exists r', part. split; [right; exact Hin|].
  exact H.
Qed.

Lemma extract_rels_sound writable dir rs :
  forall im k v,
    assoc_get k (extract_rels writable dir rs im) = Some v ->
    assoc_get k im = Some v \/ written writable dir rs k v.
Proof.
  induction rs as [|r rs IH]; intros im k v H; simpl in H; [left; exact H|].
  destruct (extract_one_cases writable dir r im)
    as [[E _]|[[E _]|(part & Himg & Hpart & Hw & E)]]; rewrite E in H.
  - destruct (IH _ _ _ H) as [H'|H']; [left; exact H'|].
    right. apply written_later, H'.
  - destruct (IH _ _ _ H) as [H'|H']; [left; exact H'|].
    right. apply written_later, H'.
  - destruct (IH _ _ _ H) as [H'|H']; [|right; apply written_later, H'].
    destruct (String.eqb_spec k (rId r)) as [->|Hne].
    + rewrite assoc_get_set_same in H'. injection H' as <-.
      right. exists r, part. repeat split; auto. left; reflexivity.
    + rewrite assoc_get_set_other in H' by exact Hne. left; exact H'.
Qed.

Lemma extract_rels_keeps writable dir rs :
  forall im k v,
    assoc_get k im = Some v ->
    exists v', assoc_get k (extract_rels writable dir rs im) = Some v'.
Proof.
  induction rs as [|r rs IH]; intros im k v H; simpl; [eauto|].
  destruct (extract_one_cases writable dir r im)
    as [[E _]|[[E _]|(part & _ & _ & _ & E)]]; rewrite E.
  - apply (IH _ _ _ H).
  - apply (IH _ _ _ H).
  - destruct (String.eqb_spec k (rId r)) as [->|Hne].
    + apply (IH _ _ _ (assoc_get_set_same _ _ _)).
    + apply (IH _ _ v). rewrite assoc_get_set_other by exact Hne. exact H.
Qed.

Lemma extract_rels_complete writable dir rs :
  forall im r part,
    In r rs ->
    Str.contains "image" (reltype r) = true ->
    target_part r = Some part ->
    writable (path_join dir (basename (partname part))) = true ->
    exists v, assoc_get (rId r) (extract_rels writable dir rs im) = Some v.
Proof.
  induction rs as [|r0 rs IH]; intros im r part Hin Himg Hpart Hw; [destruct Hin|].
  simpl. destruct Hin as [->|Hin].
  - unfold extract_one. rewrite Himg, Hpart, Hw.
    apply (extract_rels_keeps _ _ _ _ _ _ (assoc_get_set_same _ _ _)).
  - destruct (extract_one writable dir r0 im);
      apply (IH _ _ _ Hin Himg Hpart Hw).
Qed.

Lemma extract_rels_nodup writable dir rs :
  forall im,
    NoDup (List.map fst im) ->
    NoDup (List.map fst (extract_rels writable dir rs im)).
Proof.
  induction rs as [|r rs IH]; intros im H; simpl; [exact H|].
  destruct (extract_one_cases writable dir r im)
    as [[E _]|[[E _]|(part & _ & _ & _ & E)]]; rewrite E; apply IH; auto.
  apply assoc_set_nodup, H.
Qed.

End MapFacts.

(** X13: the map of [_extract_all_images].  An entry of the map comes from
    a relationship of the document with that id, whose type contains
    "image", whose part could be read and whose file could be written; the
    path is the directory joined with the base name of the part.  Every
    such relationship has an entry under its id.  No id has two
    entries. *)
Theorem image_map_entries :
  forall writable doc dir,
    let image_map := _extract_all_images writable doc dir in
    (forall k v,
        assoc_get k image_map = Some v ->
        exists r part,
          In r (rels doc) /\ rId r = k
          /\ Str.contains "image" (reltype r) = true
          /\ target_part r = Some part
          /\ v = path_join dir (basename (partname part))
          /\ writable v = true)
    /\ (forall r part,
           In r (rels doc) ->
           Str.contains "image" (reltype r) = true ->
           target_part r = Some part ->
           writable (path_join dir (basename (partname part))) = true ->
           exists v, assoc_get (rId r) image_map = Some v)
    /\ NoDup (List.map fst image_map).
Proof.
  intros writable doc dir image_map. unfold image_map, _extract_all_images.
  split; [|split].
  - intros k v H. apply MapFacts.extract_rels_sound in H as [H|H];
      [discriminate H | exact H].
  - intros r part. apply MapFacts.extract_rels_complete.
  - apply MapFacts.extract_rels_nodup. constructor.
Qed.

Lemma image_map_entries_witness :
  exists v,
    assoc_get "rId5"
              (_extract_all_images (fun _ => true) Broken.intact
                                   "/tmp/docmaster_images")
    = Some v.
Proof.
  destruct (image_map_entries (fun _ => true) Broken.intact
              "/tmp/docmaster_images") as (_ & Hall & _).
  apply (Hall (mkRel "rId5" "http://schemas.openxmlformats.org/officeDocument/2006/relationships/image"
                     (Some (mkPart "/word/media/image1.png" "PNG")))
              (mkPart "/word/media/image1.png" "PNG"));
    [left; reflexivity | reflexivity | reflexivity | reflexivity].
Defined.

(* ================================================================== *)
(** ** The images of a parsed document *)

Module PictureFacts.
Import Spec DocxSpec CaptionSpec ImageSpec.

Lemma extracted_image para im img :
  In img (_extract_images_from_paragraph para im) ->
  exists rid alt, img = Image (assoc_get rid im) None alt false.
Proof.
  unfold _extract_images_from_paragraph. intros H.
  apply in_flat_map in H as (run & _ & H).
  apply in_flat_map in H as (n & _ & H).
  unfold images_of_node in H. apply in_flat_map in H as ([attr value] & _ & H).
  destruct (Str.contains "embed" attr); [|destruct H].
  destruct H as [<-|[]]. eauto.
Qed.

Lemma detected_caption previous current cap :
  _detect_caption previous current = Some cap ->
  caption_shape cap = true /\ (previous = Some cap \/ current = Some cap).
Proof.
  unfold _detect_caption. rewrite !CaptionFacts.is_caption_line.
  destruct (caption_line previous) eqn:Ep.
  - intros ->. auto.
  - destruct (caption_line current) eqn:Ec; [|discriminate].
    intros ->. auto.
Qed.

Lemma docx_log_image im body blocks :
  forall cur last s p c a vt,
    incl blocks body ->
    (forall t, last = Some t -> paragraph_text body t) ->
    In (s, Image p c a vt) (docx_log im blocks cur last) ->
    vt = false
    /\ (exists rid, p = assoc_get rid im)
    /\ (forall cap, c = Some cap ->
                    caption_shape cap = true /\ paragraph_text body cap).
Proof.
  induction blocks as [|b rest IH]; intros cur last s p c a vt Hincl Hlast;
    [intros []|].
  assert (Hrest : incl rest body) by (intros x Hx; apply Hincl; right; exact Hx).
  destruct b as [para|rows|]; cbn [docx_log].
  - assert (Hhere : forall t, Some (Str.strip (para_text para)) = Some t ->
                              paragraph_text body t).
    { intros t [= <-]. exists para. split; [|reflexivity].
      apply Hincl. left; reflexivity. }
    destruct (paragraph_heading para) as [name|];
      [apply (IH _ _ _ _ _ _ _ Hrest Hhere)|].
    pose proof (extracted_image para im) as Himgs.
    destruct (_extract_images_from_paragraph para im) as [|img imgs].
    + intros H. apply in_app_or in H as [H|H];
        [|apply (IH _ _ _ _ _ _ _ Hrest Hhere H)].
      destruct (Str.is_empty (Str.strip (para_text para)));
        [destruct H | destruct H as [H|[]]; discriminate H].
    + intros H. apply in_app_or in H as [H|H];
        [|apply (IH _ _ _ _ _ _ _ Hrest Hhere H)].
      apply in_map_iff in H as (i & E & Hi).
      destruct (Himgs i Hi) as (rid & alt & ->). cbn [set_caption] in E.
      injection E as _ <- <- <- <-.
      split; [reflexivity|]. split; [exists rid; reflexivity|].
      intros cap Hcap. apply detected_caption in Hcap as [Hshape [Hc|Hc]];
        split; auto.
  - intros [H|H]; [discriminate H | apply (IH _ _ _ _ _ _ _ Hrest Hlast H)].
  - apply (IH _ _ _ _ _ _ _ Hrest Hlast).
Qed.

Lemma model_element o (l : log) name els e :
  In (name, els) (model_of o l) -> In e els -> In (name, e) l.
Proof.
  intros Hm He. apply ClosedForms.model_of_values in Hm as [-> _].
  unfold placed_in in He. apply in_map_iff in He as ([s x] & <- & Hin).
  apply filter_In in Hin as [Hin E]. apply String.eqb_eq in E.
  simpl in E. subst. exact Hin.
Qed.

End PictureFacts.

(** X14: the images of a document parsed by [parse_docx].  An image of
    the model is never a placeholder, its path is what the map of
    extracted images has for some relationship id (nothing when the map
    has no such id), and its caption, when it has one, has the shape of a
    figure caption and is the stripped text of a paragraph of the
    document. *)
Theorem parse_docx_images :
  forall Document tempdir writable path doc h m h' name els p c a vt,
    Document path = Some doc ->
    parse_docx Document tempdir writable path h = (inr m, h') ->
    In (name, els) m ->
    In (Image p c a vt) els ->
    vt = false
    /\ (exists rid,
           p = assoc_get rid
                 (_extract_all_images writable doc
                    (path_join tempdir "docmaster_images")))
    /\ (forall cap,
           c = Some cap ->
           CaptionSpec.caption_shape cap = true
           /\ exists q, In (CT_P q) (body doc)
                        /\ cap = Str.strip (para_text q)).
Proof.
  intros Document tempdir writable path doc h m h' name els p c a vt
         Hdoc Hparse Hsec Himg.
  rewrite (ClosedForms.parse_docx_closed _ _ _ _ _ h Hdoc) in Hparse.
  injection Hparse as <- _.
  pose proof (PictureFacts.model_element _ _ _ _ _ Hsec Himg) as Hlog.
  apply (PictureFacts.docx_log_image _ (body doc)) in Hlog;
    [exact Hlog | apply incl_refl | discriminate].
Qed.

Lemma parse_docx_images_witness :
  false = false
  /\ (exists rid,
         Some "/tmp/docmaster_images/image1.png"
         = assoc_get rid
             (_extract_all_images (fun _ => true) Broken.intact
                (path_join "/tmp" "docmaster_images")))
  /\ (forall cap,
         Some "Figure 1: Growth" = Some cap ->
         CaptionSpec.caption_shape cap = true
         /\ exists q, In (CT_P q) (body Broken.intact)
                      /\ cap = Str.strip (para_text q)).
Proof.
  apply (parse_docx_images (fun _ => Some Broken.intact) "/tmp" (fun _ => true)
           "paper.docx" Broken.intact new_handler
           [("Results",
             [Text "Figure 1: Growth";
              Image (Some "/tmp/docmaster_images/image1.png")
                    (Some "Figure 1: Growth") "growth chart" false;
              Text "The chart shows growth."])]
           (mkHandler
              [("Results",
                [Text "Figure 1: Growth";
                 Image (Some "/tmp/docmaster_images/image1.png")
                       (Some "Figure 1: Growth") "growth chart" false;
                 Text "The chart shows growth."])]
              ["Results"] (Some "The chart shows growth."))
           "Results"
           [Text "Figure 1: Growth";
            Image (Some "/tmp/docmaster_images/image1.png")
                  (Some "Figure 1: Growth") "growth chart" false;
            Text "The chart shows growth."]
           (Some "/tmp/docmaster_images/image1.png")
           (Some "Figure 1: Growth") "growth chart" false);
    [reflexivity | vm_compute; reflexivity | left; reflexivity
     | right; left; reflexivity].
Defined.

(* ================================================================== *)
(** ** The section of what comes before the first heading *)

Module LeadingFacts.
Import Dict Spec DocxSpec Leading HeadingSpec.

Lemma detected_not_uncategorized text name :
  _detect_heading text = Some name -> name <> "Uncategorized".
Proof.
  intros H E. apply DetectFacts.detect_some in H as [Hname Hline].
  unfold is_heading_line in Hline.
  rewrite <- HeadingFacts.heading_name_words, <- Hname, E in Hline.
  vm_compute in Hline. discriminate Hline.
Qed.

Lemma truthy_some o name : if_truthy o = Some name -> o = Some name.
Proof.
  destruct o as [s|]; simpl; [|discriminate].
  destruct (Str.is_empty s); [discriminate | auto].
Qed.

Lemma heading_not_uncategorized line name :
  classify line = Heading name -> name <> "Uncategorized".
Proof.
  unfold classify. destruct (Str.is_empty (Str.strip line)); [discriminate|].
  destruct (if_truthy (_detect_heading (Str.strip line))) as [n|] eqn:E;
    [|discriminate].
  intros [= <-]. apply truthy_some in E.
  apply (detected_not_uncategorized _ _ E).
Qed.

Lemma close_names cur run n :
  In n (List.map fst (close cur run)) <-> n = cur /\ run <> [].
Proof.
  destruct run; simpl; split.
  - intros [].
  - intros [_ H]. apply H. reflexivity.
  - intros [<-|[]]. split; [reflexivity | discriminate].
  - intros [-> _]. left; reflexivity.
Qed.

Lemma runs_elsewhere lines :
  forall cur run,
    cur <> "Uncategorized" ->
    ~ In "Uncategorized" (List.map fst (text_runs cur run lines)).
Proof.
  induction lines as [|line rest IH]; intros cur run Hcur; cbn [text_runs].
  - rewrite close_names. intros [E _]. auto.
  - destruct (classify line) as [|name|stripped] eqn:Ek.
    + rewrite map_app, in_app_iff, close_names.
      intros [[E _]|H]; [auto | apply (IH _ _ Hcur H)].
    + rewrite map_app, in_app_iff, close_names.
      intros [[E _]|H]; [auto|].
      apply (IH _ _ (heading_not_uncategorized _ _ Ek) H).
    + apply IH, Hcur.
Qed.

Lemma runs_uncategorized lines :
  forall run,
    In "Uncategorized" (List.map fst (text_runs "Uncategorized" run lines))
    <-> run <> [] \/ leading_body lines = true.
Proof.
  induction lines as [|line rest IH]; intros run;
    cbn [text_runs leading_body].
  - rewrite close_names. split.
    + intros [_ H]. left; exact H.
    + intros [H|H]; [auto | discriminate H].
  - destruct (classify line) as [|name|stripped] eqn:Ek.
    + rewrite map_app, in_app_iff, close_names, IH. split.
      * intros [[_ H]|[H|H]]; auto.
      * intros [H|H]; auto.
    + rewrite map_app, in_app_iff, close_names. split.
      * intros [[_ H]|H]; [auto|]. exfalso.
        apply (runs_elsewhere _ _ _ (heading_not_uncategorized _ _ Ek) H).
      * intros [H|H]; [auto | discriminate H].
    + rewrite IH. split; [auto|]. intros _. left.
      destruct run; discriminate.
Qed.

Lemma add_name_head a o n : exists ext, add_name (a :: o) n = a :: ext.
Proof.
  unfold add_name. destruct (existsb _ _); simpl; eauto.
Qed.

Lemma fold_add_name_head hs :
  forall a o, exists ext, fold_left add_name hs (a :: o) = a :: ext.
Proof.
  induction hs as [|n hs IH]; intros a o; simpl; [eauto|].
  destruct (add_name_head a o n) as (ext & ->). apply IH.
Qed.

(** The keys of a model whose order starts with "Uncategorized". *)
Lemma first_key order (l : log) :
  NoDup order ->
  (exists ext, order = "Uncategorized" :: ext) ->
  if nonempty (placed_in "Uncategorized" l)
  then exists rest, keys (model_of order l) = "Uncategorized" :: rest
                    /\ ~ In "Uncategorized" rest
  else ~ In "Uncategorized" (keys (model_of order l)).
Proof.
  intros Hnd (ext & ->). rewrite ModelFacts.keys_model_of.
  inversion Hnd as [|? ? Hnotin _]; subst. cbn [filter].
  destruct (nonempty (placed_in "Uncategorized" l)).
  - eexists. split; [reflexivity|]. intros H. apply filter_In in H as [H _].
    contradiction.
  - intros H. apply filter_In in H as [H _]. contradiction.
Qed.

End LeadingFacts.

(** X15: the section "Uncategorized".  [parse_text] keeps it exactly when
    the first line of the text that is not blank is a body line, and then
    it is the first section of the model and occurs once; a heading never
    has that name.  In the model of [parse_docx] it is the first section
    whenever it is there. *)
Theorem uncategorized_comes_first :
  (forall text h,
      exists m h',
        parse_text text h = (inr m, h')
        /\ if Leading.leading_body (Str.splitlines text)
           then exists rest, Dict.keys m = "Uncategorized" :: rest
                             /\ ~ In "Uncategorized" rest
           else ~ In "Uncategorized" (Dict.keys m))
  /\ (forall text name,
         _detect_heading text = Some name -> name <> "Uncategorized")
  /\ (forall Document tempdir writable path doc h,
         Document path = Some doc ->
         exists m h',
           parse_docx Document tempdir writable path h = (inr m, h')
           /\ (In "Uncategorized" (Dict.keys m) ->
               exists rest, Dict.keys m = "Uncategorized" :: rest
                            /\ ~ In "Uncategorized" rest)).
Proof.
  split; [|split].
  - intros text h. eexists. eexists.
    split; [apply ModelFacts.parse_text_closed|].
    pose proof (LeadingFacts.first_key
                  (Spec.text_order (Str.splitlines text))
                  (Spec.text_log "Uncategorized" [] (Str.splitlines text))
                  (Finalized.text_order_nodup _)
                  (LeadingFacts.fold_add_name_head _ _ _)) as Hkey.
    destruct (Leading.leading_body (Str.splitlines text)) eqn:Elead.
    + assert (Hne : nonempty (Spec.placed_in "Uncategorized"
                                (Spec.text_log "Uncategorized" []
                                   (Str.splitlines text))) = true).
      { apply ClosedForms.nonempty_placed. rewrite Finalized.text_log_names.
        apply LeadingFacts.runs_uncategorized. right; exact Elead. }
      rewrite Hne in Hkey. exact Hkey.
    + destruct (nonempty _) eqn:Hne; [|exact Hkey]. exfalso.
      apply ClosedForms.nonempty_placed in Hne.
      rewrite Finalized.text_log_names in Hne.
      apply LeadingFacts.runs_uncategorized in Hne as [H|H];
        [apply H; reflexivity | congruence].
  - apply LeadingFacts.detected_not_uncategorized.
  - intros Document tempdir writable path doc h Hdoc. eexists. eexists.
    split; [apply (ClosedForms.parse_docx_closed _ _ _ _ _ h Hdoc)|].
    cbv zeta. intros Hin.
    match goal with
    | |- context [Spec.model_of ?o ?l] =>
        pose proof (LeadingFacts.first_key o l
                      (Finalized.docx_order_nodup _)
                      (LeadingFacts.fold_add_name_head _ _ _)) as Hkey
    end.
    destruct (nonempty _); [exact Hkey | contradiction].
Qed.

Lemma uncategorized_comes_first_witness :
  exists m h',
    parse_docx (fun _ => Some Mixed.doc) "/tmp" (fun _ => true) "mixed.docx"
               new_handler = (inr m, h')
    /\ (In "Uncategorized" (Dict.keys m) ->
        exists rest, Dict.keys m = "Uncategorized" :: rest
                     /\ ~ In "Uncategorized" rest).
Proof.
  destruct uncategorized_comes_first as (_ & _ & Hdocx).
  apply (Hdocx (fun _ => Some Mixed.doc) "/tmp" (fun _ => true) "mixed.docx"
               Mixed.doc new_handler).
  reflexivity.
Defined.

(* ================================================================== *)
(** ** The rules of the classifier, as a table *)

Module TableFacts.
Import Str StrFacts SplitFacts Re ReFacts Patterns HeadingSpec PredictorSpec
       PatternFacts PredictorFacts PredictorTable.

Lemma bracket_ref_sound s :
  matches BRACKET_REF s = true -> starts_with_reference s = true.
Proof.
  intros H. apply matches_sound in H as (s1 & s2 & g & -> & H).
  unfold BRACKET_REF in H. cbn [seq denotes] in H.
  destruct H as (a & b & g0 & -> & Ha & H).
  apply denotes_chr in Ha as [-> ->].
  destruct H as (ds & cl & g1 & -> & Hds & Hcl).
  apply denotes_plus in Hds as (Hne & Hds & ->).
  apply denotes_chr in Hcl as [-> _].
  change ((String "[" EmptyString ++ ds ++ String "]" EmptyString) ++ s2)%string
    with (String "[" ((ds ++ String "]" EmptyString) ++ s2))%string.
  rewrite append_assoc. cbn [append starts_with_reference].
  rewrite take_while_app, drop_while_app by (auto; reflexivity).
  rewrite Ascii.eqb_refl. destruct ds; [congruence | reflexivity].
Qed.

Lemma bracket_ref_shape s :
  matches BRACKET_REF s = starts_with_reference s.
Proof.
  destruct (starts_with_reference s) eqn:E.
  - apply bracket_ref_complete, E.
  - destruct (matches BRACKET_REF s) eqn:Em; [|reflexivity].
    apply bracket_ref_sound in Em. congruence.
Qed.

Lemma last_ok_nonempty m : last_ok m = true -> m <> EmptyString.
Proof. destruct m; [discriminate | discriminate]. Qed.

Lemma prefix_rstrip_last m :
  last_ok m = true ->
  forall s, String.prefix m (rstrip s) = String.prefix m s.
Proof.
  induction m as [|a m IH]; intros Hm s; [discriminate Hm|].
  destruct s as [|c s]; [reflexivity|]. cbn [rstrip].
  destruct m as [|a' m'].
  - simpl in Hm. apply negb_true_iff in Hm.
    destruct (is_empty (rstrip s) && Char.isspace c) eqn:E.
    + apply andb_true_iff in E as [_ Hc]. simpl.
      destruct (ascii_dec a c) as [->|]; [congruence | reflexivity].
    + simpl. destruct (ascii_dec a c); [|reflexivity].
      destruct (rstrip s), s; reflexivity.
  - assert (Hm' : last_ok (String a' m') = true) by exact Hm.
    specialize (IH Hm'). 
    destruct (is_empty (rstrip s) && Char.isspace c) eqn:E.
    + apply andb_true_iff in E as [Hr _]. apply is_empty_true in Hr.
      cbn [String.prefix]. destruct (ascii_dec a c); [|reflexivity].
      rewrite <- IH, Hr. reflexivity.
    + cbn [String.prefix]. destruct (ascii_dec a c); [apply IH | reflexivity].
Qed.

Lemma contains_rstrip_last m s :
  last_ok m = true -> contains m (rstrip s) = contains m s.
Proof.
  intros Hm. pose proof (last_ok_nonempty _ Hm) as Hne.
  induction s as [|c s IH]; [reflexivity|].
  assert (Hp : String.prefix m (rstrip (String c s)) = String.prefix m (String c s))
    by (apply prefix_rstrip_last, Hm).
  cbn [contains]. rewrite <- Hp, <- IH. cbn [rstrip].
  destruct (is_empty (rstrip s) && Char.isspace c) eqn:E.
  - apply andb_true_iff in E as [Hr _]. apply is_empty_true in Hr.
    rewrite Hr. destruct m; [congruence | reflexivity].
  - cbn [contains]. reflexivity.
Qed.

Lemma contains_lstrip_first m s :
  first_ok m = true -> contains m (lstrip s) = contains m s.
Proof.
  intros Hm. destruct m as [|a m]; [discriminate|]. simpl in Hm.
  apply negb_true_iff in Hm.
  induction s as [|c s IH]; [reflexivity|]. cbn [lstrip].
  destruct (Char.isspace c) eqn:Hc; [|reflexivity].
  rewrite IH. cbn [contains String.prefix].
  destruct (ascii_dec a c) as [->|]; [congruence | reflexivity].
Qed.

Lemma contains_strip_tight m s :
  tight m = true -> contains m (strip s) = contains m s.
Proof.
  unfold tight. intros H. apply andb_true_iff in H as [H1 H2]. unfold strip.
  rewrite contains_rstrip_last, contains_lstrip_first by assumption.
  reflexivity.
Qed.

(** A text that contains a word contains its parts. *)
Lemma prefix_part_l a b s :
  String.prefix (a ++ b)%string s = true -> String.prefix a s = true.
Proof.
  revert s. induction a as [|x a IH]; intros s H.
  - destruct s; reflexivity.
  - destruct s as [|c s]; [discriminate|]. simpl in *.
    destruct (ascii_dec x c); [apply IH, H | discriminate].
Qed.

Lemma contains_prefix n s : String.prefix n s = true -> contains n s = true.
Proof. intros H. destruct s; cbn [contains]; rewrite H; reflexivity. Qed.

Lemma contains_tail n c s : contains n s = true -> contains n (String c s) = true.
Proof. intros H. cbn [contains]. rewrite H. apply orb_true_r. Qed.

Lemma prefix_part_r a b s :
  String.prefix (a ++ b)%string s = true -> contains b s = true.
Proof.
  revert s. induction a as [|x a IH]; intros s H.
  - apply contains_prefix, H.
  - destruct s as [|c s]; [discriminate|]. simpl in H.
    destruct (ascii_dec x c); [|discriminate].
    apply contains_tail, IH, H.
Qed.

Lemma contains_part_l a b s :
  contains (a ++ b)%string s = true -> contains a s = true.
Proof.
  induction s as [|c s IH]; cbn [contains]; intros H.
  - rewrite orb_false_r in H. rewrite (prefix_part_l _ _ _ H). reflexivity.
  - apply orb_true_iff in H as [H|H].
    + rewrite (prefix_part_l _ _ _ H). reflexivity.
    + rewrite (IH H). apply orb_true_r.
Qed.

Lemma contains_part_r a b s :
  contains (a ++ b)%string s = true -> contains b s = true.
Proof.
  induction s as [|c s IH]; intros H.
  - cbn [contains] in H. rewrite orb_false_r in H.
    apply (prefix_part_r _ _ _ H).
  - cbn [contains] in H. apply orb_true_iff in H as [H|H].
    + apply (prefix_part_r _ _ _ H).
    + apply contains_tail, IH, H.
Qed.

(** Three of the eight words of the rule never decide. *)
Lemma custom_words_stems low :
  existsb (fun word => contains word low) CUSTOM_WORDS
  = existsb (fun word => contains word low) CUSTOM_STEMS.
Proof.
  pose proof (contains_part_l "acknowledg" "ement" low) as H1.
  pose proof (contains_part_l "acknowledg" "ment" low) as H2.
  pose proof (contains_part_r "supervisor " "certificate" low) as H3.
  change ("acknowledg" ++ "ement")%string with "acknowledgement" in H1.
  change ("acknowledg" ++ "ment")%string with "acknowledgment" in H2.
  change ("supervisor " ++ "certificate")%string
    with "supervisor certificate" in H3.
  unfold CUSTOM_WORDS, CUSTOM_STEMS. cbn [existsb].
  destruct (contains "acknowledg" low); [reflexivity|].
  destruct (contains "acknowledgement" low); [discriminate (H1 eq_refl)|].
  destruct (contains "acknowledgment" low); [discriminate (H2 eq_refl)|].
  destruct (contains "declaration" low); [reflexivity|].
  destruct (contains "certificate" low); [reflexivity|].
  destruct (contains "plagiarism" low); [reflexivity|].
  destruct (contains "bona fide" low); [reflexivity|].
  destruct (contains "supervisor certificate" low);
    [discriminate (H3 eq_refl) | reflexivity].
Qed.

Lemma custom_stems_low text :
  existsb (fun word => contains word (strip (lower (strip text)))) CUSTOM_STEMS
  = has_custom_stem text.
Proof.
  unfold has_custom_stem. rewrite <- HeadingFacts.lower_strip, strip_idem.
  unfold CUSTOM_STEMS. cbn [existsb].
  rewrite !contains_strip_tight by reflexivity. reflexivity.
Qed.

End TableFacts.

(** X16: [predict_section] as a table.  With the text stripped of white
    space at both ends: fewer than 20 characters give "CUSTOM"; otherwise
    a bracketed number at the start, or "doi.org", "http://" or
    "https://" anywhere in any case, give "REFERENCES"; otherwise one of
    "acknowledg", "declaration", "certificate", "plagiarism" and
    "bona fide" anywhere in any case gives "CUSTOM"; otherwise the label
    is that of the model for the stripped text.  The words
    "acknowledgement", "acknowledgment" and "supervisor certificate" of
    the rule never decide. *)
Theorem predict_section_table :
  forall (CLASSIFIER : string -> string) text,
    predict_section CLASSIFIER text = PredictorTable.label_of CLASSIFIER text.
Proof.
  intros CLASSIFIER text. unfold predict_section, PredictorTable.label_of.
  cbv zeta. destruct (String.length (Str.strip text) <? 20); [reflexivity|].
  unfold _rule_based_label. rewrite PredictorFacts.strip_idem.
  rewrite TableFacts.bracket_ref_shape.
  pose proof (PredictorFacts.link_marker_low text) as Hlow.
  cbv zeta in Hlow. cbv zeta. rewrite Hlow.
  rewrite TableFacts.custom_words_stems, TableFacts.custom_stems_low.
  destruct (PredictorSpec.starts_with_reference (Str.strip text));
    [reflexivity|].
  destruct (PredictorSpec.has_link_marker text); [reflexivity|].
  destruct (PredictorTable.has_custom_stem text); reflexivity.
Qed.

(* ================================================================== *)
(** ** Attaching tables and images after a parse *)

Module AttachFacts.
Import Dict DictFacts HandlerFacts Spec Kept PdfImport.

Lemma mem_keys (k : string) (d : sections_t) :
  mem k d = existsb (String.eqb k) (keys d).
Proof.
  destruct (mem k d) eqn:E.
  - symmetry. apply existsb_eqb_in, mem_true_iff, E.
  - destruct (existsb (String.eqb k) (keys d)) eqn:E'; [|reflexivity].
    apply existsb_eqb_in, mem_true_iff in E'. congruence.
Qed.

Lemma last_some (o : list string) d :
  o <> [] -> last (List.map Some o) None = Some (last o d).
Proof.
  induction o as [|a o IH]; intros H; [congruence|].
  destruct o as [|b o]; [reflexivity|].
  change (last (List.map Some (b :: o)) None = Some (last (b :: o) d)).
  apply IH. discriminate.
Qed.

Lemma last_in (o : list string) d : o <> [] -> In (last o d) o.
Proof.
  induction o as [|a o IH]; intros H; [congruence|].
  destruct o as [|b o]; [left; reflexivity|].
  right. apply IH. discriminate.
Qed.

Lemma landing_in_order o sec_name : o <> [] -> In (landing_in o sec_name) o.
Proof.
  intros H. unfold landing_in.
  destruct (existsb (String.eqb sec_name) o) eqn:E.
  - apply existsb_eqb_in, E.
  - apply last_in, H.
Qed.

Lemma target_of_wf sec_name h :
  wf h -> detected_order h <> [] ->
  target_of sec_name h = Some (landing_in (detected_order h) sec_name).
Proof.
  intros [Hk _] Hne. unfold target_of, landing_in.
  rewrite mem_keys, Hk.
  destruct (existsb (String.eqb sec_name) (detected_order h)); [reflexivity|].
  apply last_some, Hne.
Qed.

Lemma target_of_empty sec_name h :
  wf h -> detected_order h = [] -> target_of sec_name h = None.
Proof.
  intros [Hk _] He. unfold target_of. rewrite mem_keys, Hk, He. reflexivity.
Qed.

Lemma attach_each_ok items :
  forall h,
    wf h -> detected_order h <> [] ->
    exists h',
      attach_each items h = (inr tt, h')
      /\ effect h h' (detected_order h)
                (List.map (fun it => (landing_in (detected_order h) (fst it),
                                      snd it)) items).
Proof.
  induction items as [|item rest IH]; intros h Hwf Hne.
  - exists h. split; [reflexivity | apply effect_refl, Hwf].
  - cbn [attach_each]. unfold attach.
    rewrite (target_of_wf _ _ Hwf Hne).
    destruct (sections_append_spec (landing_in (detected_order h) (fst item))
                (snd item) Hwf (landing_in_order _ _ Hne))
      as (h1 & -> & _ & Heff).
    pose proof Heff as (Hwf1 & Ho1 & _).
    assert (Hne1 : detected_order h1 <> []) by (rewrite Ho1; exact Hne).
    destruct (IH h1 Hwf1 Hne1) as (h' & -> & Heff').
    exists h'. split; [reflexivity|]. rewrite Ho1 in Heff'.
    exact (effect_trans Heff Heff').
Qed.

Lemma attach_all_each tables images h :
  attach_all tables images h
  = match attach_each (table_items tables) h with
    | (inr _, h') => attach_each images h'
    | (inl e, h') => (inl e, h')
    end.
Proof.
  unfold attach_all. destruct tables, images; reflexivity.
Qed.

Lemma attach_all_ok tables images h :
  wf h -> detected_order h <> [] ->
  exists h',
    attach_all tables images h = (inr tt, h')
    /\ effect h h' (detected_order h)
              (List.map (fun it => (landing_in (detected_order h) (fst it),
                                    snd it))
                        (table_items tables ++ images)).
Proof.
  intros Hwf Hne. rewrite attach_all_each.
  destruct (attach_each_ok (table_items tables) h Hwf Hne) as (h1 & -> & Heff).
  pose proof Heff as (Hwf1 & Ho1 & _).
  assert (Hne1 : detected_order h1 <> []) by (rewrite Ho1; exact Hne).
  destruct (attach_each_ok images h1 Hwf1 Hne1) as (h' & -> & Heff').
  exists h'. split; [reflexivity|]. rewrite Ho1 in Heff'.
  rewrite map_app. exact (effect_trans Heff Heff').
Qed.

Lemma attach_all_empty tables images h :
  wf h -> detected_order h = [] ->
  table_items tables ++ images <> [] ->
  attach_all tables images h = (inl IndexError, h).
Proof.
  intros Hwf He Hitems. rewrite attach_all_each.
  destruct tables as [|t tables].
  - destruct images as [|i images]; [exfalso; apply Hitems; reflexivity|].
    cbn [table_items List.map attach_each]. unfold attach.
    rewrite (target_of_empty _ _ Hwf He). reflexivity.
  - cbn [table_items List.map attach_each]. unfold attach.
    rewrite (target_of_empty _ _ Hwf He). reflexivity.
Qed.

Lemma text_runs_none lines :
  forall cur run,
    text_runs cur run lines = [] <-> run = [] /\ body_lines lines = [].
Proof.
  induction lines as [|line rest IH]; intros cur run.
  - simpl. destruct run; simpl; split; intros H; try tauto; try discriminate.
    destruct H; discriminate.
  - unfold body_lines. cbn [text_runs flat_map]. fold (body_lines rest).
    destruct (classify line) as [|name|stripped]; cbn [app].
    + split.
      * intros H. apply app_eq_nil in H as [Hc Hr]. apply IH in Hr.
        destruct run; [tauto | discriminate].
      * intros [-> Hb]. apply (IH cur []). auto.
    + split.
      * intros H. apply app_eq_nil in H as [Hc Hr]. apply IH in Hr.
        destruct run; [tauto | discriminate].
      * intros [-> Hb]. apply (IH name []). auto.
    + rewrite IH. split.
      * intros [H _]. destruct run; discriminate.
      * intros [_ H]. discriminate.
Qed.

Lemma landing_keys m sec_name :
  landing_in (keys m) sec_name = landing m sec_name.
Proof. unfold landing_in, landing. rewrite mem_keys. reflexivity. Qed.

End AttachFacts.

(** X17: the last step of [import_pdf], after [parse_text].  When the text
    has no body line, only headings and blank lines, the model is empty,
    and a first table or image to attach raises an index error: nothing is
    attached.  Otherwise every table and image is attached: the sections
    and their order stay those of the model, each section keeps its
    elements and gets after them, in order, the tables and then the images
    collected for it; what was collected for a section that the model
    does not have goes to the last section of the model. *)
Theorem pdf_attach_after_parse :
  forall raw h0 m h tables images,
    parse_text raw h0 = (inr m, h) ->
    let items := PdfImport.table_items tables ++ images in
    (Kept.body_lines (Str.splitlines raw) = [] ->
     m = []
     /\ (items <> [] ->
         PdfImport.attach_all tables images h = (inl PdfImport.IndexError, h)))
    /\ (Kept.body_lines (Str.splitlines raw) <> [] ->
        exists h',
          PdfImport.attach_all tables images h = (inr tt, h')
          /\ detected_order h' = detected_order h
          /\ Dict.keys (sections h') = Dict.keys m
          /\ forall n,
               content n (sections h')
               = content n m
                 ++ Spec.placed_in n
                      (List.map (fun it => (PdfImport.landing m (fst it),
                                            snd it)) items)).
Proof.
  intros raw h0 m h tables images Hparse items.
  rewrite ModelFacts.parse_text_closed in Hparse.
  injection Hparse as <- <-.
  set (lines := Str.splitlines raw).
  set (m := Spec.model_of (Spec.text_order lines)
                          (Spec.text_log "Uncategorized" [] lines)).
  set (h := mkHandler m (Dict.keys m) (_last_text h0)).
  assert (Hwf : wf h).
  { split; [reflexivity|].
    apply ClosedForms.model_of_nodup, Finalized.text_order_nodup. }
  split.
  - intros Hbody.
    assert (Hlog : Spec.text_log "Uncategorized" [] lines = []).
    { unfold Spec.text_log.
      replace (Spec.text_runs "Uncategorized" [] lines) with
        (@nil (string * list string)); [reflexivity|].
      symmetry. apply AttachFacts.text_runs_none. auto. }
    assert (Hm : m = []).
    { unfold m. rewrite Hlog. apply ClosedForms.model_of_nil. }
    split; [exact Hm|]. intros Hitems.
    apply AttachFacts.attach_all_empty; [exact Hwf | | exact Hitems].
    simpl. rewrite Hm. reflexivity.
  - intros Hbody.
    assert (Hne : detected_order h <> []).
    { simpl. unfold m. rewrite ModelFacts.keys_model_of.
      destruct (Spec.text_log "Uncategorized" [] lines) as [|[s e] l] eqn:Hlog.
      - exfalso. apply Hbody. unfold Spec.text_log, Spec.run_log in Hlog.
        apply map_eq_nil in Hlog.
        apply AttachFacts.text_runs_none in Hlog. apply Hlog.
      - assert (Hs : In s (Spec.text_order lines)).
        { apply (KeptFacts.text_log_in_order lines (s, e)).
          fold lines. rewrite Hlog. left; reflexivity. }
        assert (Hin : In s (filter
                              (fun n => nonempty (Spec.placed_in n ((s, e) :: l)))
                              (Spec.text_order lines))).
        { apply filter_In. split; [exact Hs|].
          apply ClosedForms.nonempty_placed. left; reflexivity. }
        intros E. rewrite E in Hin. exact Hin. }
    destruct (AttachFacts.attach_all_ok tables images h Hwf Hne)
      as (h' & Hrun & Hwf' & Ho & Hc).
    exists h'. split; [exact Hrun|]. split; [exact Ho|].
    split; [rewrite (proj1 Hwf'); exact Ho|].
    intros n. rewrite Hc. simpl. f_equal. f_equal.
    apply map_ext. intros it. rewrite AttachFacts.landing_keys. reflexivity.
Qed.

Lemma pdf_attach_after_parse_witness :
  PdfImport.attach_all [("Results", [["a"; "b"]])] [] new_handler
  = (inl PdfImport.IndexError, new_handler).
Proof.
  destruct (pdf_attach_after_parse "Results" new_handler [] new_handler
              [("Results", [["a"; "b"]])] [] eq_refl) as [Hnone _].
  destruct (Hnone eq_refl) as [_ Hraise]. apply Hraise. discriminate.
Defined.

(* ================================================================== *)
(** ** Exporting a parsed model *)

Module ExportFacts.
Import Dict Spec DocxExport.

Lemma headings_app a b : headings_of (a ++ b) = headings_of a ++ headings_of b.
Proof. unfold headings_of. apply flat_map_app. Qed.

Lemma caption_no_heading self c : headings_of (add_caption self c) = [].
Proof. unfold add_caption. destruct (if_truthy c); reflexivity. Qed.

Lemma element_no_heading path_exists renders self el :
  headings_of (element_calls path_exists renders self el) = [].
Proof.
  destruct el as [content|data|path caption alt virtual]; simpl.
  - reflexivity.
  - destruct data; reflexivity.
  - unfold _add_image. destruct virtual.
    + change (headings_of (add_caption self caption) = []).
      apply caption_no_heading.
    + rewrite headings_app, caption_no_heading, app_nil_r.
      destruct (if_truthy path) as [p|]; [|reflexivity].
      destruct (path_exists p); [|reflexivity].
      destruct (renders p); reflexivity.
Qed.

Lemma elements_no_heading path_exists renders self els :
  headings_of (flat_map (element_calls path_exists renders self) els) = [].
Proof.
  induction els as [|el els IH]; [reflexivity|]. cbn [flat_map].
  rewrite headings_app, IH, element_no_heading. reflexivity.
Qed.

Lemma title_no_heading today self title :
  headings_of (if title_page self then _add_title_page today self title else [])
  = [].
Proof. destruct (title_page self); reflexivity. Qed.

(** No section of a model is skipped. *)
Lemma model_sections path_exists renders self o (l : log) :
  flat_map (section_calls path_exists renders self) (model_of o l)
  = flat_map (fun n => add_heading n
                       :: flat_map (element_calls path_exists renders self)
                                   (placed_in n l))
             (keys (model_of o l)).
Proof.
  unfold model_of, keys. induction o as [|n o IH]; [reflexivity|].
  cbn [List.map filter snd].
  destruct (placed_in n l) as [|e els] eqn:E; cbn [nonempty]; [exact IH|].
  cbn [List.map flat_map fst]. rewrite IH, E. reflexivity.
Qed.

Lemma model_headings today path_exists renders self o (l : log) title :
  headings_of (export_to_docx today path_exists renders self (model_of o l) title)
  = keys (model_of o l).
Proof.
  unfold export_to_docx. rewrite headings_app, title_no_heading, model_sections.
  cbn [app]. induction (keys (model_of o l)) as [|n ks IH]; [reflexivity|].
  cbn [flat_map]. rewrite headings_app.
  change (headings_of (add_heading n :: ?x)) with (n :: headings_of x).
  rewrite elements_no_heading, IH. reflexivity.
Qed.

Lemma placed_runs n (rs : list (string * list string)) :
  placed_in n (run_log rs)
  = List.map (fun r => Text (Str.join " " r))
             (List.map snd (filter (fun sr => String.eqb n (fst sr)) rs)).
Proof.
  unfold placed_in, run_log. induction rs as [|[s r] rs IH]; [reflexivity|].
  cbn [List.map filter fst snd].
  destruct (String.eqb n s); cbn [List.map snd]; rewrite IH; reflexivity.
Qed.

Lemma text_calls path_exists renders self (rs : list (list string)) :
  flat_map (element_calls path_exists renders self)
           (List.map (fun r => Text (Str.join " " r)) rs)
  = flat_map (fun r => _add_paragraph self (Str.join " " r)) rs.
Proof.
  induction rs as [|r rs IH]; [reflexivity|].
  cbn [List.map flat_map]. rewrite IH. reflexivity.
Qed.

End ExportFacts.

(** X18: exporting what was parsed.  After [parse_text], the document
    made by [export_to_docx] from the sections of the handler has, after
    the title page if the style asks for one, for each section of the
    detected order, in that order: its heading, then one paragraph for
    each run of the text that belongs to it, the lines of the run joined
    by single spaces.  After [parse_text] and after [parse_docx], the
    headings of the document are the detected order: no section is
    skipped. *)
Theorem export_docx_after_parse :
  forall today path_exists renders self title,
    (forall text h m h',
        parse_text text h = (inr m, h') ->
        DocxExport.export_to_docx today path_exists renders self (sections h') title
        = (if DocxExport.title_page self
           then DocxExport._add_title_page today self title else [])
          ++ flat_map
               (fun n =>
                  DocxExport.add_heading n
                  :: flat_map
                       (fun r => DocxExport._add_paragraph self (Str.join " " r))
                       (List.map snd
                          (filter (fun sr => String.eqb n (fst sr))
                                  (Spec.text_runs "Uncategorized" []
                                     (Str.splitlines text)))))
               (detected_order h')
        /\ DocxExport.headings_of
             (DocxExport.export_to_docx today path_exists renders self
                                    (sections h') title)
           = detected_order h')
    /\ (forall Document tempdir writable path doc h m h',
           Document path = Some doc ->
           parse_docx Document tempdir writable path h = (inr m, h') ->
           DocxExport.headings_of
             (DocxExport.export_to_docx today path_exists renders self
                                    (sections h') title)
           = detected_order h').
Proof.
  intros today path_exists renders self title. split.
  - intros text h m h' Hparse.
    rewrite ModelFacts.parse_text_closed in Hparse.
    injection Hparse as <- <-. cbn [sections detected_order]. split.
    + unfold DocxExport.export_to_docx. f_equal.
      rewrite ExportFacts.model_sections. apply flat_map_ext. intros n.
      unfold Spec.text_log.
      rewrite ExportFacts.placed_runs, ExportFacts.text_calls. reflexivity.
    + apply ExportFacts.model_headings.
  - intros Document tempdir writable path doc h m h' Hdoc Hparse.
    rewrite (ClosedForms.parse_docx_closed _ _ _ _ _ h Hdoc) in Hparse.
    injection Hparse as <- <-. cbn [sections detected_order].
    apply ExportFacts.model_headings.
Qed.

Lemma export_docx_after_parse_witness :
  DocxExport.headings_of
    (DocxExport.export_to_docx "January 01, 2025" (fun _ => true) (fun _ => true)
       (DocxExport.mkService "justify" false "A. Author" "An Institute")
       [("Abstract", [Text "This paper studies X."]);
        ("Introduction", [Text "We begin with Y."])]
       "Final Document")
  = ["Abstract"; "Introduction"].
Proof.
  destruct (export_docx_after_parse "January 01, 2025" (fun _ => true)
              (fun _ => true)
              (DocxExport.mkService "justify" false "A. Author" "An Institute")
              "Final Document") as [Htext _].
  destruct (Htext Scenario.two_sections new_handler
              [("Abstract", [Text "This paper studies X."]);
               ("Introduction", [Text "We begin with Y."])]
              (mkHandler
                 [("Abstract", [Text "This paper studies X."]);
                  ("Introduction", [Text "We begin with Y."])]
                 ["Abstract"; "Introduction"] None)
              eq_refl) as [_ Hheadings].
  exact Hheadings.
Defined.

(* ================================================================== *)
(** ** Cleaning up twice *)

Module CleanupFacts.

Lemma filter_idem {A} (f : A -> bool) (l : list A) :
  filter f (filter f l) = filter f l.
Proof.
  induction l as [|a l IH]; [reflexivity|]. simpl.
  destruct (f a) eqn:E; simpl; [rewrite E, IH|]; auto.
Qed.

Lemma cleanup_closed h :
  _cleanup h
  = (inr tt,
     mkHandler (filter (fun kv => nonempty (snd kv)) (sections h))
               (filter (fun s =>
                          Dict.mem s (filter (fun kv => nonempty (snd kv))
                                             (sections h)))
                       (detected_order h))
               (_last_text h)).
Proof. reflexivity. Qed.

End CleanupFacts.

(** X19: [_cleanup] on any handler.  It returns, leaves the last text as
    it is, and leaves a handler in which no section is empty and every
    name of the order is a section.  Cleaning up a second time changes
    nothing. *)
Theorem cleanup_twice :
  forall h,
    exists h1,
      _cleanup h = (inr tt, h1)
      /\ _cleanup h1 = (inr tt, h1)
      /\ _last_text h1 = _last_text h
      /\ (forall name v, In (name, v) (sections h1) -> v <> [])
      /\ (forall name, In name (detected_order h1) ->
                       Dict.mem name (sections h1) = true).
Proof.
  intros h. eexists. split; [apply CleanupFacts.cleanup_closed|].
  split; [|split; [reflexivity|split]].
  - rewrite CleanupFacts.cleanup_closed. cbn [sections detected_order _last_text].
    rewrite !CleanupFacts.filter_idem. reflexivity.
  - cbn [sections]. intros name v Hin. apply filter_In in Hin as [_ Hne].
    intros ->. discriminate Hne.
  - cbn [sections detected_order]. intros name Hin.
    apply filter_In in Hin as [_ Hmem]. exact Hmem.
Qed.

(* ================================================================== *)
(** ** Texts with white space above U+007F

    NEL and the no-break space are white space to [str.strip],
    [str.split] and [\s], and NEL ends a line for [str.splitlines]. *)

Module Latin1Facts.
Import Latin1.

Example character_classes :
  filter (fun n => Char.isspace (ascii_of_nat n)) (seq 0 256)
  = [9; 10; 11; 12; 13; 28; 29; 30; 31; 32; 133; 160]
  /\ filter (fun n => Char.islinebreak (ascii_of_nat n)) (seq 0 256)
     = [10; 11; 12; 13; 28; 29; 30; 133]
  /\ filter (fun n => Char.isdigit (ascii_of_nat n)) (seq 0 256)
     = [48; 49; 50; 51; 52; 53; 54; 55; 56; 57].
Proof. vm_compute. auto. Qed.

Example heading_with_no_break_space :
  _detect_heading heading = Some heading
  /\ HeadingSpec.is_heading_line heading = true
  /\ parse_text (heading ++ Scenario.nl ++ "Some text") new_handler
     = (inr [(heading, [Text "Some text"])],
        mkHandler [(heading, [Text "Some text"])] [heading] None).
Proof. vm_compute. auto. Qed.

Example line_ends_at_nel :
  parse_text two_lines new_handler
  = (inr [("Abstract", [Text "Body line next"])],
     mkHandler [("Abstract", [Text "Body line next"])] ["Abstract"] None).
Proof. reflexivity. Qed.

Example reference_with_no_break_spaces :
  String.length reference = 26
  /\ String.length (Str.strip reference) = 16
  /\ predict_section (fun _ => "REFERENCES") reference = "CUSTOM".
Proof. vm_compute. auto. Qed.

Example caption_with_no_break_space :
  _detect_caption None (Some caption) = Some caption
  /\ CaptionSpec.caption_shape caption = true.
Proof. vm_compute. auto. Qed.

Example wrap_at_no_break_space :
  _wrap ("a" ++ nbsp ++ "bcdef") 3 = ["a"; "bcdef"].
Proof. reflexivity. Qed.

Example heading_paragraph_with_no_break_space :
  DocxSpec.paragraph_heading (mkPara ("Results" ++ nbsp) []) = Some "Results".
Proof. reflexivity. Qed.

End Latin1Facts.
